(** * atmn: memory-aware job scheduling, leak injection and sensor faults

    A shallow embedding of the parts of [ScenarioGenerator.py] and
    [ScenarioLoader.py] that the specification talks about, and the
    theorems that settle its claims.

    Conventions used throughout:
    - a Python exception is a [None] / [Raise] result, never a default value;
    - the shared memory counter is a C [int] ([multiprocessing.Value('i', _)]),
      stored with 32-bit wrap-around;
    - memory amounts in kB are Python numbers; they are only compared,
      floor-divided and truncated, so they are modelled by the rationals
      they denote;
    - the demand values of a leak pattern are numpy float64 numbers; they
      are modelled by real numbers, so what is proved about them is proved
      up to the rounding of float64 arithmetic;
    - where the code takes the ceiling of a float64 quotient (the number
      of points a pattern is resampled at), the quotient is rounded as
      float64 arithmetic rounds it;
    - measurement samples are values of an arbitrary type with the
      operations the loader applies to them. *)

From Stdlib Require Import ZArith QArith Qround Reals Lra Lia String Ascii List Bool.
From stdpp Require Import base option list strings gmap pretty.
From Stdlib Require Qpower.

(** ** Python numbers *)

Module Py.

(** [int(x)] on a float: truncation toward zero. *)
Definition int_of_float (x : Q) : Z := Z.quot (Qnum x) (Zpos (Qden x)).

(** [x < y] on numbers. *)
Definition ltb (x y : Q) : bool := negb (Qle_bool y x).

(** [x // y]: floor division, [ZeroDivisionError] when [y] is zero. *)
Definition floordiv (x y : Q) : option Z :=
  if Qeq_bool y 0 then None else Some (Qfloor (x / y)).

Lemma ltb_lt x y : ltb x y = true <-> (x < y)%Q.
Proof.
  unfold ltb. rewrite negb_true_iff. split.
  - intros H. apply Qnot_le_lt. intros Hle.
    apply Qle_bool_iff in Hle. congruence.
  - intros H. destruct (Qle_bool y x) eqn:E; [|reflexivity].
    apply Qle_bool_iff in E. exfalso. eapply Qlt_not_le; eauto.
Qed.

Lemma ltb_ge x y : ltb x y = false <-> (y <= x)%Q.
Proof.
  unfold ltb. rewrite negb_false_iff. apply Qle_bool_iff.
Qed.

Lemma int_of_float_nonneg x : (0 <= x)%Q -> (0 <= int_of_float x)%Z.
Proof.
  destruct x as [n d]. unfold Qle, int_of_float. simpl. intros H.
  apply Z.quot_pos; lia.
Qed.

Lemma int_of_float_mono x y :
  (0 <= x)%Q -> (x <= y)%Q -> (int_of_float x <= int_of_float y)%Z.
Proof.
  intros H0 Hxy.
  assert (Hy : (0 <= y)%Q) by (eapply Qle_trans; eauto).
  destruct x as [n d], y as [m e]. unfold Qle, int_of_float in *. simpl in *.
  rewrite !Z.quot_div_nonneg by lia.
  rewrite !Zdiv_Qdiv. apply Qfloor_resp_le.
  unfold Qle, Qdiv, Qmult, Qinv. simpl.
  destruct d, e; simpl; lia.
Qed.

End Py.

(** ** The shared memory budget ([Worker._reserve_memory],
       [Worker._unreserve_memory]) *)

Module MemoryBudget.

Local Open Scope Z_scope.

(** Storing into [multiprocessing.Value('i', _)]: ctypes keeps the low 32
    bits, read back as a signed integer. *)
Definition wrap32 (z : Z) : Z := (z + 2 ^ 31) mod 2 ^ 32 - 2 ^ 31.

Definition in_int32 (z : Z) : Prop := - 2 ^ 31 <= z < 2 ^ 31.

(** The predicate returned by [_reserve_memory available_memory memory],
    run on the current value of the counter; the result is the flag
    [reserved] and the counter afterwards. *)
Definition _reserve_memory (available_memory : Z) (memory : Q) : bool * Z :=
  let new_available_memory := available_memory - Py.int_of_float memory in
  if 0 <=? new_available_memory
  then (true, wrap32 new_available_memory)
  else (false, available_memory).

Definition _unreserve_memory (available_memory : Z) (memory : Q) : Z :=
  wrap32 (available_memory + Py.int_of_float memory).

(** The counter is created as [Value('i', int(available_memory))]. *)
Definition initial_counter (available_memory : Q) : Z :=
  wrap32 (Py.int_of_float available_memory).

(** *** Sequences of reservations and releases *)

Inductive op : Type :=
  | Reserve (memory : Q)
  | Release (memory : Q).

Definition amount (o : op) : Z :=
  match o with Reserve m | Release m => Py.int_of_float m end.

Record budget : Type := Budget {
  counter : Z;                (* available_memory.value *)
  outstanding : list Z        (* amounts reserved and not yet released *)
}.

(** Removes one occurrence of a reserved amount; [None] when there is no
    such reservation, that is when the release matches nothing. *)
Fixpoint take (a : Z) (l : list Z) : option (list Z) :=
  match l with
  | [] => None
  | b :: l' => if a =? b then Some l' else cons b <$> take a l'
  end.

Definition step (o : op) (s : budget) : option budget :=
  match o with
  | Reserve m =>
      let '(reserved, c) := _reserve_memory (counter s) m in
      Some (Budget c (if reserved then Py.int_of_float m :: outstanding s
                      else outstanding s))
  | Release m =>
      out ← take (Py.int_of_float m) (outstanding s);
      Some (Budget (_unreserve_memory (counter s) m) out)
  end.

Fixpoint run (ops : list op) (s : budget) : option budget :=
  match ops with
  | [] => Some s
  | o :: ops' => s' ← step o s; run ops' s'
  end.

Definition sum (l : list Z) : Z := foldr Z.add 0 l.

Definition nonneg_amounts (ops : list op) : bool :=
  forallb (fun o => 0 <=? amount o) ops.

Lemma wrap32_id z : in_int32 z -> wrap32 z = z.
Proof.
  unfold in_int32, wrap32. intros H.
  rewrite Z.mod_small; lia.
Qed.

Lemma take_sum a l l' : take a l = Some l' -> sum l = a + sum l'.
Proof.
  revert l'. induction l as [|b l IH]; intros l' H; simpl in *; [discriminate|].
  destruct (Z.eqb_spec a b) as [->|Hne].
  - injection H as <-. reflexivity.
  - destruct (take a l) as [r|] eqn:E; simpl in H; [|discriminate].
    injection H as <-. simpl. rewrite (IH r eq_refl). lia.
Qed.

Lemma take_Forall (P : Z -> Prop) a l l' :
  take a l = Some l' -> Forall P l -> Forall P l'.
Proof.
  revert l'. induction l as [|b l IH]; intros l' H HP; simpl in *; [discriminate|].
  inversion HP; subst.
  destruct (a =? b).
  - injection H as <-. assumption.
  - destruct (take a l) as [r|]; simpl in H; [|discriminate].
    injection H as <-. constructor; auto.
Qed.

(** The invariant of the budget started at [B]. *)
Definition budget_inv (B : Z) (s : budget) : Prop :=
  counter s + sum (outstanding s) = B /\
  0 <= counter s /\
  Forall (fun a => 0 <= a) (outstanding s).

Lemma sum_nonneg l : Forall (fun a => 0 <= a) l -> 0 <= sum l.
Proof. induction 1; simpl; lia. Qed.

Lemma step_inv B o s s' :
  0 <= B < 2 ^ 31 -> 0 <= amount o ->
  budget_inv B s -> step o s = Some s' -> budget_inv B s'.
Proof.
  intros HB Ha (Hsum & Hc & Hout) Hstep.
  pose proof (sum_nonneg _ Hout) as Hs.
  destruct o as [m|m]; simpl in *.
  - unfold _reserve_memory in Hstep.
    destruct (Z.leb_spec 0 (counter s - Py.int_of_float m)) as [Hok|Hno];
      injection Hstep as <-; unfold budget_inv; simpl.
    + rewrite wrap32_id by (unfold in_int32; lia).
      repeat split; [lia|lia|constructor; auto].
    + auto.
  - destruct (take (Py.int_of_float m) (outstanding s)) as [out|] eqn:E;
      simpl in Hstep; [|discriminate].
    injection Hstep as <-. unfold budget_inv, _unreserve_memory; simpl.
    pose proof (take_sum _ _ _ E) as Hts.
    pose proof (take_Forall _ _ _ _ E Hout) as Hout'.
    pose proof (sum_nonneg _ Hout') as Hs'.
    rewrite wrap32_id by (unfold in_int32; lia).
    repeat split; [lia|lia|assumption].
Qed.

Lemma run_inv B ops : forall s s',
  0 <= B < 2 ^ 31 -> nonneg_amounts ops = true ->
  budget_inv B s -> run ops s = Some s' -> budget_inv B s'.
Proof.
  induction ops as [|o ops IH]; intros s s' HB Hops Hinv Hrun; simpl in *.
  - injection Hrun as <-. assumption.
  - apply andb_prop in Hops as [Ho Hops]. apply Z.leb_le in Ho.
    destruct (step o s) as [s1|] eqn:E; simpl in Hrun; [|discriminate].
    apply (IH s1 s' HB Hops); [|assumption].
    apply (step_inv B o s s1); assumption.
Qed.

(** C2. A reservation of amount [a = int(memory)] against a counter [c]
    returns true exactly when [c - a >= 0], and then the counter becomes
    [c - a]; otherwise it returns false and the counter keeps its value.
    Hence, along every sequence of reservations and matching releases of
    non-negative amounts that starts from a budget [B] that fits the C int,
    the counter stays non-negative, the outstanding reservations sum to at
    most [B], and the two always add up to [B]. *)
Theorem reserve_release_budget_safe :
  forall (c : Z) (memory available_memory : Q) (ops : list op) (s : budget),
    in_int32 c ->
    0 <= Py.int_of_float memory ->
    0 <= Py.int_of_float available_memory < 2 ^ 31 ->
    nonneg_amounts ops = true ->
    run ops (Budget (initial_counter available_memory) []) = Some s ->
    let a := Py.int_of_float memory in
    let B := Py.int_of_float available_memory in
    (fst (_reserve_memory c memory) = true <-> 0 <= c - a) /\
    (fst (_reserve_memory c memory) = true ->
       snd (_reserve_memory c memory) = c - a) /\
    (fst (_reserve_memory c memory) = false ->
       snd (_reserve_memory c memory) = c) /\
    0 <= counter s /\
    sum (outstanding s) <= B /\
    counter s + sum (outstanding s) = B.
Proof.
  intros c memory available_memory ops s Hc Ha HB Hops Hrun a B.
  assert (Hres : (fst (_reserve_memory c memory) = true <-> 0 <= c - a) /\
    (fst (_reserve_memory c memory) = true ->
       snd (_reserve_memory c memory) = c - a) /\
    (fst (_reserve_memory c memory) = false ->
       snd (_reserve_memory c memory) = c)).
  { unfold _reserve_memory. fold a.
    destruct (Z.leb_spec 0 (c - a)) as [Hok|Hno]; simpl.
    - split; [tauto|]. split; [|discriminate].
      intros _. apply wrap32_id. unfold in_int32 in *. lia.
    - split; [split; [discriminate|lia]|]. split; [discriminate|reflexivity]. }
  destruct Hres as (H1 & H2 & H3).
  assert (Hinv : budget_inv B s).
  { apply (run_inv B ops (Budget (initial_counter available_memory) []) s);
      try assumption.
    unfold budget_inv, initial_counter; simpl. fold B.
    rewrite wrap32_id by (unfold in_int32; lia).
    repeat split; [lia|lia|constructor]. }
  destruct Hinv as (Hsum & Hcnt & Hout).
  pose proof (sum_nonneg _ Hout).
  repeat split; try assumption; try tauto; lia.
Qed.

(** A run at concrete values: budget 100 kB, jobs of 60.7, 50 and 40 kB. *)
Lemma reserve_release_budget_safe_witness :
  (fst (_reserve_memory 40 (607 # 10)) = true <-> 0 <= 40 - 60) /\
  (fst (_reserve_memory 40 (607 # 10)) = true ->
     snd (_reserve_memory 40 (607 # 10)) = 40 - 60) /\
  (fst (_reserve_memory 40 (607 # 10)) = false ->
     snd (_reserve_memory 40 (607 # 10)) = 40) /\
  0 <= counter (Budget 60 [40]) /\
  sum (outstanding (Budget 60 [40])) <= 100 /\
  counter (Budget 60 [40]) + sum (outstanding (Budget 60 [40])) = 100.
Proof.
  apply (reserve_release_budget_safe 40 (607 # 10) (100 # 1)
           [Reserve (607 # 10); Reserve (50 # 1); Reserve (40 # 1);
            Release (607 # 10)]
           (Budget 60 [40])).
  - unfold in_int32. lia.
  - vm_compute. discriminate.
  - vm_compute. split; [discriminate|reflexivity].
  - reflexivity.
  - reflexivity.
Defined.

End MemoryBudget.

(** ** Selection of scenarios and leak configurations
       ([ScenarioGenerator.is_selected]) *)

Module Selection.

(** [is_selected self scenario_name leak_config_name]; [selection] is
    [self.selection] ([None] when no [--selection] was given) and
    [leak_config_name] is [None] when the argument is left out. *)
Definition is_selected (selection : option (list string))
    (scenario_name : string) (leak_config_name : option string) : bool :=
  match selection with
  | None => true
  | Some sel =>
      match leak_config_name with
      | None =>
          existsb (fun s => String.prefix (scenario_name +:+ ".") s) sel
      | Some l =>
          bool_decide (scenario_name +:+ "." +:+ l ∈ sel)
          || bool_decide (scenario_name +:+ ".*" ∈ sel)
      end
  end.

(** Strings without a ['.']. *)
Fixpoint no_dot (s : string) : bool :=
  match s with
  | EmptyString => true
  | String c s' => negb (Ascii.eqb c ".") && no_dot s'
  end.

Lemma app_nil_l_str (s : string) : "" +:+ s = s.
Proof. reflexivity. Qed.

Lemma app_cons_str c (s t : string) : String c s +:+ t = String c (s +:+ t).
Proof. reflexivity. Qed.

Lemma app_assoc_str (a b c : string) : (a +:+ b) +:+ c = a +:+ b +:+ c.
Proof.
  induction a as [|x a IH]; [reflexivity|].
  rewrite !app_cons_str. f_equal. exact IH.
Qed.

Ltac str_norm :=
  repeat first
    [ rewrite app_nil_l_str in *
    | rewrite app_cons_str in * ].

Lemma no_dot_app_dot (a b : string) : no_dot (a +:+ "." +:+ b) = false.
Proof.
  induction a as [|c a IH]; str_norm; simpl; [reflexivity|].
  rewrite IH. apply andb_false_r.
Qed.

(** Splitting [a.x = b.y] at the first dot when [a] has none. *)
Lemma dotted_eq_inv (a x b y : string) :
  no_dot a = true ->
  a +:+ "." +:+ x = b +:+ "." +:+ y ->
  (a = b /\ x = y) \/ (exists b', b = a +:+ "." +:+ b' /\ x = b' +:+ "." +:+ y).
Proof.
  revert b. induction a as [|c a IH]; intros b Hnd Heq.
  - destruct b as [|d b]; str_norm.
    + left. split; [reflexivity|]. congruence.
    + right. exists b. injection Heq as <- ->. split; reflexivity.
  - simpl in Hnd. apply andb_prop in Hnd as [Hc Hnd].
    destruct b as [|d b]; str_norm.
    + injection Heq as -> _. discriminate.
    + injection Heq as <- Heq.
      destruct (IH b Hnd Heq) as [[-> ->]|(b' & -> & ->)].
      * left. split; reflexivity.
      * right. exists b'. split; reflexivity.
Qed.

Lemma prefix_app (p s : string) :
  String.prefix p s = true -> exists r, s = p +:+ r.
Proof.
  revert s. induction p as [|c p IH]; intros s H.
  - exists s. reflexivity.
  - destruct s as [|d s]; cbn in H; [discriminate|].
    destruct (ascii_dec c d) as [->|]; [|discriminate].
    destruct (IH s H) as [r ->]. exists r. reflexivity.
Qed.

Lemma prefix_app_true (p r : string) : String.prefix p (p +:+ r) = true.
Proof.
  induction p as [|c p IH]; str_norm; cbn.
  - destruct r; reflexivity.
  - destruct (ascii_dec c c); [assumption|congruence].
Qed.

Lemma no_dot_not_prefixed (s x : string) :
  no_dot x = true -> String.prefix (s +:+ ".") x = false.
Proof.
  intros Hx. destruct (String.prefix (s +:+ ".") x) eqn:E; [|reflexivity].
  apply prefix_app in E as [r ->].
  rewrite app_assoc_str, no_dot_app_dot in Hx. discriminate.
Qed.

Lemma no_dot_not_dotted (s l x : string) :
  no_dot x = true -> s +:+ "." +:+ l <> x.
Proof. intros Hx <-. rewrite no_dot_app_dot in Hx. discriminate. Qed.

Lemma prefix_dotted (s l : string) :
  String.prefix (s +:+ ".") (s +:+ "." +:+ l) = true.
Proof. rewrite <- (app_assoc_str s "." l). apply prefix_app_true. Qed.

(** A pair that is selected belongs to a scenario that is selected. *)
Lemma is_selected_scenario sel s l :
  is_selected sel s (Some l) = true -> is_selected sel s None = true.
Proof.
  destruct sel as [sel|]; [|reflexivity]. unfold is_selected. intros H.
  apply orb_prop in H. apply existsb_exists.
  destruct H as [H|H]; apply bool_decide_eq_true in H.
  - exists (s +:+ "." +:+ l). split; [now apply list_elem_of_In|].
    apply prefix_dotted.
  - exists (s +:+ ".*"). split; [now apply list_elem_of_In|].
    apply (prefix_dotted s "*").
Qed.

(** Strings none of which has a dot select nothing at all. *)
Lemma dotless_selects_nothing (sel : list string) s l :
  Forall (fun x => no_dot x = true) sel -> is_selected (Some sel) s l = false.
Proof.
  intros Hsel. destruct l as [l|]; simpl.
  - apply orb_false_iff. split; apply bool_decide_eq_false; intros Hin.
    + rewrite Forall_forall in Hsel. apply Hsel in Hin.
      now apply (no_dot_not_dotted s l _ Hin).
    + rewrite Forall_forall in Hsel. apply Hsel in Hin.
      now apply (no_dot_not_dotted s "*" _ Hin).
  - induction Hsel as [|x sel Hx _ IH]; simpl; [reflexivity|].
    rewrite IH, (no_dot_not_prefixed s x Hx). reflexivity.
Qed.

Lemma not_star_dotted (b l : string) : "*" <> b +:+ "." +:+ l.
Proof.
  destruct b as [|c b]; str_norm; [discriminate|].
  intros H. injection H as _ H. destruct b; str_norm; discriminate.
Qed.

(** C4. Without a selection list everything is selected.  With a list, the
    pair (scenario [s], leak config [l]) is selected exactly when the list
    holds the string [s.l] or the string [s.*].  For names [a] and [l1]
    without dots ([l1] not the wildcard itself), the list [[a.*]] selects
    all leak configs of [a] and none of any other scenario, and the list
    [[a.l1]] selects the leak config [l1] of [a] and nothing else. *)
Theorem selection_matching :
  forall (a l1 : string) (sel : list string) (s l : string),
    no_dot a = true -> no_dot l1 = true -> l1 <> "*" ->
    (forall lo, is_selected None s lo = true) /\
    (is_selected (Some sel) s (Some l) = true <->
       s +:+ "." +:+ l ∈ sel \/ s +:+ ".*" ∈ sel) /\
    (is_selected (Some [a +:+ ".*"]) s (Some l) = true <-> s = a) /\
    (is_selected (Some [a +:+ "." +:+ l1]) s (Some l) = true <->
       s = a /\ l = l1).
Proof.
  intros a l1 sel s l Ha Hl1 Hstar.
  assert (Hgen : forall sel', is_selected (Some sel') s (Some l) = true <->
            s +:+ "." +:+ l ∈ sel' \/ s +:+ ".*" ∈ sel').
  { intros sel'. unfold is_selected.
    rewrite orb_true_iff, !bool_decide_eq_true. reflexivity. }
  split; [reflexivity|]. split; [apply Hgen|]. split.
  - rewrite Hgen, !list_elem_of_singleton. split.
    + intros [H|H]; symmetry in H;
        apply (dotted_eq_inv a "*" s _ Ha) in H;
        destruct H as [[-> _]|(b' & _ & H)]; try reflexivity;
        now apply not_star_dotted in H.
    + intros ->. right. reflexivity.
  - rewrite Hgen, !list_elem_of_singleton. split.
    + intros [H|H]; symmetry in H;
        apply (dotted_eq_inv a l1 s _ Ha) in H;
        destruct H as [[-> H]|(b' & _ & H)].
      * split; congruence.
      * rewrite H, no_dot_app_dot in Hl1. discriminate.
      * contradiction.
      * rewrite H, no_dot_app_dot in Hl1. discriminate.
    + intros [-> ->]. left. reflexivity.
Qed.

(** The lists ["A.*"] and ["A.L1"], asked about leak config "L7" of
    scenario "B" next to a longer list. *)
Lemma selection_matching_witness :
  (forall lo, is_selected None "B" lo = true) /\
  (is_selected (Some ["A.L1"; "B.*"]) "B" (Some "L7") = true <->
     "B" +:+ "." +:+ "L7" ∈ ["A.L1"; "B.*"] \/ "B" +:+ ".*" ∈ ["A.L1"; "B.*"]) /\
  (is_selected (Some ["A" +:+ ".*"]) "B" (Some "L7") = true <-> "B" = "A") /\
  (is_selected (Some ["A" +:+ "." +:+ "L1"]) "B" (Some "L7") = true <->
     "B" = "A" /\ "L7" = "L1").
Proof.
  apply (selection_matching "A" "L1" ["A.L1"; "B.*"] "B" "L7").
  - reflexivity.
  - reflexivity.
  - discriminate.
Defined.

End Selection.

(** ** The configuration tree

    The configuration is validated against the XML schema when it is read
    ([read_config]), so the elements are held with their attributes parsed.
    Optional attributes ([peak], [nodeId], [pipeId], [faultParam]) are
    options: [None] is "the key is not in the dictionary". *)

Module Config.

(** A [<Leak>] element, the dictionary [leak_info]. *)
Record LeakInfo : Type := {
  leak_type : string;
  diameter : Q;
  start : Z;
  end_ : Z;
  peak : option Z;
  nodeId : option string;
  pipeId : option string
}.

Record LeakConfig : Type := {
  leak_config_name : string;
  leak_infos : list LeakInfo
}.

Inductive SensorKind : Type := PressureSensors | FlowSensors | DemandSensors.

Record SensorConfig : Type := {
  sensor_config_name : string;
  sensor_collections : list (SensorKind * list string)
}.

Record SensorfaultConfig : Type := {
  sensorfault_config_name : string
}.

Inductive ConfigCollection : Type :=
  | SensorConfigs (configs : list SensorConfig)
  | SensorfaultConfigs (configs : list SensorfaultConfig)
  | LeakConfigs (configs : list LeakConfig).

(** [scenario.attrib] *)
Record ScenarioConfig : Type := {
  name : string;
  network : string;
  iterations : Z;
  timeStep : Z
}.

Record Scenario : Type := {
  attrib : ScenarioConfig;
  children : list ConfigCollection
}.

Record SensorMask : Type := {
  pressure : gset string;
  flow : gset string;
  demand : gset string
}.

#[export] Instance SensorMask_inhabited : Inhabited SensorMask :=
  populate {| pressure := ∅; flow := ∅; demand := ∅ |}.

Definition path : Type := list string.

Record SimulationJob : Type := {
  scenario_config : ScenarioConfig;
  leaks : list LeakInfo;
  job_leak_config_name : string;
  sensor_mask : SensorMask;
  results_path : path;
  memory_estimate : Q;
  dtype : string
}.

End Config.

(** ** The file system, as far as the generator looks at it

    Scenario and configuration names are single path components, so a path
    is the list of its components below the root and [os.path.join p n] is
    [p ++ [n]].  The generator only asks whether a path exists. *)

Module FileSystem.
Import Config.

Definition FS : Type := path -> bool.

(** [under p q]: [q] is [p] or lies below it. *)
Fixpoint under (p q : path) : bool :=
  match p, q with
  | [], _ => true
  | _ :: _, [] => false
  | x :: p', y :: q' => bool_decide (x = y) && under p' q'
  end.

(** [shutil.rmtree(p, ignore_errors=True)] *)
Definition rmtree (p : path) (fs : FS) : FS :=
  fun q => fs q && negb (under p q).

(** [os.makedirs(p)] *)
Definition makedirs (p : path) (fs : FS) : FS :=
  fun q => fs q || under q p.

(** Writing the file [p] in an existing directory. *)
Definition write_file (p : path) (fs : FS) : FS :=
  fun q => fs q || bool_decide (q = p).

(** A file system holding exactly the listed paths. *)
Definition fs_of_list (l : list path) : FS := fun q => bool_decide (q ∈ l).

Lemma under_app p r : under p (p ++ r) = true.
Proof.
  induction p as [|x p IH]; simpl; [reflexivity|].
  rewrite bool_decide_eq_true_2 by reflexivity. exact IH.
Qed.

Lemma under_refl p : under p p = true.
Proof.
  induction p as [|x p IH]; simpl; [reflexivity|].
  rewrite bool_decide_eq_true_2 by reflexivity. exact IH.
Qed.

Lemma under_inv p q : under p q = true -> exists r, q = p ++ r.
Proof.
  revert q. induction p as [|x p IH]; intros q H; simpl in *.
  - exists q. reflexivity.
  - destruct q as [|y q]; [discriminate|].
    apply andb_prop in H as [Hxy H]. apply bool_decide_eq_true in Hxy as ->.
    destruct (IH q H) as [r ->]. exists r. reflexivity.
Qed.

Lemma under_trans p q r : under p q = true -> under q r = true -> under p r = true.
Proof.
  intros H1 H2. apply under_inv in H1 as [a ->]. apply under_inv in H2 as [b ->].
  rewrite <- app_assoc. apply under_app.
Qed.

Lemma under_length p q : under p q = true -> (length p <= length q)%nat.
Proof. intros H. apply under_inv in H as [r ->]. rewrite length_app. lia. Qed.

(** Two paths above the same path are comparable: what lies under both
    [c ++ a] and [c ++ b] makes [a] and [b] agree on their common length. *)
Lemma under_both_head c x a y b q :
  under (c ++ x :: a) q = true -> under (c ++ y :: b) q = true -> x = y.
Proof.
  intros H1 H2. apply under_inv in H1 as [r1 ->]. apply under_inv in H2 as [r2 H].
  rewrite <- !app_assoc in H. apply app_inv_head in H.
  simpl in H. congruence.
Qed.

End FileSystem.

(** ** Job list creation ([ScenarioGenerator.create_sensor_masks],
       [create_job_list_and_write_configs] and the writers it calls) *)

Module Generator.
Import Config FileSystem Selection.

(** What a call leaves behind: the state when it returns, or the state at
    the moment an exception leaves it. *)
Inductive outcome (A : Type) : Type :=
  | Returns (a : A)
  | Raises (a : A).
Arguments Returns {A} a.
Arguments Raises {A} a.

Definition state_of {A : Type} (o : outcome A) : A :=
  match o with Returns a | Raises a => a end.

(** The fields of [self] that job creation reads. *)
Record ScenarioGenerator : Type := {
  base_path : string;
  collection_path : path;
  force_regenerate : bool;
  selection : option (list string);
  n_threads : Z;
  available_memory : Q;
  gen_dtype : string;
  scenarios : list Scenario
}.

(** *** Sensor masks *)

Definition add_sensors (m : SensorMask) (c : SensorKind * list string) : SensorMask :=
  match fst c with
  | PressureSensors =>
      {| pressure := pressure m ∪ list_to_set (snd c); flow := flow m; demand := demand m |}
  | FlowSensors =>
      {| pressure := pressure m; flow := flow m ∪ list_to_set (snd c); demand := demand m |}
  | DemandSensors =>
      {| pressure := pressure m; flow := flow m; demand := demand m ∪ list_to_set (snd c) |}
  end.

Definition mask_of_collection (m : SensorMask) (cc : ConfigCollection) : SensorMask :=
  match cc with
  | SensorConfigs configs =>
      foldl (fun m sc => foldl add_sensors m (sensor_collections sc)) m configs
  | _ => m
  end.

Definition create_sensor_masks (scs : list Scenario) : gmap string SensorMask :=
  foldl (fun masks sc =>
           <[name (attrib sc) := foldl mask_of_collection inhabitant (children sc)]> masks)
        ∅ scs.

(** *** Writers *)

(** [write_xml_warn_if_changed]: the file is written; the warning it may
    print compares the old and the new content and changes nothing. *)
Definition write_xml_warn_if_changed (file_path : path) (fs : FS) : FS :=
  write_file file_path fs.

(** [write_config]: the directory is made when it is missing, then the
    file [<name>.xml] is written into it. *)
Definition write_config (config_name : string) (p : path) (fs : FS) : FS :=
  let fs := if fs p then fs else makedirs p fs in
  write_xml_warn_if_changed (p ++ [config_name +:+ ".xml"]) fs.

Definition write_config_collection (names : list string) (p : path) (fs : FS) : FS :=
  foldl (fun fs n => write_config n p fs) fs names.

Definition write_topology (p : path) (fs : FS) : FS :=
  let fs := if fs p then fs else makedirs p fs in
  write_xml_warn_if_changed (p ++ ["topology.xml"]) fs.

(** *** Paths *)

(** [os.path.isabs] and [os.path.join] on the network file name, which is
    handed on to the simulator as a string. *)
Definition isabs (s : string) : bool := String.prefix "/" s.

Fixpoint ends_with_slash (s : string) : bool :=
  match s with
  | EmptyString => false
  | String c EmptyString => Ascii.eqb c "/"
  | String _ s' => ends_with_slash s'
  end.

Definition join_name (a b : string) : string :=
  if isabs b then b
  else if String.eqb a "" || ends_with_slash a then a +:+ b
  else a +:+ "/" +:+ b.

Definition scenario_path_of (cp : path) (scenario_name : string) : path :=
  cp ++ [scenario_name].

Definition measurements_path_of (cp : path) (scenario_name leak_config_name : string) : path :=
  scenario_path_of cp scenario_name ++ ["measurements"; leak_config_name].

(** *** The loop *)

Record GenState : Type := {
  fs : FS;
  job_list : list SimulationJob;
  lowest_estimated_memory : Q
}.

Definition with_fs (f : FS -> FS) (st : GenState) : GenState :=
  {| fs := f (fs st); job_list := job_list st;
     lowest_estimated_memory := lowest_estimated_memory st |}.

Section Create.

(** The simulator library: loading a network file ([None] when
    [wntr.network.WaterNetworkModel] raises), and the sizes that the
    memory estimate reads. *)
Variable WaterNetworkModel : Type.
Variable load_network : string -> option WaterNetworkModel.
Variable n_nodes n_links : WaterNetworkModel -> Z.
Variable getsize : string -> Z.

Variable self : ScenarioGenerator.
Variable sensor_masks : gmap string SensorMask.

(** [estimate_wn_memory]; the value is the exact one, the rounding of the
    float products is not modelled. *)
Definition estimate_wn_memory (wn : WaterNetworkModel) (scenario : ScenarioConfig) : Q :=
  let filesize := (getsize (network scenario) / 1000)%Z in
  let parts := (n_nodes wn + n_links wn)%Z in
  ((15 # 100) * inject_Z (iterations scenario) * inject_Z parts
   + inject_Z (40 * parts) + inject_Z filesize)%Q.

(** One pass of [for leak_config in config_collection]. *)
Definition leak_config_body (scenario : ScenarioConfig) (estimated_memory : Q)
    (st : GenState) (leak_config : LeakConfig) : GenState :=
  let scenario_name := name scenario in
  let scenario_path := scenario_path_of (collection_path self) scenario_name in
  let leak_config_name := leak_config_name leak_config in
  let measurements_path := scenario_path ++ ["measurements"; leak_config_name] in
  let leak_config_path := scenario_path ++ ["leaks"] in
  let st :=
    if force_regenerate self
       && is_selected (selection self) scenario_name (Some leak_config_name)
    then with_fs (rmtree measurements_path) st else st in
  if negb (is_selected (selection self) scenario_name (Some leak_config_name))
  then st
  else if fs st measurements_path then st
  else
    let st := with_fs (write_config leak_config_name leak_config_path) st in
    {| fs := fs st;
       job_list := job_list st ++
         [{| scenario_config := scenario;
             leaks := leak_infos leak_config;
             job_leak_config_name := leak_config_name;
             sensor_mask := sensor_masks !!! scenario_name;
             results_path := measurements_path;
             memory_estimate := estimated_memory;
             dtype := gen_dtype self |}];
       lowest_estimated_memory := lowest_estimated_memory st |}.

(** One pass of [for config_collection in scenario]. *)
Definition collection_body (scenario : ScenarioConfig) (estimated_memory : Q)
    (st : GenState) (cc : ConfigCollection) : GenState :=
  let scenario_path := scenario_path_of (collection_path self) (name scenario) in
  match cc with
  | SensorConfigs configs =>
      with_fs (write_config_collection (map sensor_config_name configs)
                 (scenario_path ++ ["sensors"])) st
  | SensorfaultConfigs configs =>
      with_fs (write_config_collection (map sensorfault_config_name configs)
                 (scenario_path ++ ["sensorfaults"])) st
  | LeakConfigs configs =>
      foldl (leak_config_body scenario estimated_memory) st configs
  end.

(** [scenario.attrib] once [scenario.attrib['network']] has been made
    absolute. *)
Definition absolute_attrib (scenario : Scenario) : ScenarioConfig :=
  let network_path := network (attrib scenario) in
  {| name := name (attrib scenario);
     network := if isabs network_path then network_path
                else join_name (base_path self) network_path;
     iterations := iterations (attrib scenario);
     timeStep := timeStep (attrib scenario) |}.

(** Keeping track of the lowest estimate. *)
Definition note_estimate (estimated_memory : Q) (st : GenState) : GenState :=
  {| fs := fs st; job_list := job_list st;
     lowest_estimated_memory :=
       if Py.ltb estimated_memory (lowest_estimated_memory st)
       then estimated_memory else lowest_estimated_memory st |}.

(** One pass of [for scenario in self.scenarios]. *)
Definition scenario_body (st : GenState) (scenario : Scenario) : outcome GenState :=
  let scenario_name := name (attrib scenario) in
  let scenario_attrib := absolute_attrib scenario in
  let scenario_path := scenario_path_of (collection_path self) scenario_name in
  let st :=
    if force_regenerate self && is_selected (selection self) scenario_name (Some "*")
    then with_fs (rmtree scenario_path) st else st in
  if negb (is_selected (selection self) scenario_name None) then Returns st
  else
    match load_network (network scenario_attrib) with
    | None => Raises st
    | Some wn =>
        let st := with_fs (write_topology scenario_path) st in
        let estimated_memory := estimate_wn_memory wn scenario_attrib in
        let st := note_estimate estimated_memory st in
        if Py.ltb (available_memory self) estimated_memory then Returns st
        else Returns (foldl (collection_body scenario_attrib estimated_memory)
                            st (children scenario))
    end.

Fixpoint scenarios_loop (scs : list Scenario) (st : GenState) : outcome GenState :=
  match scs with
  | [] => Returns st
  | scenario :: rest =>
      match scenario_body st scenario with
      | Returns st' => scenarios_loop rest st'
      | Raises st' => Raises st'
      end
  end.

(** [create_job_list_and_write_configs], started on the file system [fs0];
    the result is the state of the loop and the new [self.n_threads]. *)
Definition create_job_list_and_write_configs (fs0 : FS) : outcome (GenState * Z) :=
  let st0 := {| fs := fs0; job_list := [];
                lowest_estimated_memory := inject_Z (10 ^ 12) |} in
  match scenarios_loop (scenarios self) st0 with
  | Raises st => Raises (st, n_threads self)
  | Returns st =>
      match Py.floordiv (available_memory self) (lowest_estimated_memory st) with
      | None => Raises (st, n_threads self)
      | Some practical_n_threads =>
          Returns (st, if (practical_n_threads <? n_threads self)%Z
                       then practical_n_threads else n_threads self)
      end
  end.

(** *** How the file system moves during job creation *)

Let cp := collection_path self.
Let sel := selection self.

Definition measurements_dir (scenario_name : string) : path :=
  cp ++ [scenario_name; "measurements"].

(** [evolves fs fs']: from [fs] to [fs'] nothing appeared below a
    [measurements] directory, nothing disappeared below the measurements
    of a pair that is not selected, and nothing disappeared at all unless
    regeneration is forced. *)
Definition evolves (fs fs' : FS) : Prop :=
  (forall S q, under (measurements_dir S) q = true -> fs' q = true -> fs q = true) /\
  (forall S L q, is_selected sel S (Some L) = false ->
     under (measurements_path_of cp S L) q = true -> fs q = true -> fs' q = true) /\
  (force_regenerate self = false -> forall q, fs q = true -> fs' q = true).

Lemma evolves_refl fs : evolves fs fs.
Proof. unfold evolves. auto. Qed.

Lemma evolves_trans fs1 fs2 fs3 : evolves fs1 fs2 -> evolves fs2 fs3 -> evolves fs1 fs3.
Proof.
  intros (A1 & B1 & C1) (A2 & B2 & C2). unfold evolves. repeat split.
  - intros S q Hu H. apply (A1 S q Hu). apply (A2 S q Hu H).
  - intros S L q Hs Hu H. apply (B2 S L q Hs Hu). apply (B1 S L q Hs Hu H).
  - intros Hf q H. apply (C2 Hf). apply (C1 Hf q H).
Qed.

Lemma under_measurements_inv S q :
  under (measurements_dir S) q = true ->
  exists r, q = cp ++ S :: "measurements" :: r.
Proof.
  intros H. apply under_inv in H as [r ->]. exists r.
  unfold measurements_dir. rewrite <- app_assoc. reflexivity.
Qed.

Lemma measurements_path_under_dir S L q :
  under (measurements_path_of cp S L) q = true -> under (measurements_dir S) q = true.
Proof.
  apply under_trans. unfold measurements_path_of, scenario_path_of, measurements_dir.
  rewrite <- app_assoc. simpl.
  change (cp ++ [S; "measurements"; L]) with (cp ++ [S; "measurements"] ++ [L]).
  rewrite app_assoc. apply under_app.
Qed.

(** A step that only adds paths, none of them below a measurements
    directory. *)
Lemma grows_evolves (fs fs' : FS) :
  (forall q, fs q = true -> fs' q = true) ->
  (forall S r, fs' (cp ++ S :: "measurements" :: r) = true ->
               fs (cp ++ S :: "measurements" :: r) = true) ->
  evolves fs fs'.
Proof.
  intros Hg Hm. unfold evolves. repeat split.
  - intros S q Hu H. apply under_measurements_inv in Hu as [r ->]. now apply Hm.
  - intros S L q _ _. apply Hg.
  - intros _. apply Hg.
Qed.

(** Making [cp/S/x] or [cp/S] never makes a path inside [measurements]. *)
Lemma makedirs_outside S' (tail : list string) S r (fs : FS) :
  (tail = [] \/ exists x, tail = [x] /\ x <> "measurements") ->
  makedirs (cp ++ S' :: tail) fs (cp ++ S :: "measurements" :: r) = true ->
  fs (cp ++ S :: "measurements" :: r) = true.
Proof.
  intros Htail H. unfold makedirs in H. apply orb_prop in H as [H|H]; [assumption|].
  apply under_inv in H as [r' H]. rewrite <- app_assoc in H.
  apply app_inv_head in H. simpl in H.
  destruct Htail as [->|(x & -> & Hx)]; [discriminate|].
  injection H as _ H _. congruence.
Qed.

Lemma write_file_outside S' x f S r (fs : FS) :
  x <> "measurements" ->
  write_file ((cp ++ [S'; x]) ++ [f]) fs (cp ++ S :: "measurements" :: r) = true ->
  fs (cp ++ S :: "measurements" :: r) = true.
Proof.
  intros Hx H. unfold write_file in H. apply orb_prop in H as [H|H]; [assumption|].
  apply bool_decide_eq_true in H. rewrite <- app_assoc in H.
  apply app_inv_head in H. simpl in H. injection H as _ H _. congruence.
Qed.

Lemma write_config_evolves n S' x (fs : FS) :
  x <> "measurements" -> evolves fs (write_config n (cp ++ [S'; x]) fs).
Proof.
  intros Hx. apply grows_evolves.
  - intros q H. unfold write_config, write_xml_warn_if_changed, write_file.
    destruct (fs (cp ++ [S'; x])); unfold makedirs; rewrite H; reflexivity.
  - intros S r H. unfold write_config, write_xml_warn_if_changed in H.
    apply write_file_outside in H; [|assumption].
    destruct (fs (cp ++ [S'; x])); [assumption|].
    apply (makedirs_outside S' [x]) in H; [assumption|]. right. eauto.
Qed.

Lemma write_config_collection_evolves ns S' x (fs : FS) :
  x <> "measurements" -> evolves fs (write_config_collection ns (cp ++ [S'; x]) fs).
Proof.
  intros Hx. unfold write_config_collection. revert fs.
  induction ns as [|n ns IH]; intros fs; simpl; [apply evolves_refl|].
  eapply evolves_trans; [|apply IH]. now apply write_config_evolves.
Qed.

Lemma write_topology_evolves S' (fs : FS) :
  evolves fs (write_topology (cp ++ [S']) fs).
Proof.
  apply grows_evolves.
  - intros q H. unfold write_topology, write_xml_warn_if_changed, write_file.
    destruct (fs (cp ++ [S'])); unfold makedirs; rewrite H; reflexivity.
  - intros S r H. unfold write_topology, write_xml_warn_if_changed, write_file in H.
    apply orb_prop in H as [H|H].
    + destruct (fs (cp ++ [S'])); [assumption|].
      apply (makedirs_outside S' []) in H; [assumption|]. now left.
    + apply bool_decide_eq_true in H. rewrite <- app_assoc in H.
      apply app_inv_head in H. simpl in H. discriminate.
Qed.

Lemma is_selected_wildcard S L :
  is_selected sel S (Some "*") = true -> is_selected sel S (Some L) = true.
Proof.
  unfold is_selected. destruct sel as [l|]; [|reflexivity].
  intros H. apply orb_prop in H. apply orb_true_iff. right.
  destruct H as [H|H]; exact H.
Qed.

Lemma rmtree_scenario_evolves S' (fs : FS) :
  force_regenerate self = true ->
  is_selected sel S' (Some "*") = true ->
  evolves fs (rmtree (cp ++ [S']) fs).
Proof.
  intros Hf Hs. unfold evolves, rmtree. repeat split.
  - intros S q _ H. apply andb_prop in H. tauto.
  - intros S L q Hn Hu H. rewrite H. simpl. apply negb_true_iff.
    destruct (under (cp ++ [S']) q) eqn:E; [|reflexivity]. exfalso.
    unfold measurements_path_of, scenario_path_of in Hu.
    rewrite <- app_assoc in Hu. simpl in Hu.
    pose proof (under_both_head cp S' [] S _ q E Hu) as ->.
    rewrite (is_selected_wildcard S L Hs) in Hn. discriminate.
  - congruence.
Qed.

Lemma rmtree_measurements_evolves S' L' (fs : FS) :
  force_regenerate self = true ->
  is_selected sel S' (Some L') = true ->
  evolves fs (rmtree (measurements_path_of cp S' L') fs).
Proof.
  intros Hf Hs. unfold evolves, rmtree. repeat split.
  - intros S q _ H. apply andb_prop in H. tauto.
  - intros S L q Hn Hu H. rewrite H. simpl. apply negb_true_iff.
    destruct (under (measurements_path_of cp S' L') q) eqn:E; [|reflexivity].
    exfalso. unfold measurements_path_of, scenario_path_of in *.
    rewrite <- app_assoc in Hu, E. simpl in Hu, E.
    pose proof (under_both_head cp S' _ S _ q E Hu) as ->.
    change (cp ++ [S; "measurements"; L']) with (cp ++ [S; "measurements"] ++ [L']) in E.
    change (cp ++ [S; "measurements"; L]) with (cp ++ [S; "measurements"] ++ [L]) in Hu.
    rewrite app_assoc in E, Hu.
    pose proof (under_both_head _ L' [] L [] q E Hu) as ->.
    congruence.
  - congruence.
Qed.

(** *** What one stretch of the loop adds to the state *)

(** [made Src st st']: between [st] and [st'] the file system evolved, the
    lowest estimate did not grow, and every job appended comes from a
    selected pair allowed by [Src], has a results path that was absent
    (when nothing is forced), and an estimate within the available memory
    and not below the lowest estimate. *)
Definition made (Src : string -> LeakConfig -> Prop) (st st' : GenState) : Prop :=
  evolves (fs st) (fs st') /\
  (lowest_estimated_memory st' <= lowest_estimated_memory st)%Q /\
  exists new, job_list st' = job_list st ++ new /\
    forall j, j ∈ new ->
      (exists S lc, Src S lc /\
         name (scenario_config j) = S /\
         job_leak_config_name j = leak_config_name lc /\
         leaks j = leak_infos lc /\
         results_path j = measurements_path_of cp S (leak_config_name lc) /\
         is_selected sel S (Some (leak_config_name lc)) = true) /\
      (force_regenerate self = false -> fs st (results_path j) = false) /\
      Py.ltb (available_memory self) (memory_estimate j) = false /\
      (lowest_estimated_memory st' <= memory_estimate j)%Q.

Lemma made_refl Src st : made Src st st.
Proof.
  unfold made. split; [apply evolves_refl|]. split; [apply Qle_refl|].
  exists []. split; [now rewrite app_nil_r|]. intros j Hj. inversion Hj.
Qed.

Lemma made_trans Src st1 st2 st3 :
  made Src st1 st2 -> made Src st2 st3 -> made Src st1 st3.
Proof.
  intros (E1 & L1 & n1 & J1 & H1) (E2 & L2 & n2 & J2 & H2).
  split; [eapply evolves_trans; eauto|].
  split; [eapply Qle_trans; eauto|].
  exists (n1 ++ n2). split; [rewrite J2, J1, app_assoc; reflexivity|].
  intros j Hj. apply elem_of_app in Hj as [Hj|Hj].
  - destruct (H1 j Hj) as (A & B & C & D).
    split; [exact A|]. split; [exact B|]. split; [exact C|].
    eapply Qle_trans; eauto.
  - destruct (H2 j Hj) as (A & B & C & D).
    split; [exact A|]. split; [|split; [exact C|exact D]].
    intros Hf. specialize (B Hf).
    destruct (fs st1 (results_path j)) eqn:E; [|reflexivity].
    destruct E1 as (_ & _ & Hkeep). rewrite (Hkeep Hf _ E) in B. discriminate.
Qed.

Lemma made_weaken (Src Src' : string -> LeakConfig -> Prop) st st' :
  (forall S lc, Src S lc -> Src' S lc) -> made Src st st' -> made Src' st st'.
Proof.
  intros Hw (E & L & new & J & H). split; [assumption|]. split; [assumption|].
  exists new. split; [assumption|]. intros j Hj.
  destruct (H j Hj) as ((S & lc & A1 & A2) & B & C & D).
  split; [exists S, lc; auto|]. auto.
Qed.

(** A step that changes the file system only. *)
Lemma made_with_fs Src f st :
  evolves (fs st) (f (fs st)) -> made Src st (with_fs f st).
Proof.
  intros E. split; [exact E|]. split; [apply Qle_refl|].
  exists []. split; [simpl; now rewrite app_nil_r|]. intros j Hj. inversion Hj.
Qed.

Lemma scenario_sub_path S x :
  scenario_path_of cp S ++ [x] = cp ++ [S; x].
Proof. unfold scenario_path_of. now rewrite <- app_assoc. Qed.

Lemma leak_config_body_made scenario est st lc :
  Py.ltb (available_memory self) est = false ->
  (lowest_estimated_memory st <= est)%Q ->
  made (fun S lc' => S = name scenario /\ lc' = lc) st
       (leak_config_body scenario est st lc).
Proof.
  intros Hest Hlow. unfold leak_config_body.
  set (S := name scenario). set (L := leak_config_name lc).
  fold cp. fold sel.
  change (scenario_path_of cp S ++ ["measurements"; L])
    with (measurements_path_of cp S L).
  set (st1 := if force_regenerate self && is_selected sel S (Some L)
              then with_fs (rmtree (measurements_path_of cp S L)) st else st).
  assert (M1 : made (fun S' lc' => S' = S /\ lc' = lc) st st1).
  { subst st1. destruct (force_regenerate self) eqn:Hf; simpl; [|apply made_refl].
    destruct (is_selected sel S (Some L)) eqn:Hs; [|apply made_refl].
    apply made_with_fs. now apply rmtree_measurements_evolves. }
  destruct (is_selected sel S (Some L)) eqn:Hs; simpl; [|exact M1].
  destruct (fs st1 (measurements_path_of cp S L)) eqn:Hex; [exact M1|].
  eapply made_trans; [exact M1|].
  rewrite scenario_sub_path.
  split; [simpl; apply write_config_evolves; discriminate|].
  split; [simpl; apply Qle_refl|].
  eexists. split; [reflexivity|].
  intros j Hj. apply list_elem_of_singleton in Hj as ->. simpl.
  split; [exists S, lc; repeat split; auto|].
  split; [intros _; exact Hex|].
  split; [exact Hest|].
  destruct M1 as (_ & Hl & _). eapply Qle_trans; eauto.
Qed.

Lemma leak_configs_made scenario est cs : forall st,
  Py.ltb (available_memory self) est = false ->
  (lowest_estimated_memory st <= est)%Q ->
  made (fun S lc => S = name scenario /\ lc ∈ cs) st
       (foldl (leak_config_body scenario est) st cs).
Proof.
  induction cs as [|lc cs IH]; intros st Hest Hlow; simpl; [apply made_refl|].
  pose proof (leak_config_body_made scenario est st lc Hest Hlow) as M.
  eapply made_trans.
  - eapply made_weaken; [|exact M]. intros S lc' [-> ->]. split; [reflexivity|].
    apply list_elem_of_here.
  - eapply made_weaken; [|apply IH; [assumption|]].
    + intros S lc' [-> Hin]. split; [reflexivity|]. now apply list_elem_of_further.
    + destruct M as (_ & Hl & _). eapply Qle_trans; eauto.
Qed.

Lemma collection_body_made scenario est st cc :
  Py.ltb (available_memory self) est = false ->
  (lowest_estimated_memory st <= est)%Q ->
  made (fun S lc => S = name scenario /\ exists cs, cc = LeakConfigs cs /\ lc ∈ cs)
       st (collection_body scenario est st cc).
Proof.
  intros Hest Hlow. destruct cc as [cs|cs|cs]; simpl.
  - rewrite scenario_sub_path. apply made_with_fs. fold cp.
    apply write_config_collection_evolves. discriminate.
  - rewrite scenario_sub_path. apply made_with_fs. fold cp.
    apply write_config_collection_evolves. discriminate.
  - eapply made_weaken; [|now apply leak_configs_made].
    intros S lc [-> Hin]. split; [reflexivity|]. eauto.
Qed.

Lemma collections_made scenario est ccs : forall st,
  Py.ltb (available_memory self) est = false ->
  (lowest_estimated_memory st <= est)%Q ->
  made (fun S lc => S = name scenario /\
                    exists cs, LeakConfigs cs ∈ ccs /\ lc ∈ cs)
       st (foldl (collection_body scenario est) st ccs).
Proof.
  induction ccs as [|cc ccs IH]; intros st Hest Hlow; simpl; [apply made_refl|].
  pose proof (collection_body_made scenario est st cc Hest Hlow) as M.
  eapply made_trans.
  - eapply made_weaken; [|exact M]. intros S lc (-> & cs & -> & Hin).
    split; [reflexivity|]. exists cs. split; [apply list_elem_of_here|assumption].
  - eapply made_weaken; [|apply IH; [assumption|]].
    + intros S lc (-> & cs & Hcs & Hin). split; [reflexivity|].
      exists cs. split; [now apply list_elem_of_further|assumption].
    + destruct M as (_ & Hl & _). eapply Qle_trans; eauto.
Qed.

(** The pairs of the configuration: leak config [lc] of a scenario named
    [S] among [scs]. *)
Definition configured (scs : list Scenario) (S : string) (lc : LeakConfig) : Prop :=
  exists sc cs, sc ∈ scs /\ name (attrib sc) = S /\
                LeakConfigs cs ∈ children sc /\ lc ∈ cs.

(** The pairs of scenarios that load and pass the memory check. *)
Definition configured_fitting (scs : list Scenario) (S : string) (lc : LeakConfig) : Prop :=
  exists sc cs wn, sc ∈ scs /\ name (attrib sc) = S /\
    LeakConfigs cs ∈ children sc /\ lc ∈ cs /\
    load_network (network (absolute_attrib sc)) = Some wn /\
    Py.ltb (available_memory self) (estimate_wn_memory wn (absolute_attrib sc)) = false.

Lemma configured_fitting_configured scs S lc :
  configured_fitting scs S lc -> configured scs S lc.
Proof. intros (sc & cs & wn & H1 & H2 & H3 & H4 & _). exists sc, cs. auto. Qed.

Lemma note_estimate_low est st :
  (lowest_estimated_memory (note_estimate est st) <= lowest_estimated_memory st)%Q /\
  (lowest_estimated_memory (note_estimate est st) <= est)%Q.
Proof.
  simpl. destruct (Py.ltb est (lowest_estimated_memory st)) eqn:E.
  - apply Py.ltb_lt in E. split; [now apply Qlt_le_weak|apply Qle_refl].
  - apply Py.ltb_ge in E. split; [apply Qle_refl|assumption].
Qed.

Lemma note_estimate_made Src est st : made Src st (note_estimate est st).
Proof.
  split; [apply evolves_refl|]. split; [apply note_estimate_low|].
  exists []. split; [simpl; now rewrite app_nil_r|]. intros j Hj. inversion Hj.
Qed.

Lemma scenario_body_made st sc :
  made (configured_fitting [sc]) st (state_of (scenario_body st sc)).
Proof.
  unfold scenario_body. fold cp. fold sel.
  set (S := name (attrib sc)).
  set (st1 := if force_regenerate self && is_selected sel S (Some "*")
              then with_fs (rmtree (scenario_path_of cp S)) st else st).
  assert (M1 : made (configured_fitting [sc]) st st1).
  { subst st1. destruct (force_regenerate self) eqn:Hf; simpl; [|apply made_refl].
    destruct (is_selected sel S (Some "*")) eqn:Hs; [|apply made_refl].
    apply made_with_fs. now apply rmtree_scenario_evolves. }
  destruct (is_selected sel S None); simpl; [|exact M1].
  destruct (load_network _) as [wn|] eqn:Hload; simpl; [|exact M1].
  eapply made_trans; [exact M1|].
  set (st2 := with_fs (write_topology (scenario_path_of cp S)) st1).
  assert (M2 : made (configured_fitting [sc]) st1 st2).
  { apply made_with_fs. apply write_topology_evolves. }
  eapply made_trans; [exact M2|].
  set (est := estimate_wn_memory wn (absolute_attrib sc)).
  pose proof (note_estimate_made (configured_fitting [sc]) est st2) as M3.
  destruct (Py.ltb (available_memory self) est) eqn:Hgate; simpl; [exact M3|].
  eapply made_trans; [exact M3|].
  eapply made_weaken; [|apply collections_made; [exact Hgate|apply note_estimate_low]].
  intros S' lc (-> & cs & Hcs & Hin). exists sc, cs, wn.
  split; [apply list_elem_of_here|]. auto.
Qed.

Lemma scenarios_loop_made scs : forall st,
  made (configured_fitting scs) st (state_of (scenarios_loop scs st)).
Proof.
  induction scs as [|sc scs IH]; intros st; simpl; [apply made_refl|].
  pose proof (scenario_body_made st sc) as M.
  assert (W1 : forall S lc, configured_fitting [sc] S lc ->
                            configured_fitting (sc :: scs) S lc).
  { intros S lc (sc' & cs & wn & Hin & H). exists sc', cs, wn.
    apply list_elem_of_singleton in Hin as ->. split; [apply list_elem_of_here|exact H]. }
  assert (W2 : forall S lc, configured_fitting scs S lc ->
                            configured_fitting (sc :: scs) S lc).
  { intros S lc (sc' & cs & wn & Hin & H). exists sc', cs, wn.
    split; [now apply list_elem_of_further|exact H]. }
  destruct (scenario_body st sc) as [st'|st']; simpl in *.
  - eapply made_trans; [eapply made_weaken; [exact W1|exact M]|].
    eapply made_weaken; [exact W2|apply IH].
  - eapply made_weaken; [exact W1|exact M].
Qed.

(** *** Forced deletion *)

(** Nothing exists at or below [p]. *)
Definition absent (p : path) (fs : FS) : Prop :=
  forall q, under p q = true -> fs q = false.

Lemma absent_kept S p (fs fs' : FS) :
  under (measurements_dir S) p = true ->
  evolves fs fs' -> absent p fs -> absent p fs'.
Proof.
  intros Hp (Hnew & _ & _) Habs q Hq.
  destruct (fs' q) eqn:E; [|reflexivity].
  rewrite <- (Habs q Hq). symmetry. apply (Hnew S q); [|exact E].
  eapply under_trans; eauto.
Qed.

Lemma absent_rmtree p (fs : FS) : absent p (rmtree p fs).
Proof. intros q Hq. unfold rmtree. rewrite Hq. apply andb_false_r. Qed.

Lemma absent_below p p' (fs : FS) : under p p' = true -> absent p fs -> absent p' fs.
Proof. intros Hp Habs q Hq. apply Habs. eapply under_trans; eauto. Qed.

Lemma measurements_path_in_dir S L :
  under (measurements_dir S) (measurements_path_of cp S L) = true.
Proof. apply (measurements_path_under_dir S L). apply under_refl. Qed.

Lemma measurements_dir_in_scenario S :
  under (scenario_path_of cp S) (measurements_dir S) = true.
Proof.
  unfold measurements_dir, scenario_path_of.
  change (cp ++ [S; "measurements"]) with (cp ++ [S] ++ ["measurements"]).
  rewrite app_assoc. apply under_app.
Qed.

Lemma leak_config_body_deletes scenario est st lc :
  force_regenerate self = true ->
  is_selected sel (name scenario) (Some (leak_config_name lc)) = true ->
  absent (measurements_path_of cp (name scenario) (leak_config_name lc))
         (fs (leak_config_body scenario est st lc)).
Proof.
  intros Hf Hs. unfold leak_config_body. fold cp. fold sel.
  rewrite Hf, Hs. simpl.
  change (scenario_path_of cp (name scenario) ++ ["measurements"; leak_config_name lc])
    with (measurements_path_of cp (name scenario) (leak_config_name lc)).
  set (p := measurements_path_of cp (name scenario) (leak_config_name lc)).
  pose proof (absent_rmtree p (fs st)) as Habs.
  rewrite (Habs p (under_refl p)). simpl.
  rewrite scenario_sub_path.
  eapply absent_kept; [apply measurements_path_in_dir| |exact Habs].
  apply write_config_evolves. discriminate.
Qed.

Lemma leak_configs_delete scenario est cs lc :
  force_regenerate self = true ->
  is_selected sel (name scenario) (Some (leak_config_name lc)) = true ->
  Py.ltb (available_memory self) est = false ->
  lc ∈ cs ->
  forall st, (lowest_estimated_memory st <= est)%Q ->
  absent (measurements_path_of cp (name scenario) (leak_config_name lc))
         (fs (foldl (leak_config_body scenario est) st cs)).
Proof.
  intros Hf Hs Hest. induction cs as [|c cs IH]; intros Hin st Hlow; [inversion Hin|].
  simpl.
  pose proof (leak_config_body_made scenario est st c Hest Hlow) as (_ & Hl & _).
  assert (Hlow' : (lowest_estimated_memory (leak_config_body scenario est st c) <= est)%Q)
    by (eapply Qle_trans; eauto).
  apply elem_of_cons in Hin as [->|Hin].
  - eapply absent_kept; [apply measurements_path_in_dir| |].
    + apply (leak_configs_made scenario est cs _ Hest Hlow').
    + now apply leak_config_body_deletes.
  - now apply IH.
Qed.

Lemma collections_delete scenario est ccs cs lc :
  force_regenerate self = true ->
  is_selected sel (name scenario) (Some (leak_config_name lc)) = true ->
  Py.ltb (available_memory self) est = false ->
  LeakConfigs cs ∈ ccs -> lc ∈ cs ->
  forall st, (lowest_estimated_memory st <= est)%Q ->
  absent (measurements_path_of cp (name scenario) (leak_config_name lc))
         (fs (foldl (collection_body scenario est) st ccs)).
Proof.
  intros Hf Hs Hest Hccs Hlc. induction ccs as [|cc ccs IH]; intros st Hlow;
    [inversion Hccs|].
  simpl.
  pose proof (collection_body_made scenario est st cc Hest Hlow) as (_ & Hl & _).
  assert (Hlow' : (lowest_estimated_memory (collection_body scenario est st cc) <= est)%Q)
    by (eapply Qle_trans; eauto).
  apply elem_of_cons in Hccs as [<-|Hccs].
  - eapply absent_kept; [apply measurements_path_in_dir| |].
    + apply (collections_made scenario est ccs _ Hest Hlow').
    + simpl. now apply leak_configs_delete.
  - now apply IH.
Qed.

Lemma scenario_body_deletes_exact st sc cs lc wn :
  force_regenerate self = true ->
  LeakConfigs cs ∈ children sc -> lc ∈ cs ->
  is_selected sel (name (attrib sc)) (Some (leak_config_name lc)) = true ->
  load_network (network (absolute_attrib sc)) = Some wn ->
  Py.ltb (available_memory self) (estimate_wn_memory wn (absolute_attrib sc)) = false ->
  absent (measurements_path_of cp (name (attrib sc)) (leak_config_name lc))
         (fs (state_of (scenario_body st sc))).
Proof.
  intros Hf Hcs Hlc Hs Hload Hgate. unfold scenario_body. fold cp. fold sel.
  rewrite (is_selected_scenario _ _ _ Hs), Hload, Hgate. simpl.
  apply (collections_delete (absolute_attrib sc) _ (children sc) cs lc);
    try assumption.
  apply note_estimate_low.
Qed.

Lemma scenario_body_deletes_all st sc :
  force_regenerate self = true ->
  is_selected sel (name (attrib sc)) (Some "*") = true ->
  absent (measurements_dir (name (attrib sc))) (fs (state_of (scenario_body st sc))).
Proof.
  intros Hf Hs.
  set (st1 := with_fs (rmtree (scenario_path_of cp (name (attrib sc)))) st).
  assert (H1 : absent (measurements_dir (name (attrib sc))) (fs st1)).
  { eapply absent_below; [apply measurements_dir_in_scenario|]. apply absent_rmtree. }
  assert (M : made (configured [sc]) st1 (state_of (scenario_body st sc))).
  { unfold scenario_body. fold cp. fold sel. rewrite Hf, Hs. simpl.
    fold st1.
    destruct (is_selected sel _ None); simpl; [|apply made_refl].
    destruct (load_network _) as [wn|]; simpl; [|apply made_refl].
    eapply made_trans; [apply made_with_fs; apply write_topology_evolves|].
    eapply made_trans; [apply note_estimate_made|].
    destruct (Py.ltb _ _) eqn:Hgate; simpl; [apply made_refl|].
    eapply made_weaken; [|apply collections_made; [exact Hgate|apply note_estimate_low]].
    intros S' lc (-> & cs & Hcs & Hin). exists sc, cs.
    split; [apply list_elem_of_here|]. auto. }
  destruct M as (E & _).
  eapply absent_kept; [apply under_refl|exact E|exact H1].
Qed.

(** *** A forced wildcard rebuilds the scenario folder from nothing *)

(** Two file systems with the same content at and below [p]. *)
Definition agree (p : path) (fa fb : FS) : Prop :=
  forall q, under p q = true -> fa q = fb q.

Lemma agree_rmtree p d (fa fb : FS) :
  agree p fa fb -> agree p (rmtree d fa) (rmtree d fb).
Proof. intros H q Hq. unfold rmtree. now rewrite (H q Hq). Qed.

Lemma agree_after_rmtree p (fa fb : FS) : agree p (rmtree p fa) (rmtree p fb).
Proof. intros q Hq. unfold rmtree. rewrite Hq. now rewrite !andb_false_r. Qed.

Lemma agree_made_dir p d f (fa fb : FS) :
  under p d = true -> agree p fa fb ->
  agree p (write_xml_warn_if_changed (d ++ [f]) (if fa d then fa else makedirs d fa))
          (write_xml_warn_if_changed (d ++ [f]) (if fb d then fb else makedirs d fb)).
Proof.
  intros Hd H q Hq. unfold write_xml_warn_if_changed, write_file.
  rewrite <- (H d Hd). destruct (fa d); unfold makedirs; now rewrite (H q Hq).
Qed.

Lemma agree_write_config_collection p d ns : forall (fa fb : FS),
  under p d = true -> agree p fa fb ->
  agree p (write_config_collection ns d fa) (write_config_collection ns d fb).
Proof.
  unfold write_config_collection.
  induction ns as [|n ns IH]; intros fa fb Hd H; simpl; [exact H|].
  apply IH; [exact Hd|]. now apply agree_made_dir.
Qed.

Lemma scenario_sub_under S x : under (scenario_path_of cp S) (scenario_path_of cp S ++ x) = true.
Proof. apply under_app. Qed.

Lemma leak_config_body_agree scenario est sta stb lc :
  agree (scenario_path_of cp (name scenario)) (fs sta) (fs stb) ->
  agree (scenario_path_of cp (name scenario))
        (fs (leak_config_body scenario est sta lc))
        (fs (leak_config_body scenario est stb lc)).
Proof.
  intros H. unfold leak_config_body. fold cp.
  set (sp := scenario_path_of cp (name scenario)) in *.
  set (mp := sp ++ ["measurements"; leak_config_name lc]).
  assert (Hmp : under sp mp = true) by apply scenario_sub_under.
  set (b := force_regenerate self && _).
  assert (H1 : agree sp (fs (if b then with_fs (rmtree mp) sta else sta))
                        (fs (if b then with_fs (rmtree mp) stb else stb))).
  { destruct b; [now apply agree_rmtree|exact H]. }
  destruct (negb _); [exact H1|].
  rewrite <- (H1 mp Hmp).
  destruct (fs (if b then with_fs (rmtree mp) sta else sta) mp); [exact H1|].
  simpl. apply agree_made_dir; [apply scenario_sub_under|exact H1].
Qed.

Lemma collection_body_agree scenario est sta stb cc :
  agree (scenario_path_of cp (name scenario)) (fs sta) (fs stb) ->
  agree (scenario_path_of cp (name scenario))
        (fs (collection_body scenario est sta cc))
        (fs (collection_body scenario est stb cc)).
Proof.
  intros H. destruct cc as [cs|cs|cs]; simpl.
  - apply agree_write_config_collection; [apply scenario_sub_under|exact H].
  - apply agree_write_config_collection; [apply scenario_sub_under|exact H].
  - revert sta stb H. induction cs as [|lc cs IH]; intros sta stb H; simpl; [exact H|].
    apply IH. now apply leak_config_body_agree.
Qed.

Lemma collections_agree scenario est ccs : forall sta stb,
  agree (scenario_path_of cp (name scenario)) (fs sta) (fs stb) ->
  agree (scenario_path_of cp (name scenario))
        (fs (foldl (collection_body scenario est) sta ccs))
        (fs (foldl (collection_body scenario est) stb ccs)).
Proof.
  induction ccs as [|cc ccs IH]; intros sta stb H; simpl; [exact H|].
  apply IH. now apply collection_body_agree.
Qed.

(** With force and the wildcard, what the scenario folder holds after the
    pass over the scenario does not depend on what it held before. *)
Lemma scenario_body_rebuilds sta stb sc :
  force_regenerate self = true ->
  is_selected sel (name (attrib sc)) (Some "*") = true ->
  agree (scenario_path_of cp (name (attrib sc)))
        (fs (state_of (scenario_body sta sc)))
        (fs (state_of (scenario_body stb sc))).
Proof.
  intros Hf Hs. unfold scenario_body. fold cp. fold sel. rewrite Hf, Hs. simpl.
  set (sp := scenario_path_of cp (name (attrib sc))).
  pose proof (agree_after_rmtree sp (fs sta) (fs stb)) as H1.
  destruct (is_selected sel _ None); simpl; [|exact H1].
  destruct (load_network _) as [wn|]; simpl; [|exact H1].
  assert (H2 : agree sp (write_topology sp (rmtree sp (fs sta)))
                        (write_topology sp (rmtree sp (fs stb)))).
  { unfold write_topology. apply agree_made_dir; [apply under_refl|exact H1]. }
  destruct (Py.ltb _ _); simpl; [exact H2|].
  apply (collections_agree (absolute_attrib sc)). exact H2.
Qed.

(** What one scenario's pass leaves absent stays absent until the loop
    returns. *)
Lemma scenarios_loop_absent S p sc scs :
  under (measurements_dir S) p = true ->
  sc ∈ scs ->
  (forall st, absent p (fs (state_of (scenario_body st sc)))) ->
  forall st st', scenarios_loop scs st = Returns st' -> absent p (fs st').
Proof.
  intros Hp Hin Hsc. induction scs as [|c scs IH]; intros st st' Hrun; [inversion Hin|].
  simpl in Hrun. destruct (scenario_body st c) as [st1|st1] eqn:Hbody; [|discriminate].
  apply elem_of_cons in Hin as [->|Hin].
  - pose proof (scenarios_loop_made scs st1) as (E & _). rewrite Hrun in E. simpl in E.
    eapply absent_kept; [exact Hp|exact E|].
    specialize (Hsc st). rewrite Hbody in Hsc. exact Hsc.
  - eapply IH; eauto.
Qed.

Definition initial_state (fs0 : FS) : GenState :=
  {| fs := fs0; job_list := []; lowest_estimated_memory := inject_Z (10 ^ 12) |}.

Lemma create_returns_inv fs0 st n :
  create_job_list_and_write_configs fs0 = Returns (st, n) ->
  scenarios_loop (scenarios self) (initial_state fs0) = Returns st /\
  exists practical,
    Py.floordiv (available_memory self) (lowest_estimated_memory st) = Some practical /\
    n = if (practical <? n_threads self)%Z then practical else n_threads self.
Proof.
  unfold create_job_list_and_write_configs. fold (initial_state fs0).
  destruct (scenarios_loop _ _) as [st1|st1]; [|discriminate].
  destruct (Py.floordiv _ _) as [pr|] eqn:E; [|discriminate].
  intros H. injection H as <- <-. split; [reflexivity|]. exists pr. auto.
Qed.

(** *** Scenarios that are not selected *)

Lemma scenario_body_skipped st sc :
  is_selected sel (name (attrib sc)) None = false ->
  scenario_body st sc = Returns st.
Proof.
  intros Hs. unfold scenario_body. fold sel. rewrite Hs.
  destruct (is_selected sel (name (attrib sc)) (Some "*")) eqn:E.
  - apply is_selected_scenario in E. congruence.
  - rewrite andb_false_r. reflexivity.
Qed.

Lemma scenarios_loop_skipped scs st :
  (forall S, is_selected sel S None = false) ->
  scenarios_loop scs st = Returns st.
Proof.
  intros Hs. induction scs as [|sc scs IH]; simpl; [reflexivity|].
  rewrite scenario_body_skipped by apply Hs. exact IH.
Qed.

(** C10. With a selection list, a scenario counts as selected only if some
    element of the list starts with its name followed by a dot, and a leak
    config only if the list holds [S.L] or [S.*].  A list whose strings have
    no dot selects nothing; a scenario no element of the list starts with is
    passed over by the loop without any effect; and with such a dotless list
    (a bare ["A"], say) job creation leaves the file system as it was and
    the job list empty. *)
Theorem malformed_selector_selects_nothing :
  forall (l : list string) (S L : string) (sc : Scenario) (st : GenState) (fs0 : FS),
    selection self = Some l ->
    (is_selected (Some l) S None = true ->
       exists x, x ∈ l /\ String.prefix (S +:+ ".") x = true) /\
    (is_selected (Some l) S (Some L) = true ->
       S +:+ "." +:+ L ∈ l \/ S +:+ ".*" ∈ l) /\
    (Forall (fun x => no_dot x = true) l ->
       forall lo, is_selected (Some l) S lo = false) /\
    ((forall x, x ∈ l -> String.prefix (name (attrib sc) +:+ ".") x = false) ->
       scenario_body st sc = Returns st) /\
    (Forall (fun x => no_dot x = true) l ->
       fst (state_of (create_job_list_and_write_configs fs0)) = initial_state fs0).
Proof.
  intros l S L sc st fs0 Hsel. repeat split.
  - unfold is_selected. intros H. apply existsb_exists in H as (x & Hx & Hp).
    exists x. split; [now apply list_elem_of_In|exact Hp].
  - unfold is_selected. intros H. apply orb_prop in H.
    rewrite !bool_decide_eq_true in H. exact H.
  - intros Hl lo. now apply dotless_selects_nothing.
  - intros Hl. apply scenario_body_skipped. unfold sel. rewrite Hsel.
    unfold is_selected. destruct (existsb _ l) eqn:E; [|reflexivity].
    apply existsb_exists in E as (x & Hx & Hp).
    apply list_elem_of_In in Hx. rewrite (Hl x Hx) in Hp. discriminate.
  - intros Hl. unfold create_job_list_and_write_configs.
    fold (initial_state fs0). rewrite scenarios_loop_skipped.
    + cbv beta iota. destruct (Py.floordiv (available_memory self) _); reflexivity.
    + intros S'. unfold sel. rewrite Hsel. now apply dotless_selects_nothing.
Qed.

(** *** The lowest estimate and the clamped number of threads *)

(** The estimates the loop computes: one for each selected scenario whose
    network loads. *)
Definition computed_estimates (scs : list Scenario) : list Q :=
  flat_map (fun sc =>
    if is_selected sel (name (attrib sc)) None
    then match load_network (network (absolute_attrib sc)) with
         | Some wn => [estimate_wn_memory wn (absolute_attrib sc)]
         | None => []
         end
    else []) scs.

Definition lowest_of (low : Q) (ests : list Q) : Q :=
  foldl (fun low e => if Py.ltb e low then e else low) low ests.

Lemma lowest_of_le ests : forall low,
  (lowest_of low ests <= low)%Q /\
  (forall e, e ∈ ests -> (lowest_of low ests <= e)%Q).
Proof.
  induction ests as [|e ests IH]; intros low; simpl.
  - split; [apply Qle_refl|]. intros e He. inversion He.
  - destruct (IH (if Py.ltb e low then e else low)) as [H1 H2].
    assert (Hstep : ((if Py.ltb e low then e else low) <= low)%Q /\
                    ((if Py.ltb e low then e else low) <= e)%Q).
    { destruct (Py.ltb e low) eqn:E.
      - apply Py.ltb_lt in E. split; [now apply Qlt_le_weak|apply Qle_refl].
      - apply Py.ltb_ge in E. split; [apply Qle_refl|assumption]. }
    split; [eapply Qle_trans; [exact H1|apply Hstep]|].
    intros e' He'. apply elem_of_cons in He' as [->|He'].
    + eapply Qle_trans; [exact H1|apply Hstep].
    + now apply H2.
Qed.

Lemma lowest_of_mem ests : forall low,
  lowest_of low ests = low \/ lowest_of low ests ∈ ests.
Proof.
  induction ests as [|e ests IH]; intros low; simpl; [now left|].
  destruct (IH (if Py.ltb e low then e else low)) as [H|H].
  - rewrite H. destruct (Py.ltb e low); [right; apply list_elem_of_here|now left].
  - right. now apply list_elem_of_further.
Qed.

Lemma leak_config_body_lowest scenario est st lc :
  lowest_estimated_memory (leak_config_body scenario est st lc)
  = lowest_estimated_memory st.
Proof.
  unfold leak_config_body.
  repeat match goal with |- context [if ?b then _ else _] => destruct b end;
    reflexivity.
Qed.

Lemma collection_body_lowest scenario est st cc :
  lowest_estimated_memory (collection_body scenario est st cc)
  = lowest_estimated_memory st.
Proof.
  destruct cc as [cs|cs|cs]; simpl; try reflexivity.
  revert st. induction cs as [|lc cs IH]; intros st; simpl; [reflexivity|].
  rewrite IH. apply leak_config_body_lowest.
Qed.

Lemma collections_lowest scenario est ccs : forall st,
  lowest_estimated_memory (foldl (collection_body scenario est) st ccs)
  = lowest_estimated_memory st.
Proof.
  induction ccs as [|cc ccs IH]; intros st; simpl; [reflexivity|].
  rewrite IH. apply collection_body_lowest.
Qed.

Lemma scenarios_loop_lowest scs : forall st st',
  scenarios_loop scs st = Returns st' ->
  lowest_estimated_memory st'
  = lowest_of (lowest_estimated_memory st) (computed_estimates scs).
Proof.
  induction scs as [|sc scs IH]; intros st st' Hrun; simpl in *.
  - injection Hrun as <-. reflexivity.
  - destruct (scenario_body st sc) as [st1|st1] eqn:Hbody; [|discriminate].
    rewrite (IH st1 st' Hrun). unfold lowest_of. rewrite foldl_app. f_equal.
    unfold scenario_body in Hbody. fold sel in Hbody.
    destruct (is_selected sel (name (attrib sc)) None); simpl in Hbody.
    + destruct (load_network _) as [wn|]; [|discriminate]. simpl.
      destruct (Py.ltb (available_memory self) _);
        injection Hbody as <-; rewrite ?collections_lowest; simpl;
        destruct (force_regenerate self && _); reflexivity.
    + injection Hbody as <-. simpl.
      destruct (force_regenerate self && _); reflexivity.
Qed.

Lemma floor_quotient_ge_1 (a b : Q) : (0 < b)%Q -> (b <= a)%Q -> (1 <= Qfloor (a / b))%Z.
Proof.
  intros Hb Hab. change 1%Z with (Qfloor 1). apply Qfloor_resp_le.
  apply Qle_shift_div_l; [exact Hb|]. now rewrite Qmult_1_l.
Qed.

(** *** Every missing result gets its job *)

(** [covered st st' S lc]: the measurements of the pair exist in the file
    system of [st], or the job list of [st'] has a job for them. *)
Definition covered (st st' : GenState) (S : string) (lc : LeakConfig) : Prop :=
  fs st (measurements_path_of cp S (leak_config_name lc)) = true \/
  exists j, j ∈ job_list st' /\
            results_path j = measurements_path_of cp S (leak_config_name lc).

Lemma covered_later Src st st' st'' S lc :
  made Src st' st'' -> covered st st' S lc -> covered st st'' S lc.
Proof.
  intros (_ & _ & new & Hjobs & _) [H|(j & Hj & Hp)]; [now left|].
  right. exists j. split; [|exact Hp]. rewrite Hjobs. apply elem_of_app. now left.
Qed.

Lemma covered_earlier Src st0 st st' S lc :
  made Src st0 st -> covered st st' S lc -> covered st0 st' S lc.
Proof.
  intros ((Hnew & _) & _) [H|H]; [|now right].
  left. apply (Hnew S); [apply measurements_path_in_dir|exact H].
Qed.

Lemma leak_config_body_covers scenario est st lc :
  force_regenerate self = false ->
  is_selected sel (name scenario) (Some (leak_config_name lc)) = true ->
  covered st (leak_config_body scenario est st lc) (name scenario) lc.
Proof.
  intros Hf Hs. unfold covered, leak_config_body. fold cp. fold sel.
  rewrite Hf, Hs. simpl.
  change (scenario_path_of cp (name scenario) ++ ["measurements"; leak_config_name lc])
    with (measurements_path_of cp (name scenario) (leak_config_name lc)).
  destruct (fs st (measurements_path_of cp (name scenario) (leak_config_name lc)));
    [now left|].
  right. eexists.
  split; [simpl; apply elem_of_app; right; apply list_elem_of_here|reflexivity].
Qed.

Lemma leak_configs_cover scenario est cs lc :
  force_regenerate self = false ->
  is_selected sel (name scenario) (Some (leak_config_name lc)) = true ->
  Py.ltb (available_memory self) est = false ->
  lc ∈ cs ->
  forall st, (lowest_estimated_memory st <= est)%Q ->
  covered st (foldl (leak_config_body scenario est) st cs) (name scenario) lc.
Proof.
  intros Hf Hs Hest. induction cs as [|c cs IH]; intros Hin st Hlow; [inversion Hin|].
  simpl.
  pose proof (leak_config_body_made scenario est st c Hest Hlow) as M.
  assert (Hlow' : (lowest_estimated_memory (leak_config_body scenario est st c) <= est)%Q).
  { destruct M as (_ & Hl & _). eapply Qle_trans; eauto. }
  apply elem_of_cons in Hin as [->|Hin].
  - eapply covered_later; [apply (leak_configs_made scenario est cs _ Hest Hlow')|].
    now apply leak_config_body_covers.
  - eapply covered_earlier; [exact M|]. now apply IH.
Qed.

Lemma collections_cover scenario est ccs cs lc :
  force_regenerate self = false ->
  is_selected sel (name scenario) (Some (leak_config_name lc)) = true ->
  Py.ltb (available_memory self) est = false ->
  LeakConfigs cs ∈ ccs -> lc ∈ cs ->
  forall st, (lowest_estimated_memory st <= est)%Q ->
  covered st (foldl (collection_body scenario est) st ccs) (name scenario) lc.
Proof.
  intros Hf Hs Hest Hccs Hlc. induction ccs as [|cc ccs IH]; intros st Hlow;
    [inversion Hccs|].
  simpl.
  pose proof (collection_body_made scenario est st cc Hest Hlow) as M.
  assert (Hlow' : (lowest_estimated_memory (collection_body scenario est st cc) <= est)%Q).
  { destruct M as (_ & Hl & _). eapply Qle_trans; eauto. }
  apply elem_of_cons in Hccs as [<-|Hccs].
  - eapply covered_later; [apply (collections_made scenario est ccs _ Hest Hlow')|].
    simpl. now apply leak_configs_cover.
  - eapply covered_earlier; [exact M|]. now apply IH.
Qed.

Lemma scenario_body_covers st sc cs lc wn :
  force_regenerate self = false ->
  LeakConfigs cs ∈ children sc -> lc ∈ cs ->
  is_selected sel (name (attrib sc)) (Some (leak_config_name lc)) = true ->
  load_network (network (absolute_attrib sc)) = Some wn ->
  Py.ltb (available_memory self) (estimate_wn_memory wn (absolute_attrib sc)) = false ->
  covered st (state_of (scenario_body st sc)) (name (attrib sc)) lc.
Proof.
  intros Hf Hcs Hlc Hs Hload Hgate. unfold scenario_body. fold cp. fold sel.
  rewrite Hf, (is_selected_scenario _ _ _ Hs), Hload, Hgate. simpl.
  eapply covered_earlier.
  - eapply made_trans; [apply (made_with_fs (fun _ _ => True)); apply write_topology_evolves|].
    apply note_estimate_made.
  - apply (collections_cover (absolute_attrib sc) _ (children sc) cs lc);
      try assumption.
    apply note_estimate_low.
Qed.

Lemma scenarios_loop_covers scs S lc :
  force_regenerate self = false ->
  configured_fitting scs S lc ->
  is_selected sel S (Some (leak_config_name lc)) = true ->
  forall st st', scenarios_loop scs st = Returns st' -> covered st st' S lc.
Proof.
  intros Hf (sc & cs & wn & Hsc & <- & Hcs & Hlc & Hload & Hgate) Hs.
  induction scs as [|c scs IH]; intros st st' Hrun; [inversion Hsc|].
  simpl in Hrun. destruct (scenario_body st c) as [st1|st1] eqn:Hbody; [|discriminate].
  apply elem_of_cons in Hsc as [Heq|Hsc].
  - subst c.
    pose proof (scenarios_loop_made scs st1) as M. rewrite Hrun in M. simpl in M.
    eapply covered_later; [exact M|].
    pose proof (scenario_body_covers st sc cs lc wn Hf Hcs Hlc Hs Hload Hgate) as Hc.
    rewrite Hbody in Hc. exact Hc.
  - pose proof (scenario_body_made st c) as M. rewrite Hbody in M. simpl in M.
    eapply covered_earlier; [exact M|]. now apply IH.
Qed.

(** Whether the loop returns depends on the configuration, not on the
    state it starts from. *)
Lemma scenarios_loop_returns scs : forall st1 st2 x,
  scenarios_loop scs st1 = Returns x -> exists y, scenarios_loop scs st2 = Returns y.
Proof.
  induction scs as [|sc scs IH]; intros st1 st2 x Hrun; simpl in *; [eauto|].
  destruct (scenario_body st1 sc) as [x1|x1] eqn:H1; [|discriminate].
  assert (H2 : exists y1, scenario_body st2 sc = Returns y1).
  { unfold scenario_body in *.
    destruct (is_selected (selection self) (name (attrib sc)) None); simpl in *; [|eauto].
    destruct (load_network _); [|discriminate].
    destruct (Py.ltb _ _); eauto. }
  destruct H2 as [y1 ->]. eapply IH; eauto.
Qed.

Lemma create_returns_again fs0 st n fs2 :
  create_job_list_and_write_configs fs0 = Returns (st, n) ->
  exists st2, create_job_list_and_write_configs fs2 = Returns (st2, n) /\
              scenarios_loop (scenarios self) (initial_state fs2) = Returns st2.
Proof.
  intros Hrun. apply create_returns_inv in Hrun as (Hloop & practical & Hdiv & Hn).
  destruct (scenarios_loop_returns _ _ (initial_state fs2) _ Hloop) as [st2 Hloop2].
  exists st2. split; [|exact Hloop2].
  unfold create_job_list_and_write_configs. fold (initial_state fs2).
  rewrite Hloop2.
  rewrite (scenarios_loop_lowest _ _ _ Hloop2).
  rewrite (scenarios_loop_lowest _ _ _ Hloop) in Hdiv. simpl in *.
  rewrite Hdiv. now rewrite Hn.
Qed.

(** The statement about forced regeneration as the specification has it:
    every configured pair that the selection matches has its measurements
    removed. *)
Definition force_deletes_matching (fs0 : FS) : Prop :=
  forall st n S lc,
    create_job_list_and_write_configs fs0 = Returns (st, n) ->
    force_regenerate self = true ->
    configured (scenarios self) S lc ->
    is_selected (selection self) S (Some (leak_config_name lc)) = true ->
    absent (measurements_path_of (collection_path self) S (leak_config_name lc)) (fs st).

(** C3, in the form that holds.  Without force, no job is created for a
    pair whose measurements directory exists; when the directories of all selected
    pairs exist the job list is empty; and a second run, on a file system
    that has kept what the first run left and holds the results of all its
    jobs, returns with an empty job list.  With force and a selection list: a
    wildcard [S.*] leaves nothing below the measurements of scenario [S],
    and what the folder of [S] holds after the pass over [S] does not
    depend on what it held before (the folder is removed and rebuilt);
    a selector that matches a pair of a scenario that loads and passes the
    memory check leaves nothing at or below that pair's measurements
    directory; and whatever lies below the measurements directory of a pair
    that is not selected is exactly as it was before. *)
Theorem regeneration_only_on_force :
  forall (fs0 : FS) (st : GenState) (n : Z),
    create_job_list_and_write_configs fs0 = Returns (st, n) ->
    (force_regenerate self = false ->
       (forall S L j, fs0 (measurements_path_of (collection_path self) S L) = true ->
          j ∈ job_list st ->
          ~ (name (scenario_config j) = S /\ job_leak_config_name j = L)) /\
       (forall j, j ∈ job_list st -> fs0 (results_path j) = false) /\
       ((forall S lc, configured (scenarios self) S lc ->
           is_selected (selection self) S (Some (leak_config_name lc)) = true ->
           fs0 (measurements_path_of (collection_path self) S (leak_config_name lc)) = true) ->
        job_list st = []) /\
       (forall fs2 : FS,
          (forall q, fs st q = true -> fs2 q = true) ->
          (forall j, j ∈ job_list st -> fs2 (results_path j) = true) ->
          exists st2,
            create_job_list_and_write_configs fs2 = Returns (st2, n) /\
            job_list st2 = [])) /\
    (force_regenerate self = true ->
     forall l, selection self = Some l ->
       (forall sc, sc ∈ scenarios self -> name (attrib sc) +:+ ".*" ∈ l ->
          absent (measurements_dir (name (attrib sc))) (fs st)) /\
       (forall sc sta stb, name (attrib sc) +:+ ".*" ∈ l ->
          agree (scenario_path_of (collection_path self) (name (attrib sc)))
                (fs (state_of (scenario_body sta sc)))
                (fs (state_of (scenario_body stb sc)))) /\
       (forall S lc, configured_fitting (scenarios self) S lc ->
          is_selected (Some l) S (Some (leak_config_name lc)) = true ->
          absent (measurements_path_of (collection_path self) S (leak_config_name lc)) (fs st)) /\
       (forall S L q, is_selected (Some l) S (Some L) = false ->
          under (measurements_path_of (collection_path self) S L) q = true ->
          fs st q = fs0 q)).
Proof.
  intros fs0 st n Hrun.
  pose proof (fun fs2 => create_returns_again fs0 st n fs2 Hrun) as Hagain.
  apply create_returns_inv in Hrun as (Hloop & _).
  pose proof (scenarios_loop_made (scenarios self) (initial_state fs0)) as M.
  rewrite Hloop in M. simpl in M.
  destruct M as (E & _ & new & Hjobs & Hnew). simpl in Hjobs.
  split.
  - intros Hf.
    assert (Hall : forall j, j ∈ job_list st -> fs0 (results_path j) = false).
    { intros j Hj. rewrite Hjobs in Hj. destruct (Hnew j Hj) as (_ & B & _).
      exact (B Hf). }
    split; [|split; [exact Hall|split]].
    + intros S L j Hex Hj [HS HL].
      pose proof (Hall j Hj) as Hno. rewrite Hjobs in Hj.
      destruct (Hnew j Hj) as ((S' & lc & _ & A1 & A2 & _ & A4 & _) & _).
      rewrite A4 in Hno. fold cp in Hex. congruence.
    + intros Hexist. rewrite Hjobs. destruct new as [|j new']; [reflexivity|].
      exfalso. assert (Hj : j ∈ j :: new') by apply list_elem_of_here.
      destruct (Hnew j Hj) as ((S & lc & A0 & _ & _ & _ & A4 & A5) & B & _).
      specialize (B Hf). simpl in B. rewrite A4 in B.
      pose proof (Hexist S lc (configured_fitting_configured _ _ _ A0) A5) as Hx.
      fold cp in Hx. congruence.
    + intros fs2 Hkept Hsaved. destruct (Hagain fs2) as (st2 & Hrun2 & Hloop2).
      exists st2. split; [exact Hrun2|].
      pose proof (scenarios_loop_made (scenarios self) (initial_state fs2)) as M2.
      rewrite Hloop2 in M2. simpl in M2.
      destruct M2 as (_ & _ & new2 & Hjobs2 & Hnew2). simpl in Hjobs2.
      rewrite Hjobs2. destruct new2 as [|j2 new2']; [reflexivity|].
      exfalso. assert (Hj2 : j2 ∈ j2 :: new2') by apply list_elem_of_here.
      destruct (Hnew2 j2 Hj2) as ((S & lc & A0 & _ & _ & _ & A4 & A5) & B & _).
      specialize (B Hf). simpl in B. rewrite A4 in B.
      destruct (scenarios_loop_covers _ S lc Hf A0 A5 _ _ Hloop) as [Hc|(j1 & Hj1 & Hp)].
      * simpl in Hc. destruct E as (_ & _ & Hkeep).
        rewrite (Hkept _ (Hkeep Hf _ Hc)) in B. discriminate.
      * rewrite <- Hp, (Hsaved j1 Hj1) in B. discriminate.
  - intros Hf l Hsel.
    assert (Hstar : forall sc, name (attrib sc) +:+ ".*" ∈ l ->
              is_selected sel (name (attrib sc)) (Some "*") = true).
    { intros sc Hwild. unfold sel. rewrite Hsel. simpl.
      rewrite !bool_decide_eq_true_2 by exact Hwild. reflexivity. }
    split; [|split; [|split]].
    + intros sc Hsc Hwild.
      apply (scenarios_loop_absent (name (attrib sc)) _ sc (scenarios self)
               (under_refl _) Hsc) with (st := initial_state fs0); [|exact Hloop].
      intros st1. apply scenario_body_deletes_all; [exact Hf|now apply Hstar].
    + intros sc sta stb Hwild. apply scenario_body_rebuilds; [exact Hf|now apply Hstar].
    + intros S lc (sc & cs & wn & Hsc & <- & Hcs & Hlc & Hload & Hgate) Hs.
      apply (scenarios_loop_absent (name (attrib sc)) _ sc (scenarios self)
               (measurements_path_in_dir _ _) Hsc) with (st := initial_state fs0);
        [|exact Hloop].
      intros st1. apply (scenario_body_deletes_exact st1 sc cs lc wn); try assumption.
      unfold sel. rewrite Hsel. exact Hs.
    + intros S L q Hs Hq. destruct E as (Hnew' & Hkeep & _).
      simpl in Hnew', Hkeep.
      destruct (fs0 q) eqn:E0.
      * apply (Hkeep S L q); [unfold sel; rewrite Hsel; exact Hs|exact Hq|exact E0].
      * destruct (fs st q) eqn:E1; [|reflexivity].
        rewrite <- E0. symmetry. apply (Hnew' S q); [|exact E1].
        now apply (measurements_path_under_dir S L).
Qed.

(** The clamp of the thread count.  When job creation
    returns, the new thread count is the minimum of
    the requested count and [floor(available / smallest)], where [smallest]
    is the least of the estimates computed on the way (one of them lies
    below the 10^12 kB the loop starts from, and they are positive).  If
    there is a job at all the quotient is at least 1, so a requested count
    of at least 1 stays at least 1; and whenever, after reservations and
    matching releases, no reservation is outstanding, the reservation of
    every job of the list succeeds. *)
Theorem effective_worker_count :
  forall (fs0 : FS) (st : GenState) (n : Z),
    create_job_list_and_write_configs fs0 = Returns (st, n) ->
    (exists e, e ∈ computed_estimates (scenarios self) /\ (e < inject_Z (10 ^ 12))%Q) ->
    (0 < lowest_estimated_memory st)%Q ->
    let smallest := lowest_estimated_memory st in
    smallest ∈ computed_estimates (scenarios self) /\
    (forall e, e ∈ computed_estimates (scenarios self) -> (smallest <= e)%Q) /\
    n = Z.min (n_threads self) (Qfloor (available_memory self / smallest)) /\
    (job_list st <> [] ->
       (1 <= Qfloor (available_memory self / smallest))%Z /\
       ((1 <= n_threads self)%Z -> (1 <= n)%Z)) /\
    ((Py.int_of_float (available_memory self) < 2 ^ 31)%Z ->
     forall ops s j,
       MemoryBudget.nonneg_amounts ops = true ->
       MemoryBudget.run ops
         (MemoryBudget.Budget (MemoryBudget.initial_counter (available_memory self)) [])
         = Some s ->
       MemoryBudget.outstanding s = [] ->
       j ∈ job_list st ->
       fst (MemoryBudget._reserve_memory (MemoryBudget.counter s) (memory_estimate j))
       = true).
Proof.
  intros fs0 st n Hrun (e0 & He0 & Hlt) Hpos smallest.
  apply create_returns_inv in Hrun as (Hloop & practical & Hdiv & Hn).
  pose proof (scenarios_loop_lowest _ _ _ Hloop) as Hlow. simpl in Hlow.
  pose proof (lowest_of_le (computed_estimates (scenarios self)) (inject_Z (10 ^ 12)))
    as [_ Hle].
  rewrite <- Hlow in Hle. fold smallest in Hle.
  assert (Hmem : smallest ∈ computed_estimates (scenarios self)).
  { destruct (lowest_of_mem (computed_estimates (scenarios self)) (inject_Z (10 ^ 12)))
      as [H|H]; rewrite <- Hlow in H; [|exact H].
    exfalso. specialize (Hle e0 He0). fold smallest in H. rewrite H in Hle.
    exact (Qlt_not_le _ _ Hlt Hle). }
  assert (Hpr : practical = Qfloor (available_memory self / smallest)).
  { unfold Py.floordiv in Hdiv. fold smallest in Hdiv.
    destruct (Qeq_bool smallest 0); [discriminate|]. now injection Hdiv as <-. }
  assert (Hjob : forall j, j ∈ job_list st ->
            (smallest <= memory_estimate j)%Q /\
            (memory_estimate j <= available_memory self)%Q).
  { intros j Hj.
    pose proof (scenarios_loop_made (scenarios self) (initial_state fs0)) as M.
    rewrite Hloop in M. simpl in M. destruct M as (_ & _ & new & Hjobs & Hnew).
    simpl in Hjobs. rewrite Hjobs in Hj.
    destruct (Hnew j Hj) as (_ & _ & C & D).
    split; [exact D|]. now apply Py.ltb_ge. }
  assert (Hone : job_list st <> [] -> (1 <= Qfloor (available_memory self / smallest))%Z).
  { intros Hne. destruct (job_list st) as [|j js] eqn:Ejs; [congruence|].
    destruct (Hjob j) as [H1 H2]; [apply list_elem_of_here|].
    apply floor_quotient_ge_1; [exact Hpos|]. eapply Qle_trans; eauto. }
  split; [exact Hmem|]. split; [exact Hle|]. split; [|split].
  - rewrite Hn, <- Hpr. destruct (Z.ltb_spec practical (n_threads self)); lia.
  - intros Hne. specialize (Hone Hne). split; [exact Hone|].
    intros Hreq. rewrite Hn, <- Hpr in *.
    destruct (Z.ltb_spec practical (n_threads self)); lia.
  - intros Hfit ops s j Hops Hrun Hout Hj. destruct (Hjob j Hj) as [H1 H2].
    assert (H0 : (0 <= memory_estimate j)%Q).
    { apply Qlt_le_weak. eapply Qlt_le_trans; eauto. }
    pose proof (Py.int_of_float_nonneg _ H0) as Hnn.
    pose proof (Py.int_of_float_mono _ _ H0 H2) as Hmono.
    assert (Hinv : MemoryBudget.budget_inv
                     (Py.int_of_float (available_memory self)) s).
    { apply (MemoryBudget.run_inv (Py.int_of_float (available_memory self)) ops
               (MemoryBudget.Budget
                  (MemoryBudget.initial_counter (available_memory self)) []) s);
        [lia|exact Hops| |exact Hrun].
      unfold MemoryBudget.budget_inv, MemoryBudget.initial_counter. simpl.
      rewrite MemoryBudget.wrap32_id by (unfold MemoryBudget.in_int32; lia).
      repeat split; [lia|lia|constructor]. }
    destruct Hinv as (Hsum & _ & _). rewrite Hout in Hsum. simpl in Hsum.
    unfold MemoryBudget._reserve_memory.
    destruct (Z.leb_spec 0 (MemoryBudget.counter s
                            - Py.int_of_float (memory_estimate j))); [reflexivity|lia].
Qed.

End Create.

(** Every scenario of the configuration has its entry in the sensor masks,
    so the lookup made when a job is created always finds one. *)
Lemma create_sensor_masks_lookup (scs : list Scenario) (sc : Scenario) :
  sc ∈ scs -> is_Some (create_sensor_masks scs !! name (attrib sc)).
Proof.
  unfold create_sensor_masks.
  set (f := fun (masks : gmap string SensorMask) (sc : Scenario) =>
              <[name (attrib sc) := foldl mask_of_collection inhabitant (children sc)]> masks).
  assert (Hkeep : forall l (m : gmap string SensorMask) k,
            is_Some (m !! k) -> is_Some (foldl f m l !! k)).
  { induction l as [|x l IH]; intros m k Hk; simpl; [exact Hk|].
    apply IH. unfold f. destruct (decide (name (attrib x) = k)) as [->|Hne].
    - rewrite lookup_insert_eq. eauto.
    - now rewrite lookup_insert_ne. }
  generalize (∅ : gmap string SensorMask).
  induction scs as [|x scs IH]; intros m Hin; [inversion Hin|].
  simpl. apply elem_of_cons in Hin as [->|Hin].
  - apply Hkeep. unfold f. rewrite lookup_insert_eq. eauto.
  - now apply IH.
Qed.

(** *** A small collection to run the generator on

    One scenario "A" on a network of 10 nodes and 12 links in a 2 kB file,
    100 iterations: its estimate is 0.15 * 100 * 22 + 40 * 22 + 2 = 1212 kB.
    It has a sensor config, a sensorfault config and two leak configs. *)

Definition sample_load (network_path : string) : option unit := Some tt.
Definition sample_nodes (wn : unit) : Z := 10.
Definition sample_links (wn : unit) : Z := 12.
Definition sample_getsize (network_path : string) : Z := 2000.

Definition sample_leak_config (n : string) : LeakConfig :=
  {| leak_config_name := n;
     leak_infos := [{| leak_type := "abrupt"; diameter := 1 # 100;
                       start := 10; end_ := 40; peak := None;
                       nodeId := Some "n3"; pipeId := None |}] |}.

Definition sample_scenario : Scenario :=
  {| attrib := {| name := "A"; network := "net/a.inp";
                  iterations := 100; timeStep := 60 |};
     children :=
       [SensorConfigs [{| sensor_config_name := "S1";
                          sensor_collections := [(PressureSensors, ["n1"; "n2"]);
                                                 (FlowSensors, ["p1"])] |}];
        SensorfaultConfigs [{| sensorfault_config_name := "F1" |}];
        LeakConfigs [sample_leak_config "L1"; sample_leak_config "L2"]] |}.

Definition sample_generator (force : bool) (sel : option (list string))
    (threads : Z) (available : Q) : ScenarioGenerator :=
  {| base_path := "/data"; collection_path := ["collection"];
     force_regenerate := force; selection := sel; n_threads := threads;
     available_memory := available; gen_dtype := "float16";
     scenarios := [sample_scenario] |}.

Definition sample_run (self : ScenarioGenerator) (fs0 : FS) : outcome (GenState * Z) :=
  create_job_list_and_write_configs unit sample_load sample_nodes sample_links
    sample_getsize self (create_sensor_masks (scenarios self)) fs0.

(** The collection after an earlier complete run. *)
Definition sample_disk : FS :=
  fs_of_list
    [["collection"]; ["collection"; "A"];
     ["collection"; "A"; "measurements"];
     ["collection"; "A"; "measurements"; "L1"];
     ["collection"; "A"; "measurements"; "L1"; "pressure.pkl"];
     ["collection"; "A"; "measurements"; "L2"];
     ["collection"; "A"; "measurements"; "L2"; "pressure.pkl"]].

Example sample_first_run :
  let r := sample_run (sample_generator false None 8 (5000 # 1)) (fs_of_list []) in
  map results_path (job_list (fst (state_of r)))
  = [["collection"; "A"; "measurements"; "L1"];
     ["collection"; "A"; "measurements"; "L2"]] /\
  snd (state_of r) = 4%Z.
Proof. vm_compute. split; reflexivity. Qed.

Example sample_second_run :
  let r := sample_run (sample_generator false None 8 (5000 # 1)) sample_disk in
  job_list (fst (state_of r)) = [] /\ snd (state_of r) = 4%Z.
Proof. vm_compute. split; reflexivity. Qed.

Example sample_forced_run :
  let r := sample_run (sample_generator true (Some ["A.L1"]) 8 (5000 # 1)) sample_disk in
  map results_path (job_list (fst (state_of r)))
  = [["collection"; "A"; "measurements"; "L1"]] /\
  map (fs (fst (state_of r)))
    [["collection"; "A"; "measurements"; "L1"; "pressure.pkl"];
     ["collection"; "A"; "measurements"; "L2"; "pressure.pkl"];
     ["collection"; "A"; "leaks"; "L1.xml"]]
  = [false; true; true].
Proof. vm_compute. split; reflexivity. Qed.

Lemma sample_configured n :
  n = "L1" \/ n = "L2" ->
  configured [sample_scenario] "A" (sample_leak_config n).
Proof.
  intros Hn. exists sample_scenario, [sample_leak_config "L1"; sample_leak_config "L2"].
  split; [apply list_elem_of_here|]. split; [reflexivity|].
  split; [simpl; do 2 apply list_elem_of_further; apply list_elem_of_here|].
  destruct Hn as [-> | ->];
    [apply list_elem_of_here|apply list_elem_of_further, list_elem_of_here].
Qed.

(** Forcing ["A.L1"] with 5000 kB available: the measurements of L1 are
    gone, those of L2 are as they were. *)
Lemma regeneration_only_on_force_witness :
  let self := sample_generator true (Some ["A.L1"]) 8 (5000 # 1) in
  let st := fst (state_of (sample_run self sample_disk)) in
  absent ["collection"; "A"; "measurements"; "L1"] (fs st) /\
  (forall q, under ["collection"; "A"; "measurements"; "L2"] q = true ->
             fs st q = sample_disk q).
Proof.
  intros self st.
  destruct (regeneration_only_on_force unit sample_load sample_nodes sample_links
              sample_getsize self (create_sensor_masks (scenarios self))
              sample_disk st (snd (state_of (sample_run self sample_disk)))
              eq_refl) as [_ Hforce].
  destruct (Hforce eq_refl ["A.L1"] eq_refl) as (_ & _ & Hexact & Hkeep).
  split.
  - apply (Hexact "A" (sample_leak_config "L1")); [|reflexivity].
    exists sample_scenario, [sample_leak_config "L1"; sample_leak_config "L2"], tt.
    split; [apply list_elem_of_here|]. split; [reflexivity|].
    split; [simpl; do 2 apply list_elem_of_further; apply list_elem_of_here|].
    split; [apply list_elem_of_here|]. split; reflexivity.
  - intros q Hq. apply (Hkeep "A" "L2"); [reflexivity|exact Hq].
Defined.

(** Forcing ["A.L1"] with only 1000 kB available: scenario "A" is skipped
    for its 1212 kB, and the measurements of the matching pair stay. *)
Lemma forced_match_kept_when_scenario_too_large :
  ~ force_deletes_matching unit sample_load sample_nodes sample_links sample_getsize
      (sample_generator true (Some ["A.L1"]) 8 (1000 # 1))
      (create_sensor_masks [sample_scenario]) sample_disk.
Proof.
  intros H.
  specialize (H _ _ "A" (sample_leak_config "L1") eq_refl eq_refl).
  assert (Hc : configured [sample_scenario] "A" (sample_leak_config "L1"))
    by (apply sample_configured; now left).
  specialize (H Hc eq_refl ["collection"; "A"; "measurements"; "L1"] eq_refl).
  vm_compute in H. discriminate.
Qed.

(** 8 threads requested, 5000 kB available, estimate 1212 kB: 4 threads. *)
Lemma effective_worker_count_witness :
  let self := sample_generator false None 8 (5000 # 1) in
  let r := sample_run self (fs_of_list []) in
  snd (state_of r)
  = Z.min 8 (Qfloor ((5000 # 1) / lowest_estimated_memory (fst (state_of r)))) /\
  (1 <= snd (state_of r))%Z.
Proof.
  intros self r.
  destruct (effective_worker_count unit sample_load sample_nodes sample_links
              sample_getsize self (create_sensor_masks (scenarios self))
              (fs_of_list []) (fst (state_of r)) (snd (state_of r)) eq_refl)
    as (_ & _ & Hn & Hone & _).
  - eexists. split; [apply list_elem_of_here|]. reflexivity.
  - reflexivity.
  - split; [exact Hn|]. apply Hone; [discriminate|]. vm_compute. discriminate.
Defined.

(** The selection ["A"]: scenario "A" is passed over. *)
Lemma malformed_selector_selects_nothing_witness :
  let self := sample_generator true (Some ["A"]) 8 (5000 # 1) in
  is_selected (Some ["A"]) "A" None = false /\
  is_selected (Some ["A"]) "A" (Some "L1") = false /\
  fst (state_of (sample_run self sample_disk)) = initial_state sample_disk.
Proof.
  intros self.
  destruct (malformed_selector_selects_nothing unit sample_load sample_nodes
              sample_links sample_getsize self (create_sensor_masks (scenarios self))
              ["A"] "A" "L1" sample_scenario (initial_state sample_disk) sample_disk
              eq_refl) as (_ & _ & Hnone & _ & Hall).
  assert (Hl : Forall (fun x => no_dot x = true) ["A"]) by (repeat constructor).
  split; [exact (Hnone Hl None)|]. split; [exact (Hnone Hl (Some "L1"))|].
  exact (Hall Hl).
Defined.

End Generator.

(** ** Slices of one-dimensional arrays (numpy arrays, pandas columns) *)

Module Slices.

(** The bounds of the slice [a:b] of an array of length [n], as Python's
    [slice.indices] gives them. *)
Definition slice_index (n i : Z) : Z :=
  if (i <? 0)%Z then Z.max 0 (i + n) else Z.min i n.

Definition slice_bounds (n : nat) (a b : Z) : nat * nat :=
  let lo := slice_index (Z.of_nat n) a in
  let hi := slice_index (Z.of_nat n) b in
  (Z.to_nat lo, Z.to_nat (Z.max lo hi)).

(** [p[a:b]] *)
Definition get_slice {A : Type} (p : list A) (a b : Z) : list A :=
  let '(lo, hi) := slice_bounds (length p) a b in
  take (hi - lo) (drop lo p).

(** [p[a:b] = x] for a single value [x]. *)
Definition set_slice_scalar {A : Type} (p : list A) (a b : Z) (x : A) : list A :=
  let '(lo, hi) := slice_bounds (length p) a b in
  take lo p ++ replicate (hi - lo) x ++ drop hi p.

(** [p[a:b] = v] for an array [v]: its length must be that of the slice,
    or 1; otherwise [ValueError] is raised. *)
Definition set_slice_array {A : Type} (p : list A) (a b : Z) (v : list A)
    : option (list A) :=
  let '(lo, hi) := slice_bounds (length p) a b in
  if (length v =? hi - lo)%nat then Some (take lo p ++ v ++ drop hi p)
  else match v with
       | [x] => Some (take lo p ++ replicate (hi - lo) x ++ drop hi p)
       | _ => None
       end.

Lemma slice_bounds_in (n : nat) (a b : Z) :
  (0 <= a <= b)%Z -> (b <= Z.of_nat n)%Z ->
  slice_bounds n a b = (Z.to_nat a, Z.to_nat b).
Proof.
  intros Hab Hb. unfold slice_bounds, slice_index.
  destruct (Z.ltb_spec a 0); [lia|]. destruct (Z.ltb_spec b 0); [lia|].
  f_equal; f_equal; lia.
Qed.

Lemma set_slice_array_in {A : Type} (p v : list A) (a b : Z) :
  (0 <= a <= b)%Z -> (b <= Z.of_nat (length p))%Z ->
  length v = Z.to_nat (b - a) ->
  set_slice_array p a b v = Some (take (Z.to_nat a) p ++ v ++ drop (Z.to_nat b) p).
Proof.
  intros Hab Hb Hv. unfold set_slice_array. rewrite slice_bounds_in by assumption.
  replace (Z.to_nat b - Z.to_nat a)%nat with (length v) by lia.
  rewrite Nat.eqb_refl. reflexivity.
Qed.

Lemma set_slice_scalar_in {A : Type} (p : list A) (a b : Z) (x : A) :
  (0 <= a <= b)%Z -> (b <= Z.of_nat (length p))%Z ->
  set_slice_scalar p a b x
  = take (Z.to_nat a) p ++ replicate (Z.to_nat (b - a)) x ++ drop (Z.to_nat b) p.
Proof.
  intros Hab Hb. unfold set_slice_scalar. rewrite slice_bounds_in by assumption.
  do 2 f_equal. f_equal. lia.
Qed.

Lemma get_slice_in {A : Type} (p : list A) (a b : Z) :
  (0 <= a <= b)%Z -> (b <= Z.of_nat (length p))%Z ->
  get_slice p a b = take (Z.to_nat (b - a)) (drop (Z.to_nat a) p).
Proof.
  intros Hab Hb. unfold get_slice. rewrite slice_bounds_in by assumption.
  f_equal. lia.
Qed.

(** Reading an array that was overwritten between [a] and [b]. *)
Lemma lookup_splice {A : Type} (p v : list A) (a b k : nat) :
  (a <= b)%nat -> (b <= length p)%nat -> length v = (b - a)%nat ->
  (take a p ++ v ++ drop b p) !! k
  = if decide (a <= k < b)%nat then v !! (k - a)%nat else p !! k.
Proof.
  intros Hab Hb Hv.
  assert (Hta : length (take a p) = a) by (rewrite length_take; lia).
  destruct (decide (a <= k < b)%nat) as [Hk|Hk].
  - rewrite lookup_app_r by lia. rewrite Hta.
    rewrite lookup_app_l by lia. reflexivity.
  - destruct (decide (k < a)%nat) as [Hlt|Hge].
    + rewrite lookup_app_l by lia. apply lookup_take_lt. exact Hlt.
    + rewrite lookup_app_r by lia. rewrite Hta.
      rewrite lookup_app_r by lia. rewrite Hv.
      rewrite lookup_drop. f_equal. lia.
Qed.

Lemma length_splice {A : Type} (p v : list A) (a b : nat) :
  (a <= b)%nat -> (b <= length p)%nat -> length v = (b - a)%nat ->
  length (take a p ++ v ++ drop b p) = length p.
Proof.
  intros Hab Hb Hv. rewrite !length_app, length_take, length_drop. lia.
Qed.

End Slices.

(** ** float64 quotients

    Where the code takes the ceiling of a float64 quotient, the rounding
    decides the result: there the quotient is rounded as float64
    arithmetic rounds it. *)

Module Float64.

Local Open Scope Z_scope.

(** The integer nearest to [q], ties to the even one. *)
Definition round_half_even (q : Q) : Z :=
  let f := Qfloor q in
  match Qcompare (q - inject_Z f) (1 # 2) with
  | Lt => f
  | Gt => (f + 1)%Z
  | Eq => if Z.even f then f else (f + 1)%Z
  end.

(** [2 ^ e] for an integer exponent. *)
Definition pow2 (e : Z) : Q := Qpower 2 e.

(** The exponent [e] of a positive rational: [2 ^ e <= q < 2 ^ (e + 1)]. *)
Definition exponent (q : Q) : Z :=
  let e0 := (Z.log2 (Qnum q) - Z.log2 (Zpos (Qden q)))%Z in
  if Qle_bool (pow2 e0) q then e0 else (e0 - 1)%Z.

(** The float64 nearest to a positive rational: round to nearest, ties to
    even, on 53 significant bits.  Overflow to infinity and the subnormal
    numbers are not modelled. *)
Definition fl64_pos (q : Q) : Q :=
  let e := (exponent q - 52)%Z in
  inject_Z (round_half_even (q / pow2 e)) * pow2 e.

Definition fl64 (q : Q) : Q :=
  match Qcompare q 0 with
  | Eq => 0
  | Gt => fl64_pos q
  | Lt => - fl64_pos (- q)
  end.

Lemma pow2_pos (e : Z) : (0 < pow2 e)%Q.
Proof. now apply Qpower.Qpower_0_lt. Qed.

Lemma pow2_nonneg_exp (n : Z) : (0 <= n)%Z -> (pow2 n == inject_Z (2 ^ n))%Q.
Proof. intros Hn. unfold pow2. now rewrite (Qpower.Zpower_Qpower 2 n Hn). Qed.

Lemma pow2_sub (a b : Z) : (pow2 (a - b) == pow2 a / pow2 b)%Q.
Proof. unfold pow2. apply Qpower.Qpower_minus. discriminate. Qed.

Lemma pow2_le (a b : Z) : (a <= b)%Z -> (pow2 a <= pow2 b)%Q.
Proof. intros H. apply Qpower.Qpower_le_compat_l; [exact H|discriminate]. Qed.

Lemma exponent_spec (q : Q) :
  (0 < q)%Q -> (pow2 (exponent q) <= q)%Q /\ (q < pow2 (exponent q + 1))%Q.
Proof.
  intros Hq. destruct q as [n d]. unfold exponent. cbn [Qnum Qden].
  assert (Hn : (0 < n)%Z) by (unfold Qlt in Hq; simpl in Hq; lia).
  pose proof (Z.log2_spec n Hn) as [Hn1 Hn2].
  pose proof (Z.log2_spec (Zpos d) ltac:(lia)) as [Hd1 Hd2].
  pose proof (Z.log2_nonneg n) as Ha. pose proof (Z.log2_nonneg (Zpos d)) as Hb.
  set (a := Z.log2 n) in *. set (b := Z.log2 (Zpos d)) in *.
  assert (Hup : (n # d < pow2 (a - b + 1))%Q).
  { replace (a - b + 1)%Z with (Z.succ a - b)%Z by lia.
    rewrite pow2_sub, !pow2_nonneg_exp by lia.
    apply Qlt_shift_div_l.
    - change 0%Q with (inject_Z 0). rewrite <- Zlt_Qlt. lia.
    - unfold Qlt, Qmult, inject_Z. cbn [Qnum Qden]. nia. }
  assert (Hlow : (pow2 (a - b - 1) <= n # d)%Q).
  { replace (a - b - 1)%Z with (a - Z.succ b)%Z by lia.
    rewrite pow2_sub, !pow2_nonneg_exp by lia.
    apply Qle_shift_div_r.
    - change 0%Q with (inject_Z 0). rewrite <- Zlt_Qlt. lia.
    - unfold Qle, Qmult, inject_Z. cbn [Qnum Qden]. nia. }
  destruct (Qle_bool (pow2 (a - b)) (n # d)) eqn:E.
  - apply Qle_bool_iff in E. split; [exact E|exact Hup].
  - split; [exact Hlow|]. replace (a - b - 1 + 1)%Z with (a - b)%Z by lia.
    apply Qnot_le_lt. intros H. apply Qle_bool_iff in H. congruence.
Qed.

Lemma exponent_unique (q : Q) (e : Z) :
  (pow2 e <= q)%Q -> (q < pow2 (e + 1))%Q -> exponent q = e.
Proof.
  intros H1 H2.
  assert (Hq : (0 < q)%Q) by (eapply Qlt_le_trans; [apply (pow2_pos e)|exact H1]).
  destruct (exponent_spec q Hq) as [G1 G2].
  destruct (Z.lt_trichotomy (exponent q) e) as [H|[H|H]]; [|exact H|]; exfalso.
  - assert (Hle : (pow2 (exponent q + 1) <= pow2 e)%Q) by (apply pow2_le; lia).
    apply (Qlt_irrefl q). eapply Qlt_le_trans; [exact G2|].
    eapply Qle_trans; [exact Hle|exact H1].
  - assert (Hle : (pow2 (e + 1) <= pow2 (exponent q))%Q) by (apply pow2_le; lia).
    apply (Qlt_irrefl q). eapply Qlt_le_trans; [exact H2|].
    eapply Qle_trans; [exact Hle|exact G1].
Qed.

Lemma round_half_even_Z (q : Q) (k : Z) :
  (q == inject_Z k)%Q -> round_half_even q = k.
Proof.
  intros H. unfold round_half_even.
  rewrite (Qfloor_comp _ _ H), Qfloor_Z.
  assert (Hz : (q - inject_Z k == 0)%Q) by (rewrite H; ring).
  now rewrite (Qcompare_comp _ _ Hz _ _ (Qeq_refl _)).
Qed.

(** An integer below [2 ^ 53] is a float64. *)
Lemma fl64_integer (q : Q) (k : Z) :
  (q == inject_Z k)%Q -> (0 <= k < 2 ^ 53)%Z -> (fl64 q == inject_Z k)%Q.
Proof.
  intros H Hk. unfold fl64.
  destruct (Z.eq_dec k 0) as [->|Hne].
  { now rewrite (Qcompare_comp _ _ H _ _ (Qeq_refl _)). }
  assert (Hpos : (0 < k)%Z) by lia.
  rewrite (Qcompare_comp _ _ H _ _ (Qeq_refl _)).
  replace (inject_Z k ?= 0)%Q with Gt
    by (symmetry; apply Qgt_alt; change 0%Q with (inject_Z 0); now rewrite <- Zlt_Qlt).
  pose proof (Z.log2_spec k Hpos) as [Hk1 Hk2].
  pose proof (Z.log2_nonneg k) as Hl.
  set (l := Z.log2 k) in *.
  assert (Hl52 : (l <= 52)%Z).
  { destruct (Z.le_gt_cases l 52) as [Hle|Hgt]; [exact Hle|exfalso].
    assert ((2 ^ 53 <= 2 ^ l)%Z) by (apply Z.pow_le_mono_r; lia). lia. }
  assert (He : exponent q = l).
  { apply exponent_unique; rewrite H, pow2_nonneg_exp by lia.
    - now rewrite <- Zle_Qle.
    - rewrite <- Zlt_Qlt. now rewrite <- Z.add_1_r in Hk2 || exact Hk2. }
  unfold fl64_pos. rewrite He.
  assert (Hscaled : (q / pow2 (l - 52) == inject_Z (k * 2 ^ (52 - l)))%Q).
  { rewrite H, pow2_sub, !pow2_nonneg_exp by lia.
    rewrite inject_Z_mult.
    assert (Hsplit : (2 ^ 52 = 2 ^ l * 2 ^ (52 - l))%Z)
      by (rewrite <- Z.pow_add_r by lia; f_equal; lia).
    rewrite Hsplit, inject_Z_mult. field.
    split; intros H0; [|]; revert H0; change 0%Q with (inject_Z 0);
      rewrite inject_Z_injective; lia. }
  rewrite (round_half_even_Z _ _ Hscaled).
  rewrite inject_Z_mult, pow2_sub, !pow2_nonneg_exp by lia.
  assert (Hsplit : (2 ^ 52 = 2 ^ l * 2 ^ (52 - l))%Z)
    by (rewrite <- Z.pow_add_r by lia; f_equal; lia).
  rewrite Hsplit, inject_Z_mult. field.
  split; intros H0; revert H0; change 0%Q with (inject_Z 0);
    rewrite inject_Z_injective; lia.
Qed.

End Float64.

(** ** The leak model ([SimulationJob.init], [SimulationJob.insert_leak]) *)

Module LeakModel.
Import Config Slices Float64.

Local Open Scope R_scope.

(** *** numpy on one-dimensional arrays *)

(** The least integer not below [x]. *)
Definition ceil (x : R) : Z := (1 - up (- x))%Z.

(** [np.arange(start, stop, step)] on floats: [ceil((stop - start) / step)]
    values [start + i * step]; a zero step raises. *)
Definition np_arange (start stop step : R) : option (list R) :=
  if Req_dec_T step 0 then None
  else
    let n := Z.to_nat (ceil ((stop - start) / step)) in
    Some (map (fun i => start + INR i * step) (seq 0 n)).

(** [np.zeros(n)]; a negative length raises. *)
Definition np_zeros (n : Z) : option (list R) :=
  if (n <? 0)%Z then None else Some (replicate (Z.to_nat n) 0).

(** [np.interp(x, np.arange(0, len(fp)), fp)] at one point [x]. *)
Definition interp_at (fp : list R) (x : R) : R :=
  let last := (length fp - 1)%nat in
  if Rle_dec x 0 then nth 0 fp 0
  else if Rle_dec (INR last) x then nth last fp 0
  else
    let i := Z.to_nat (Int_part x) in
    nth i fp 0 + (x - INR i) * (nth (S i) fp 0 - nth i fp 0).

(** [np.interp(xs, np.arange(0, len(fp)), fp)]; an empty [fp] raises. *)
Definition np_interp (xs fp : list R) : option (list R) :=
  match fp with
  | [] => None
  | _ => Some (map (interp_at fp) xs)
  end.

(** *** The demand pattern of an incipient leak *)

(** [0.75 * np.sqrt(2 / 1000) * 990.27 * np.pi * r ** 2] *)
Definition ramp_demand (r : R) : R :=
  0.75 * sqrt (2 / 1000) * 990.27 * PI * r ^ 2.

(** [0.75 * np.sqrt(2 / 1000) * 990.27 * (np.pi * (diameter / 2) ** 2)] *)
Definition leak_demand_constant (diameter : R) : R :=
  0.75 * sqrt (2 / 1000) * 990.27 * (PI * (diameter / 2) ^ 2).

(** The array [leak_ramp_up]. *)
Definition leak_ramp_up (diameter : R) (i_start i_peak : Z) : option (list R) :=
  if (i_peak =? i_start)%Z then Some []
  else
    let leak_radius_step := diameter / IZR (i_peak - i_start) / 2 in
    leak_radii ← np_arange leak_radius_step
                   (diameter / 2 + leak_radius_step * 0.5) leak_radius_step;
    Some (map ramp_demand leak_radii).

(** The array [pattern] as it stands after line 529, before resampling. *)
Definition leak_pattern (iterations : Z) (diameter : R) (i_start i_peak i_end : Z)
    : option (list R) :=
  ramp ← leak_ramp_up diameter i_start i_peak;
  pattern ← np_zeros iterations;
  pattern ← set_slice_array pattern i_start i_peak ramp;
  Some (set_slice_scalar pattern i_peak i_end (leak_demand_constant diameter)).

(** [np.arange(0, stop, step)] for an integer [stop] and a float [step]:
    the length is the ceiling of the float64 quotient [stop / step], the
    values are the float64 products [i * step]; a zero step raises. *)
Definition np_arange_from_0 (stop : Z) (step : Q) : option (list R) :=
  if Qeq_bool step 0 then None
  else
    let n := Z.to_nat (Qceiling (fl64 (fl64 (inject_Z stop) / step))) in
    Some (map (fun i => Q2R (fl64 (inject_Z (Z.of_nat i) * step))) (seq 0 n)).

(** Resampling when the pattern time step of the network differs from the
    time step of the simulation; [scaling_factor] is the float64 quotient
    of the two integers. *)
Definition resample (iterations time_step pattern_timestep : Z) (pattern : list R)
    : option (list R) :=
  if (pattern_timestep =? time_step)%Z then Some pattern
  else if (time_step =? 0)%Z then None
  else
    let scaling_factor := fl64 (inject_Z pattern_timestep / inject_Z time_step) in
    let stretched_max := (iterations * pattern_timestep)%Z in
    xs ← np_arange_from_0 stretched_max scaling_factor;
    np_interp xs pattern.

(** *** The simulator library

    What the generator calls of [wntr], on a network model of type [WN].
    A call that can raise returns an option; [None] is the exception. *)

Class Wntr (WN Results : Type) : Type := {
  (** [wntr.network.WaterNetworkModel(path)] *)
  WaterNetworkModel : string -> option WN;
  (** demand model 'PDD', [duration], hydraulic and report time step *)
  set_time_options : WN -> Z -> Z -> WN;
  node_name_list : WN -> list string;
  pattern_name_list : WN -> list string;
  (** [wn.options.time.pattern_timestep] *)
  pattern_timestep : WN -> Z;
  (** [wn.get_node(name).elevation] *)
  node_elevation : WN -> string -> option R;
  (** [wn.add_junction(name, elevation=e)] *)
  add_junction : WN -> string -> R -> option WN;
  (** [wn.add_pipe(name, start_node_name, end_node_name, length=0,
      diameter=100, roughness=1, minor_loss=0)] *)
  add_pipe : WN -> string -> string -> string -> option WN;
  (** [wntr.morph.split_pipe(wn, pipe, new_pipe, new_node, return_copy=False)] *)
  split_pipe : WN -> string -> string -> string -> option WN;
  (** [wn.get_node(name)]: the network when the node exists *)
  get_node : WN -> string -> option unit;
  (** [node.required_pressure = r; node.minimum_pressure = m] *)
  set_pressure_range : WN -> string -> R -> R -> WN;
  (** [wn.add_pattern(name, pattern)] *)
  add_pattern : WN -> string -> list R -> option WN;
  (** [node.add_demand(base, pattern_name)] *)
  add_demand : WN -> string -> R -> string -> option WN;
  (** [node.add_leak(wn, discharge_coeff, area, start_time, end_time)] *)
  add_leak : WN -> string -> R -> R -> Z -> Z -> option WN;
  (** [wntr.sim.WNTRSimulator(wn).run_sim()] *)
  run_sim : WN -> option Results;
  (** [results...loc[:, list(mask)]] for the three tables, and
      [<table>.astype(dtype)] of one of the selected tables ("pressure",
      "flow" or "demand"), which [save] calls table by table when the
      output is not csv; [None] when the conversion raises *)
  select_columns : Results -> SensorMask -> option Results;
  astype : Results -> string -> string -> option unit
}.

(** The result of a call: a value, or an exception. *)
Inductive result (A : Type) : Type :=
  | Ret (a : A)
  | Exc.
Arguments Ret {A} a.
Arguments Exc {A}.

Section InsertLeak.

Context {WN Results : Type} `{!Wntr WN Results}.

(** The loop that makes the pattern name unique.  It runs at most once per
    existing pattern name. *)
Fixpoint unique_pattern_name (fuel : nat) (names : list string)
    (leak_node_name pattern_name : string) (pattern_id : nat) : string :=
  if bool_decide (pattern_name ∈ names) then
    match fuel with
    | O => pattern_name
    | S fuel' =>
        unique_pattern_name fuel' names leak_node_name
          ("leak_pattern_" +:+ leak_node_name +:+ "_" +:+ pretty pattern_id)
          (S pattern_id)
    end
  else pattern_name.

(** The part of [insert_leak] under "Get leaky node": the network and the
    name of the leak node, or [None] when the leak names neither a node
    nor a pipe. *)
Definition resolve_leak_node (wn : WN) (leak_info : LeakInfo)
    : result (option (WN * string)) :=
  match nodeId leak_info with
  | Some leak_node_name =>
      if String.eqb (leak_type leak_info) "incipient" then
        let original_leak_node_name := leak_node_name in
        let leak_node_name := "leak_node_" +:+ original_leak_node_name in
        if bool_decide (leak_node_name ∈ node_name_list wn)
        then Ret (Some (wn, leak_node_name))
        else
          match node_elevation wn original_leak_node_name with
          | None => Exc
          | Some elevation =>
              match add_junction wn leak_node_name elevation with
              | None => Exc
              | Some wn =>
                  match add_pipe wn ("leak_segment_" +:+ leak_node_name)
                          original_leak_node_name leak_node_name with
                  | None => Exc
                  | Some wn => Ret (Some (wn, leak_node_name))
                  end
              end
          end
      else Ret (Some (wn, leak_node_name))
  | None =>
      match pipeId leak_info with
      | Some leak_pipe_name =>
          let leak_node_name := "leak_node_" +:+ leak_pipe_name in
          if bool_decide (leak_node_name ∈ node_name_list wn)
          then Ret (Some (wn, leak_node_name))
          else
            match split_pipe wn leak_pipe_name
                    ("leak_segment_" +:+ leak_pipe_name) leak_node_name with
            | None => Exc
            | Some wn => Ret (Some (wn, leak_node_name))
            end
      | None => Ret None
      end
  end.

(** The end of the incipient branch: the pattern is added under a name
    that no pattern has yet, and becomes the demand of the leak node. *)
Definition add_leak_pattern (wn : WN) (leak_node_name : string) (pattern : list R)
    : result (bool * WN) :=
  let pattern_name :=
    unique_pattern_name (length (pattern_name_list wn)) (pattern_name_list wn)
      leak_node_name ("leak_pattern_" +:+ leak_node_name) 1 in
  match add_pattern wn pattern_name pattern with
  | None => Exc
  | Some wn =>
      match add_demand wn leak_node_name 1 pattern_name with
      | None => Exc
      | Some wn => Ret (true, wn)
      end
  end.

(** The incipient branch, from the pressure range to [add_demand]. *)
Definition insert_incipient (iterations time_step : Z) (wn : WN)
    (leak_node_name : string) (diameter : R) (i_start i_peak i_end : Z)
    : result (bool * WN) :=
  let wn := set_pressure_range wn leak_node_name 100 0 in
  match leak_pattern iterations diameter i_start i_peak i_end with
  | None => Exc
  | Some pattern =>
      match resample iterations time_step (pattern_timestep wn) pattern with
      | None => Exc
      | Some pattern => add_leak_pattern wn leak_node_name pattern
      end
  end.

(** [insert_leak]: the value returned and the network afterwards. *)
Definition insert_leak (iterations time_step : Z) (wn : WN) (leak_info : LeakInfo)
    : result (bool * WN) :=
  let leak_type := leak_type leak_info in
  let diameter := Q2R (diameter leak_info) in
  let i_start := start leak_info in
  let i_end := end_ leak_info in
  let i_peak := peak leak_info in
  if String.eqb leak_type "incipient" && bool_decide (i_peak = None)
  then Ret (false, wn)
  else
    match resolve_leak_node wn leak_info with
    | Exc => Exc
    | Ret None => Ret (false, wn)
    | Ret (Some (wn, leak_node_name)) =>
        match get_node wn leak_node_name with
        | None => Exc
        | Some _ =>
            if String.eqb leak_type "incipient" then
              match i_peak with
              | Some i_peak =>
                  insert_incipient iterations time_step wn leak_node_name
                    diameter i_start i_peak i_end
              | None => Ret (false, wn)  (* excluded by the check above *)
              end
            else if String.eqb leak_type "abrupt" then
              let leak_area := PI * (diameter / 2) ^ 2 in
              match add_leak wn leak_node_name 0.75 leak_area
                      (i_start * time_step) (i_end * time_step) with
              | None => Exc
              | Some wn => Ret (true, wn)
              end
            else Ret (false, wn)
        end
    end.

(** [for leak in self.leaks: if not self.insert_leak(leak): return False] *)
Fixpoint insert_leaks (iterations time_step : Z) (wn : WN) (leaks : list LeakInfo)
    : result (bool * WN) :=
  match leaks with
  | [] => Ret (true, wn)
  | leak :: rest =>
      match insert_leak iterations time_step wn leak with
      | Exc => Exc
      | Ret (false, wn) => Ret (false, wn)
      | Ret (true, wn) => insert_leaks iterations time_step wn rest
      end
  end.

(** [SimulationJob.init] *)
Definition init (job : SimulationJob) : result (bool * WN) :=
  let network_path := network (scenario_config job) in
  let iterations := iterations (scenario_config job) in
  let time_step := timeStep (scenario_config job) in
  match WaterNetworkModel network_path with
  | None => Exc
  | Some wn =>
      let wn := set_time_options wn (iterations * time_step) time_step in
      insert_leaks iterations time_step wn (leaks job)
  end.

End InsertLeak.

(** *** A network that records its patterns

    The network is the list of the patterns added to it, with their
    names; every other call succeeds and changes nothing. *)


(** *** When an insertion is rejected *)

Section InsertLeakFacts.

Context {WN Results : Type} `{!Wntr WN Results}.







End InsertLeakFacts.

(** *** The pattern name *)

(** The names the loop tries, in order. *)
Definition candidate (leak_node_name : string) (i : nat) : string :=
  match i with
  | O => "leak_pattern_" +:+ leak_node_name
  | S _ => "leak_pattern_" +:+ leak_node_name +:+ "_" +:+ pretty i
  end.

Lemma append_inv_head (p a b : string) : p +:+ a = p +:+ b -> a = b.
Proof.
  induction p as [|c p IH]; intros H; [exact H|].
  rewrite !Selection.app_cons_str in H. injection H as H. auto.
Qed.

Lemma length_append (a b : string) :
  String.length (a +:+ b) = (String.length a + String.length b)%nat.
Proof.
  induction a as [|c a IH]; [reflexivity|].
  rewrite Selection.app_cons_str. simpl. now rewrite IH.
Qed.

Lemma candidate_inj node i j : candidate node i = candidate node j -> i = j.
Proof.
  unfold candidate. destruct i as [|i], j as [|j]; intros Heq; [reflexivity| | |].
  - exfalso. apply (f_equal String.length) in Heq.
    rewrite !length_append in Heq. simpl in Heq. lia.
  - exfalso. apply (f_equal String.length) in Heq.
    rewrite !length_append in Heq. simpl in Heq. lia.
  - do 3 apply append_inv_head in Heq. now apply (inj pretty) in Heq.
Qed.

Lemma unique_pattern_name_found names node : forall fuel i,
  (exists k, (i <= k <= i + fuel)%nat /\ candidate node k ∉ names) ->
  unique_pattern_name fuel names node (candidate node i) (S i) ∉ names.
Proof.
  induction fuel as [|fuel IH]; intros i (k & Hk & Hfresh); simpl.
  - assert (k = i) as -> by lia. now rewrite bool_decide_eq_false_2.
  - destruct (decide (candidate node i ∈ names)) as [Hin|Hout].
    + rewrite bool_decide_eq_true_2 by exact Hin.
      apply (IH (S i)). exists k. split; [|exact Hfresh].
      assert (k <> i) by (intros ->; contradiction). lia.
    + now rewrite bool_decide_eq_false_2.
Qed.

(** The name chosen is not among the existing pattern names: the loop ends
    before its bound. *)
Lemma unique_pattern_name_fresh names node :
  unique_pattern_name (length names) names node ("leak_pattern_" +:+ node) 1 ∉ names.
Proof.
  apply (unique_pattern_name_found names node (length names) 0).
  destruct (decide (Forall (fun k => candidate node k ∈ names) (seq 0 (S (length names)))))
    as [Hall|Hsome].
  - exfalso.
    assert (Hnd : NoDup (map (candidate node) (seq 0 (S (length names))))).
    { apply NoDup_fmap_2; [intros i j; apply candidate_inj|apply NoDup_seq]. }
    assert (Hsub : map (candidate node) (seq 0 (S (length names))) ⊆ names).
    { intros x Hx. apply list_elem_of_fmap in Hx as (k & -> & Hk).
      rewrite Forall_forall in Hall. now apply Hall. }
    pose proof (submseteq_length _ _ (NoDup_submseteq _ _ Hnd Hsub)) as Hlen.
    rewrite length_map, length_seq in Hlen. lia.
  - apply not_Forall_Exists in Hsome; [|intros k; apply _].
    apply Exists_exists in Hsome as (k & Hk & Hfresh).
    apply elem_of_seq in Hk. exists k. split; [lia|exact Hfresh].
Qed.

(** *** The pattern *)

Lemma ceil_spec (x : R) (z : Z) : IZR z - 1 < x -> x <= IZR z -> ceil x = z.
Proof.
  intros H1 H2. unfold ceil.
  assert (H : (1 - z)%Z = up (- x)).
  { apply tech_up; rewrite minus_IZR; lra. }
  rewrite <- H. lia.
Qed.


Lemma ramp_factor_pos : 0 < 0.75 * sqrt (2 / 1000) * 990.27 * PI.
Proof.
  assert (H1 : 0 < 0.75) by (unfold Q2R; simpl; lra).
  assert (H2 : 0 < 990.27) by (unfold Q2R; simpl; lra).
  assert (H3 : 0 < sqrt (2 / 1000)) by (apply sqrt_lt_R0; lra).
  pose proof PI_RGT_0 as H4.
  apply Rmult_lt_0_compat; [|exact H4].
  apply Rmult_lt_0_compat; [|exact H2].
  apply Rmult_lt_0_compat; assumption.
Qed.

Lemma ramp_demand_lt (a b s : R) :
  s <> 0 -> 0 < a -> a < b -> ramp_demand (a * s) < ramp_demand (b * s).
Proof.
  intros Hs Ha Hab. unfold ramp_demand.
  apply Rmult_lt_compat_l; [exact ramp_factor_pos|].
  replace ((a * s) ^ 2) with ((a * a) * (s * s)) by ring.
  replace ((b * s) ^ 2) with ((b * b) * (s * s)) by ring.
  apply Rmult_lt_compat_r; nra.
Qed.

Lemma leak_demand_constant_eq d :
  leak_demand_constant d = 0.75 * sqrt (2 / 1000) * 990.27 * PI * (d / 2) ^ 2.
Proof. unfold leak_demand_constant. ring. Qed.


(** Interpolation at a whole number reads the sample there, or the last
    sample beyond the end. *)
Lemma interp_at_whole (fp : list R) (i : nat) :
  interp_at fp (INR i) = nth (Nat.min i (length fp - 1)) fp 0.
Proof.
  unfold interp_at.
  destruct (Rle_dec (INR i) 0) as [H0|H0].
  - assert (i = 0%nat) as ->.
    { destruct i as [|i]; [reflexivity|]. exfalso.
      pose proof (lt_0_INR (S i) ltac:(lia)). lra. }
    reflexivity.
  - destruct (Rle_dec (INR (length fp - 1)) (INR i)) as [H1|H1].
    + apply INR_le in H1. now rewrite Nat.min_r by exact H1.
    + assert (i < length fp - 1)%nat.
      { apply INR_lt. lra. }
      rewrite Nat.min_l by lia.
      rewrite Int_part_INR, Nat2Z.id. ring.
Qed.

Lemma Q2R_inject_Z (z : Z) : Q2R (inject_Z z) = IZR z.
Proof. unfold Q2R. simpl. field. Qed.

(** Resampling when the pattern time step is [m >= 2] time steps and the
    numbers stay below [2 ^ 53], so that every float64 quotient and
    product is exact: the pattern is read at every [m]-th sample, and at
    its last sample beyond the end, [iterations * time_step] times. *)
Lemma resample_multiple (iterations time_step m : Z) (pattern : list R) :
  (0 < time_step)%Z -> (2 <= m)%Z -> (0 < iterations)%Z ->
  (iterations * (m * time_step) < 2 ^ 53)%Z -> pattern <> [] ->
  resample iterations time_step (m * time_step) pattern
  = Some (map (fun j => nth (Nat.min (j * Z.to_nat m) (length pattern - 1)) pattern 0)
              (seq 0 (Z.to_nat (iterations * time_step)))).
Proof.
  intros Hts Hm Hit Hbound Hpat. unfold resample.
  destruct (Z.eqb_spec (m * time_step) time_step) as [?|_]; [nia|].
  destruct (Z.eqb_spec time_step 0) as [?|_]; [lia|].
  assert (Hts0 : ~ (inject_Z time_step == 0)%Q).
  { change 0%Q with (inject_Z 0). rewrite inject_Z_injective. lia. }
  assert (Hm0 : ~ (inject_Z m == 0)%Q).
  { change 0%Q with (inject_Z 0). rewrite inject_Z_injective. lia. }
  set (scaling_factor := fl64 (inject_Z (m * time_step) / inject_Z time_step)).
  assert (Hs : (scaling_factor == inject_Z m)%Q).
  { apply fl64_integer; [|nia]. rewrite inject_Z_mult. now field. }
  unfold np_arange_from_0.
  destruct (Qeq_bool scaling_factor 0) eqn:E0.
  { exfalso. apply Qeq_bool_iff in E0. apply Hm0. now rewrite <- Hs. }
  assert (Hstop : (fl64 (inject_Z (iterations * (m * time_step)))
                   == inject_Z (iterations * (m * time_step)))%Q).
  { apply fl64_integer; [reflexivity|nia]. }
  assert (Hquot : (fl64 (inject_Z (iterations * (m * time_step))) / scaling_factor
                   == inject_Z (iterations * time_step))%Q).
  { rewrite Hstop, Hs, !inject_Z_mult. now field. }
  rewrite (Qceiling_comp _ _ (fl64_integer _ _ Hquot ltac:(nia))), Qceiling_Z.
  cbn [mbind option_bind]. unfold np_interp.
  destruct pattern as [|x pattern]; [contradiction|].
  f_equal. rewrite map_map. apply map_ext_in. intros j Hj.
  apply in_seq in Hj.
  assert (Hpos : (inject_Z (Z.of_nat j) * scaling_factor
                  == inject_Z (Z.of_nat j * m))%Q).
  { rewrite Hs, inject_Z_mult. reflexivity. }
  rewrite (Qreals.Qeq_eqR _ _ (fl64_integer _ _ Hpos ltac:(nia))), Q2R_inject_Z.
  replace (IZR (Z.of_nat j * m)) with (INR (j * Z.to_nat m)).
  - apply interp_at_whole.
  - rewrite INR_IZR_INZ. f_equal. lia.
Qed.

(** The number of resampled entries is the ceiling of a float64 quotient:
    for 30 iterations, a time step of 7 and a pattern time step of 300 the
    quotient is [210.00000000000003], and there are 211 entries. *)
Lemma resample_30_7_300 (pattern : list R) :
  pattern <> [] ->
  exists q, resample 30 7 300 pattern = Some q /\ length q = 211%nat.
Proof.
  intros Hpat. unfold resample.
  change (300 =? 7)%Z with false. change (7 =? 0)%Z with false. cbv beta iota.
  unfold np_arange_from_0.
  set (scaling_factor := fl64 (inject_Z 300 / inject_Z 7)).
  assert (E0 : Qeq_bool scaling_factor 0 = false) by (vm_compute; reflexivity).
  assert (En : Z.to_nat (Qceiling (fl64 (fl64 (inject_Z (30 * 300)) / scaling_factor)))
               = 211%nat) by (vm_compute; reflexivity).
  rewrite E0, En. cbn [mbind option_bind]. unfold np_interp.
  destruct pattern as [|x pattern]; [contradiction|].
  eexists. split; [reflexivity|]. now rewrite !length_map, length_seq.
Qed.






End LeakModel.

(** ** The worker ([SimulationJob.simulate], [SimulationJob.save],
       [Worker.worker]) *)

Module Worker.
Import Config FileSystem LeakModel.

Inductive exit_kind : Type :=
  | Finished      (* the function ran to its end *)
  | InitFailed    (* [job.init()] returned False: error printed, [return] *)
  | Raised.       (* an exception left the function *)

(** How a worker leaves a job: the shared counter, whether
    [condition.notify_all()] was called, and the file system. *)
Record worker_exit : Type := {
  exit : exit_kind;
  counter_after : Z;
  notified : bool;
  fs_after : FS
}.

Section Worker.

Context {WN Results : Type} `{!Wntr WN Results}.

(** [SimulationJob.save]: the three tables are selected, the results
    directory is made when it is missing, and the tables are written below
    it: as csv, or one after the other converted to the data type and
    pickled, so that a conversion that raises leaves the pickles of the
    tables before it. *)
Definition save (job : SimulationJob) (results : Results) (fs : FS)
    : Generator.outcome FS :=
  match select_columns results (sensor_mask job) with
  | None => Generator.Raises fs
  | Some tables =>
      let p := results_path job in
      let fs := if fs p then fs else makedirs p fs in
      if String.eqb (dtype job) "csv" then
        Generator.Returns
          (write_file (p ++ ["demand.csv"])
             (write_file (p ++ ["flow.csv"])
                (write_file (p ++ ["pressure.csv"]) fs)))
      else
        match astype tables "pressure" (dtype job) with
        | None => Generator.Raises fs
        | Some _ =>
            let fs := write_file (p ++ ["pressure.pkl"]) fs in
            match astype tables "flow" (dtype job) with
            | None => Generator.Raises fs
            | Some _ =>
                let fs := write_file (p ++ ["flow.pkl"]) fs in
                match astype tables "demand" (dtype job) with
                | None => Generator.Raises fs
                | Some _ => Generator.Returns (write_file (p ++ ["demand.pkl"]) fs)
                end
            end
        end
  end.

(** [Worker.worker job], with the counter as it stands when the predicate
    of [condition.wait_for] is run.  While the reservation fails the worker
    stays blocked: [None].  Otherwise the job runs; the counter afterwards
    is given for a worker that is alone on the budget in the meantime. *)
Definition worker (job : SimulationJob) (available_memory : Z) (fs : FS)
    : option worker_exit :=
  let '(reserved, c) :=
    MemoryBudget._reserve_memory available_memory (memory_estimate job) in
  if reserved then
    Some
      match init job with
      | Exc => {| exit := Raised; counter_after := c; notified := false; fs_after := fs |}
      | Ret (false, _) =>
          {| exit := InitFailed; counter_after := c; notified := false; fs_after := fs |}
      | Ret (true, wn) =>
          match run_sim wn with
          | None =>
              {| exit := Raised; counter_after := c; notified := false; fs_after := fs |}
          | Some results =>
              match save job results fs with
              | Generator.Raises fs' =>
                  {| exit := Raised; counter_after := c; notified := false;
                     fs_after := fs' |}
              | Generator.Returns fs' =>
                  {| exit := Finished;
                     counter_after :=
                       MemoryBudget._unreserve_memory c (memory_estimate job);
                     notified := true; fs_after := fs' |}
              end
          end
      end
  else None.


Lemma worker_init_failed (job : SimulationJob) c fs (wn' : WN) :
  fst (MemoryBudget._reserve_memory c (memory_estimate job)) = true ->
  init job = Ret (false, wn') ->
  worker job c fs
  = Some {| exit := InitFailed;
            counter_after := snd (MemoryBudget._reserve_memory c (memory_estimate job));
            notified := false; fs_after := fs |}.
Proof.
  intros Hres Hinit. unfold worker.
  destruct (MemoryBudget._reserve_memory c (memory_estimate job)) as [r c1].
  simpl in Hres. subst r. rewrite Hinit. reflexivity.
Qed.


(** The reservation is given back, and the waiters are notified, on the
    one path that reaches the end of [worker]. *)
Lemma worker_release_only_at_end (job : SimulationJob) c fs x :
  worker job c fs = Some x ->
  (notified x = true <-> exit x = Finished) /\
  (exit x <> Finished ->
   counter_after x = snd (MemoryBudget._reserve_memory c (memory_estimate job))) /\
  (exit x = Finished ->
   counter_after x
   = MemoryBudget._unreserve_memory
       (snd (MemoryBudget._reserve_memory c (memory_estimate job)))
       (memory_estimate job)).
Proof.
  unfold worker.
  destruct (MemoryBudget._reserve_memory c (memory_estimate job)) as [[] c1];
    [|discriminate].
  intros H. injection H as <-. simpl.
  destruct (init job) as [[[] wn]|]; simpl.
  - destruct (run_sim wn) as [res|]; simpl.
    + destruct (save job res fs); simpl; repeat split; congruence.
    + repeat split; congruence.
  - repeat split; congruence.
  - repeat split; congruence.
Qed.

End Worker.

(** *** A simulator that accepts everything, and two jobs *)

Definition sample_wntr : Wntr unit unit :=
  {| WaterNetworkModel := fun _ => Some tt;
     set_time_options := fun wn _ _ => wn;
     node_name_list := fun _ => ["n1"; "n2"; "n3"];
     pattern_name_list := fun _ => [];
     pattern_timestep := fun _ => 3600%Z;
     node_elevation := fun _ _ => Some 0%R;
     add_junction := fun wn _ _ => Some wn;
     add_pipe := fun wn _ _ _ => Some wn;
     split_pipe := fun wn _ _ _ => Some wn;
     get_node := fun _ _ => Some tt;
     set_pressure_range := fun wn _ _ _ => wn;
     add_pattern := fun wn _ _ => Some wn;
     add_demand := fun wn _ _ _ => Some wn;
     add_leak := fun wn _ _ _ _ _ => Some wn;
     run_sim := fun _ => Some tt;
     select_columns := fun r _ => Some r;
     astype := fun _ _ _ => Some tt |}.

Definition sample_job (leak : LeakInfo) : SimulationJob :=
  {| scenario_config := {| name := "A"; network := "/data/net/a.inp";
                           iterations := 100; timeStep := 60 |};
     leaks := [leak];
     job_leak_config_name := "L1";
     sensor_mask := inhabitant;
     results_path := ["collection"; "A"; "measurements"; "L1"];
     memory_estimate := 1212 # 1;
     dtype := "float16" |}.

(** An incipient leak without [peak]. *)
Definition leak_without_peak : LeakInfo :=
  {| leak_type := "incipient"; diameter := 1 # 100; start := 10; end_ := 40;
     peak := None; nodeId := Some "n3"; pipeId := None |}.

Definition abrupt_leak : LeakInfo :=
  {| leak_type := "abrupt"; diameter := 1 # 100; start := 10; end_ := 40;
     peak := None; nodeId := Some "n3"; pipeId := None |}.

(** C1, on the code.  A job of 1212 kB is admitted on a counter of 5000 kB.
    With a leak that [insert_leak] rejects, the worker returns after the
    failed [init] with the counter still at 3788 kB and without notifying
    anyone; the same job with an abrupt leak runs to the end, gives the
    1212 kB back and notifies. *)
Theorem failed_init_keeps_reservation :
  let fs0 := fs_of_list [] in
  (exists x, @worker unit unit sample_wntr (sample_job leak_without_peak) 5000 fs0 = Some x /\
     exit x = InitFailed /\ counter_after x = 3788%Z /\ notified x = false) /\
  (exists x, @worker unit unit sample_wntr (sample_job abrupt_leak) 5000 fs0 = Some x /\
     exit x = Finished /\ counter_after x = 5000%Z /\ notified x = true).
Proof.
  intros fs0. split; eexists; (split; [reflexivity|]); repeat split.
Qed.


End Worker.

(** ** The loader ([Scenario.get], [_apply_sensorfault]) *)

Module Loader.
Import Slices.

(** A [<Sensorfault>] element; [F] is the type of a measurement sample. *)
Record SensorFault (F : Type) : Type := {
  partId : string;
  sensorType : string;
  start : Z;
  end_ : Z;
  faultType : string;
  faultParam : option F
}.
Arguments partId {F} s.
Arguments sensorType {F} s.
Arguments start {F} s.
Arguments end_ {F} s.
Arguments faultType {F} s.
Arguments faultParam {F} s.

(** [x[:-4]], with which [Scenario.list_configs] turns the file names of
    the [sensors] and [sensorfaults] directories into config names. *)
Definition strip4 (x : string) : string :=
  String.substring 0 (String.length x - 4) x.

(** [Scenario.list_configs], from the listings of the three directories. *)
Definition list_configs (measurements sensors sensorfaults : list string)
    : list string * list string * list string :=
  (measurements, map strip4 sensors, map strip4 sensorfaults).

(** What is stored below one scenario directory. *)
Record ScenarioDir (F : Type) : Type := {
  (** [os.listdir(measurements)] *)
  measurement_dirs : list string;
  (** [os.listdir(sensors)] and [os.listdir(sensorfaults)]: file names *)
  sensor_listing : list string;
  sensorfault_listing : list string;
  (** [sensors/<name>.xml], by [<name>]: the ids listed under each tag;
      no entry when there is no such file *)
  sensor_files : gmap string (gmap string (list string));
  (** [sensorfaults/<name>.xml], by [<name>]: the content of the file *)
  sensorfault_files : gmap string string;
  (** [measurements/<leak config>/]: the tables demand, flow, pressure,
      each a map from column name to column *)
  tables : gmap string (gmap string (gmap string (list F)))
}.
Arguments measurement_dirs {F} s.
Arguments sensor_listing {F} s.
Arguments sensorfault_listing {F} s.
Arguments sensor_files {F} s.
Arguments sensorfault_files {F} s.
Arguments tables {F} s.

Section Loader.

(** Samples and the arithmetic pandas applies to them. *)
Variable F : Type.
Variable fadd fmul : F -> F -> F.
Variable of_int : Z -> F.
Variable nan : F.

(** The numpy random generator: [np.random.default_rng(seed)] and
    [rng.normal(loc, scale, size)], which also advances the generator. *)
Variable Rng : Type.
Variable default_rng : Z -> Rng.
Variable rng_normal : Rng -> F -> F -> nat -> list F * Rng.

(** [lxml.etree.parse] of a sensorfault file with its attributes converted
    ([None] when that raises), and
    [int(hashlib.sha1(text.encode("utf-8")).hexdigest(), 16)]. *)
Variable parse_sensorfaults : string -> option (list (SensorFault F)).
Variable sha1_int : string -> Z.

Definition column : Type := list F.
Definition frame : Type := gmap string column.

(** [xs op v] for a column slice [xs] and an array [v]: equal lengths, or
    [v] of length 1; otherwise [ValueError]. *)
Definition elementwise (op : F -> F -> F) (xs v : list F) : option (list F) :=
  if (length v =? length xs)%nat then Some (zip_with op xs v)
  else match v with
       | [y] => Some (map (fun x => op x y) xs)
       | _ => None
       end.

(** [np.arange(n) + 1] *)
Definition steps (n : Z) : list Z := map (fun i => (Z.of_nat i + 1)%Z) (seq 0 (Z.to_nat n)).

(** [df.iloc[a:b] = df.iloc[a:b] op v] *)
Definition update_slice (op : F -> F -> F) (df : column) (a b : Z) (v : list F)
    : option column :=
  new ← elementwise op (get_slice df a b) v;
  set_slice_array df a b new.

(** [df.iloc[a:b] = g(df.iloc[a:b])] for an operation with a single number. *)
Definition map_slice (g : F -> F) (df : column) (a b : Z) : column :=
  let '(lo, hi) := slice_bounds (length df) a b in
  take lo df ++ map g (take (hi - lo) (drop lo df)) ++ drop hi df.

(** [_apply_sensorfault(df, start, end, fault_type, fault_param, rng)]:
    the column returned and the generator afterwards. *)
Definition _apply_sensorfault (df : column) (start end_ : Z) (fault_type : string)
    (fault_param : option F) (rng : Rng) : option (column * Rng) :=
  if String.eqb fault_type "constant" then
    Some (set_slice_scalar df start end_ (default nan fault_param), rng)
  else if String.eqb fault_type "drift" then
    p ← fault_param;
    let step := steps (end_ - start) in
    df' ← update_slice fadd df start end_ (map (fun k => fmul p (of_int k)) step);
    Some (df', rng)
  else if String.eqb fault_type "normal" then
    p ← fault_param;
    if (end_ - start <? 0)%Z then None
    else
      let '(draws, rng') := rng_normal rng (of_int 1) p (Z.to_nat (end_ - start)) in
      df' ← update_slice fadd df start end_ draws;
      Some (df', rng')
  else if String.eqb fault_type "percentage" then
    p ← fault_param;
    Some (map_slice (fun x => fmul x p) df start end_, rng)
  else if String.eqb fault_type "shift" then
    p ← fault_param;
    Some (map_slice (fun x => fadd x p) df start end_, rng)
  else if String.eqb fault_type "stuckzero" then
    Some (set_slice_scalar df start end_ (of_int 0), rng)
  else Some (df, rng).

(** One pass of [for config in sensorfault_config] in [Scenario.get]. *)
Definition apply_config (st : gmap string frame * Rng) (config : SensorFault F)
    : option (gmap string frame * Rng) :=
  let '(data, rng) := st in
  table ← data !! sensorType config;
  match table !! partId config with
  | None => Some (data, rng)
  | Some col =>
      match faultParam config, String.eqb (faultType config) "stuckzero" with
      | None, false => Some (data, rng)
      | fault_param, _ =>
          '(col', rng') ← _apply_sensorfault col (start config) (end_ config)
                            (faultType config) fault_param rng;
          Some (<[sensorType config := <[partId config := col']> table]> data, rng')
      end
  end.

Fixpoint apply_configs (configs : list (SensorFault F)) (st : gmap string frame * Rng)
    : option (gmap string frame * Rng) :=
  match configs with
  | [] => Some st
  | config :: rest => st' ← apply_config st config; apply_configs rest st'
  end.

(** [table.loc[:, ids]]: the listed columns; [KeyError] when one is missing. *)
Definition select (table : frame) (ids : list string) : option frame :=
  if forallb (fun i => bool_decide (is_Some (table !! i))) ids
  then Some (filter (fun kv => fst kv ∈ ids) table)
  else None.

(** The first half of [Scenario.get]: the check of the three names against
    [list_configs()], then the sensor config parsed from
    [sensors/<name>.xml] and the masked tables.  The outer option is the
    exception (a file that is missing, a sensor that is no column), the
    inner one the [None] that [get] returns for a name that is not
    listed. *)
Definition load_masked (dir : ScenarioDir F)
    (leak_config sensor_config_name sensorfault_config_name : string)
    : option (option (gmap string frame)) :=
  let configs := list_configs (measurement_dirs dir) (sensor_listing dir)
                   (sensorfault_listing dir) in
  if bool_decide (leak_config ∈ fst (fst configs))
     && bool_decide (sensor_config_name ∈ snd (fst configs))
     && bool_decide (sensorfault_config_name ∈ snd configs)
  then
    mask ← sensor_files dir !! sensor_config_name;
    stored ← tables dir !! leak_config;
    demand ← stored !! "demand";
    demand_ids ← mask !! "DemandSensors";
    demand ← select demand demand_ids;
    flow ← stored !! "flow";
    flow_ids ← mask !! "FlowSensors";
    flow ← select flow flow_ids;
    pressure ← stored !! "pressure";
    pressure_ids ← mask !! "PressureSensors";
    pressure ← select pressure pressure_ids;
    Some (Some (<["demand" := demand]> (<["flow" := flow]> {["pressure" := pressure]})))
  else Some None.

(** [Scenario.get] *)
Definition get (dir : ScenarioDir F)
    (leak_config sensor_config_name sensorfault_config_name : string)
    : option (option (gmap string frame)) :=
  loaded ← load_masked dir leak_config sensor_config_name sensorfault_config_name;
  match loaded with
  | None => Some None
  | Some data =>
      sensorfault_config_text ← sensorfault_files dir !! sensorfault_config_name;
      sensorfault_config ← parse_sensorfaults sensorfault_config_text;
      let seed := sha1_int sensorfault_config_text in
      let rng := default_rng seed in
      st ← apply_configs sensorfault_config (data, rng);
      Some (Some (fst st))
  end.

(** *** The effect of a fault on its window *)

(** [window g df df' a b]: [df'] is [df] with the [k]-th sample of the
    window [a, b) (counted from 1) replaced by [g k] of it. *)
Definition window (g : Z -> F -> F) (df df' : list F) (a b : Z) : Prop :=
  length df' = length df /\
  forall (k : nat) x, df !! k = Some x ->
    df' !! k = Some (if decide (a <= Z.of_nat k < b)%Z
                     then g (Z.of_nat k - a + 1)%Z x else x).

Lemma splice_window (g : Z -> F -> F) (df v : list F) (a b : Z) :
  (0 <= a <= b)%Z -> (b <= Z.of_nat (length df))%Z ->
  length v = Z.to_nat (b - a) ->
  (forall (k : nat) x, (a <= Z.of_nat k < b)%Z -> df !! k = Some x ->
     v !! (k - Z.to_nat a)%nat = Some (g (Z.of_nat k - a + 1)%Z x)) ->
  window g df (take (Z.to_nat a) df ++ v ++ drop (Z.to_nat b) df) a b.
Proof.
  intros Hab Hb Hv Hin. split.
  - apply length_splice; lia.
  - intros k x Hx. rewrite lookup_splice by lia.
    destruct (decide (a <= Z.of_nat k < b)%Z) as [Hk|Hk].
    + rewrite decide_True by lia. now apply Hin.
    + rewrite decide_False by lia. exact Hx.
Qed.

Lemma lookup_window_slice (df : list F) (a b : Z) (k : nat) :
  (0 <= a <= b)%Z -> (a <= Z.of_nat k < b)%Z ->
  take (Z.to_nat (b - a)) (drop (Z.to_nat a) df) !! (k - Z.to_nat a)%nat = df !! k.
Proof.
  intros Hab Hk. rewrite lookup_take_lt by lia. rewrite lookup_drop. f_equal. lia.
Qed.

Lemma map_slice_window (g : F -> F) (df : list F) (a b : Z) :
  (0 <= a <= b)%Z -> (b <= Z.of_nat (length df))%Z ->
  window (fun _ => g) df (map_slice g df a b) a b.
Proof.
  intros Hab Hb. unfold map_slice. rewrite slice_bounds_in by assumption.
  replace (Z.to_nat b - Z.to_nat a)%nat with (Z.to_nat (b - a)) by lia.
  apply splice_window; try assumption.
  - rewrite length_map, length_take, length_drop. lia.
  - intros k x Hk Hx. rewrite list_lookup_fmap, lookup_window_slice by lia.
    now rewrite Hx.
Qed.

Lemma set_scalar_window (c : F) (df : list F) (a b : Z) :
  (0 <= a <= b)%Z -> (b <= Z.of_nat (length df))%Z ->
  window (fun _ _ => c) df (set_slice_scalar df a b c) a b.
Proof.
  intros Hab Hb. rewrite set_slice_scalar_in by assumption.
  apply splice_window; try assumption.
  - apply length_replicate.
  - intros k x Hk _. apply lookup_replicate_2. lia.
Qed.

Lemma steps_lookup (n : Z) (i : nat) :
  (Z.of_nat i < n)%Z -> steps n !! i = Some (Z.of_nat i + 1)%Z.
Proof.
  intros Hi. unfold steps. rewrite list_lookup_fmap, lookup_seq_lt by lia.
  reflexivity.
Qed.

Lemma update_slice_window (op : F -> F -> F) (h : Z -> F) (df : list F) (a b : Z) :
  (0 <= a <= b)%Z -> (b <= Z.of_nat (length df))%Z ->
  exists df', update_slice op df a b (map h (steps (b - a))) = Some df' /\
    window (fun k x => op x (h k)) df df' a b.
Proof.
  intros Hab Hb. unfold update_slice, elementwise.
  rewrite get_slice_in by assumption.
  set (xs := take (Z.to_nat (b - a)) (drop (Z.to_nat a) df)).
  assert (Hxs : length xs = Z.to_nat (b - a)).
  { subst xs. rewrite length_take, length_drop. lia. }
  assert (Hv : length (map h (steps (b - a))) = Z.to_nat (b - a)).
  { unfold steps. now rewrite !length_map, length_seq. }
  rewrite Hv, Hxs, Nat.eqb_refl. cbn [mbind option_bind].
  rewrite set_slice_array_in; try assumption;
    [|rewrite length_zip_with; lia].
  eexists. split; [reflexivity|].
  apply splice_window; try assumption.
  - rewrite length_zip_with. lia.
  - intros k x Hk Hx. rewrite lookup_zip_with. subst xs.
    rewrite lookup_window_slice, Hx by lia. cbn [mbind option_bind].
    rewrite list_lookup_fmap, steps_lookup by lia. cbn.
    do 3 f_equal. lia.
Qed.

(** C6. On a window [a, b) inside the column, [_apply_sensorfault]
    returns a column of the same length that agrees with the old one
    outside the window and holds inside it: the parameter for constant; the
    sample plus the parameter times [k] at the [k]-th window sample
    ([k = 1 .. b - a]) for drift; the sample times the parameter for
    percentage; the sample plus the parameter for shift; 0 for stuckzero.
    A fault type that is none of the six returns the column as it is, for
    any window.  In [Scenario.get], a fault whose [partId] is not a column
    of the loaded table of its sensor type changes nothing and raises
    nothing. *)
Theorem sensor_fault_effects :
  forall (df : column) (a b : Z) (p : F) (rng : Rng),
    (0 <= a <= b)%Z -> (b <= Z.of_nat (length df))%Z ->
    (exists df', _apply_sensorfault df a b "constant" (Some p) rng = Some (df', rng) /\
       window (fun _ _ => p) df df' a b) /\
    (exists df', _apply_sensorfault df a b "drift" (Some p) rng = Some (df', rng) /\
       window (fun k x => fadd x (fmul p (of_int k))) df df' a b) /\
    (exists df', _apply_sensorfault df a b "percentage" (Some p) rng = Some (df', rng) /\
       window (fun _ x => fmul x p) df df' a b) /\
    (exists df', _apply_sensorfault df a b "shift" (Some p) rng = Some (df', rng) /\
       window (fun _ x => fadd x p) df df' a b) /\
    (forall param,
     exists df', _apply_sensorfault df a b "stuckzero" param rng = Some (df', rng) /\
       window (fun _ _ => of_int 0) df df' a b) /\
    (forall fault_type param a' b',
       fault_type ∉ ["constant"; "drift"; "normal"; "percentage"; "shift"; "stuckzero"] ->
       _apply_sensorfault df a' b' fault_type param rng = Some (df, rng)) /\
    (forall (data : gmap string frame) (config : SensorFault F) (table : frame),
       data !! sensorType config = Some table ->
       table !! partId config = None ->
       apply_config (data, rng) config = Some (data, rng)).
Proof.
  intros df a b p rng Hab Hb.
  split; [|split; [|split; [|split; [|split; [|split]]]]].
  - eexists. split; [reflexivity|]. now apply set_scalar_window.
  - destruct (update_slice_window fadd (fun k => fmul p (of_int k)) df a b Hab Hb)
      as (df' & Hup & Hw).
    exists df'. split; [|exact Hw].
    unfold _apply_sensorfault. cbn [String.eqb Ascii.eqb Bool.eqb mbind option_bind].
    rewrite Hup. reflexivity.
  - eexists. split; [reflexivity|]. now apply map_slice_window.
  - eexists. split; [reflexivity|]. now apply map_slice_window.
  - intros param. eexists. split; [reflexivity|]. now apply set_scalar_window.
  - intros ty param a' b' Hty. unfold _apply_sensorfault.
    repeat match goal with
           | |- context [String.eqb ty ?s] =>
               destruct (String.eqb_spec ty s) as [Heq|_];
               [exfalso; apply Hty; rewrite Heq;
                repeat first [apply list_elem_of_here|apply list_elem_of_further]|]
           end.
    reflexivity.
  - intros data config table Hdata Hcol. unfold apply_config.
    rewrite Hdata. cbn [mbind option_bind]. rewrite Hcol. reflexivity.
Qed.

End Loader.

(** *** The loader on integer samples

    Samples are integers with their sum and product; the generator is a
    counter whose draws are [loc + scale * state]. *)

Definition sample_normal (rng loc scale : Z) (size : nat) : list Z * Z :=
  (replicate size (loc + scale * rng)%Z, (rng + 1)%Z).

Definition sample_apply :=
  _apply_sensorfault Z Z.add Z.mul (fun z => z) 0%Z Z sample_normal.

Example drift_adds_multiples :
  sample_apply [10; 20; 30; 40; 50]%Z 1 4 "drift" (Some 3%Z) 7%Z
  = Some ([10; 23; 36; 49; 50]%Z, 7%Z).
Proof. reflexivity. Qed.

Example percentage_multiplies :
  sample_apply [10; 20; 30; 40; 50]%Z 1 4 "percentage" (Some 3%Z) 7%Z
  = Some ([10; 60; 90; 120; 50]%Z, 7%Z).
Proof. reflexivity. Qed.

Example stuckzero_without_parameter :
  sample_apply [10; 20; 30; 40; 50]%Z 1 4 "stuckzero" None 7%Z
  = Some ([10; 0; 0; 0; 50]%Z, 7%Z).
Proof. reflexivity. Qed.

(** A drift over a window that runs past the end of the column: the slice
    has 4 samples, the steps are 8, and the addition raises. *)
Example drift_window_past_end_raises :
  sample_apply [10; 20; 30; 40; 50]%Z 1 9 "drift" (Some 3%Z) 7%Z = None.
Proof. reflexivity. Qed.

(** The column [10, 20, 30, 40, 50] with the window [1, 4) and the
    parameter 3. *)
Lemma sensor_fault_effects_witness :
  (exists df', sample_apply [10; 20; 30; 40; 50]%Z 1 4 "drift" (Some 3%Z) 7%Z
               = Some (df', 7%Z) /\
     window Z (fun k x => (x + 3 * k)%Z) [10; 20; 30; 40; 50]%Z df' 1 4) /\
  sample_apply [10; 20; 30; 40; 50]%Z 0 5 "offset" (Some 3%Z) 7%Z
  = Some ([10; 20; 30; 40; 50]%Z, 7%Z).
Proof.
  destruct (sensor_fault_effects Z Z.add Z.mul (fun z => z) 0%Z Z sample_normal
              [10; 20; 30; 40; 50]%Z 1 4 3%Z 7%Z)
    as (_ & Hdrift & _ & _ & _ & Hunknown & _).
  - lia.
  - simpl. lia.
  - split; [exact Hdrift|]. apply Hunknown.
    intros H. repeat (apply elem_of_cons in H as [H|H]; [discriminate H|]).
    inversion H.
Defined.

Definition sample_parse (text : string) : option (list (SensorFault Z)) :=
  if String.eqb text "" then None
  else Some [{| partId := "n1"; sensorType := "pressure"; start := 1; end_ := 3;
                faultType := "normal"; faultParam := Some 2%Z |}].

Definition sample_dir (extra : list string) : ScenarioDir Z :=
  {| measurement_dirs := "L1" :: extra;
     sensor_listing := ["S1.xml"];
     sensorfault_listing := ["F1.xml"];
     sensor_files :=
       {["S1" := <["DemandSensors" := []]> (<["FlowSensors" := []]>
                   {["PressureSensors" := ["n1"]]})]};
     sensorfault_files := {["F1" := "<SensorfaultConfig name='F1'/>"]};
     tables :=
       {["L1" := <["demand" := ∅]> (<["flow" := ∅]>
                   {["pressure" := {["n1" := [5; 5; 5; 5]%Z; "n2" := [1; 1; 1; 1]%Z]}]})]} |}.

Definition sample_get (dir : ScenarioDir Z) :=
  get Z Z.add Z.mul (fun z => z) 0%Z Z (fun seed => seed) sample_normal
    sample_parse (fun text => Z.of_nat (String.length text)) dir "L1" "S1" "F1".

End Loader.

(** * Further properties of the generator, the worker, the leak model and
      the loader

    The modules below extend the development to the functions around the
    ones above: the whole of job creation and what it leaves on disk, the
    sensor masks, the worker and [save], the leak pattern in general, and
    the loader on arbitrary windows and names. *)

(** ** Job creation: which jobs are made, in which order, and what is on
       disk for them *)

Module JobCreation.
Import Config FileSystem Selection Generator.

(** *** What the writers and [rmtree] change *)

Lemma rmtree_effect (p q : path) (fs : FS) :
  (rmtree p fs q = true -> fs q = true) /\
  (fs q = true -> rmtree p fs q = false -> under p q = true).
Proof.
  unfold rmtree. split.
  - intros H. apply andb_prop in H as [H _]. exact H.
  - intros -> H. simpl in H. now apply negb_false_iff in H.
Qed.

Lemma under_snoc (q p : path) (x : string) :
  under q (p ++ [x]) = true -> under q p = true \/ q = p ++ [x].
Proof.
  intros H. apply under_inv in H as [r H].
  destruct r as [|y r _] using rev_ind.
  - right. now rewrite app_nil_r in H.
  - left. rewrite app_assoc in H. apply app_inj_tail in H as [-> _].
    apply under_app.
Qed.

Lemma write_config_effect (n : string) (p q : path) (fs : FS) :
  (fs q = true -> write_config n p fs q = true) /\
  (fs q = false -> write_config n p fs q = true ->
     under q p = true \/ q = p ++ [n +:+ ".xml"]) /\
  write_config n p fs (p ++ [n +:+ ".xml"]) = true.
Proof.
  unfold write_config, write_xml_warn_if_changed, write_file, makedirs.
  split; [|split].
  - intros H. destruct (fs p); rewrite H; reflexivity.
  - intros H. destruct (fs p); rewrite H; simpl.
    + intros Hq. right. now apply bool_decide_eq_true in Hq.
    + intros Hq. apply orb_prop in Hq as [Hq|Hq]; [now left|].
      right. now apply bool_decide_eq_true in Hq.
  - rewrite bool_decide_eq_true_2 by reflexivity. apply orb_true_r.
Qed.

Lemma write_topology_effect (p q : path) (fs : FS) :
  (fs q = true -> write_topology p fs q = true) /\
  (fs q = false -> write_topology p fs q = true ->
     under q p = true \/ q = p ++ ["topology.xml"]) /\
  write_topology p fs (p ++ ["topology.xml"]) = true.
Proof.
  unfold write_topology, write_xml_warn_if_changed, write_file, makedirs.
  split; [|split].
  - intros H. destruct (fs p); rewrite H; reflexivity.
  - intros H. destruct (fs p); rewrite H; simpl.
    + intros Hq. right. now apply bool_decide_eq_true in Hq.
    + intros Hq. apply orb_prop in Hq as [Hq|Hq]; [now left|].
      right. now apply bool_decide_eq_true in Hq.
  - rewrite bool_decide_eq_true_2 by reflexivity. apply orb_true_r.
Qed.

Lemma write_config_collection_effect (ns : list string) (p : path) : forall (fs : FS),
  (forall q, fs q = true -> write_config_collection ns p fs q = true) /\
  (forall q, fs q = false -> write_config_collection ns p fs q = true ->
     under q p = true \/ exists n, n ∈ ns /\ q = p ++ [n +:+ ".xml"]) /\
  (forall n, n ∈ ns -> write_config_collection ns p fs (p ++ [n +:+ ".xml"]) = true).
Proof.
  unfold write_config_collection.
  induction ns as [|n ns IH]; intros fs; simpl.
  - split; [auto|]. split; [congruence|]. intros n Hn. inversion Hn.
  - destruct (IH (write_config n p fs)) as (I1 & I2 & I3).
    split; [|split].
    + intros q H. apply I1. destruct (write_config_effect n p q fs) as (W1 & _). auto.
    + intros q H0 H1. destruct (write_config n p fs q) eqn:E.
      * destruct (write_config_effect n p q fs) as (_ & W2 & _).
        destruct (W2 H0 E) as [H|H]; [now left|].
        right. exists n. split; [apply list_elem_of_here|exact H].
      * destruct (I2 q E H1) as [H|(m & Hm & H)]; [now left|].
        right. exists m. split; [now apply list_elem_of_further|exact H].
    + intros m Hm. apply elem_of_cons in Hm as [->|Hm]; [|now apply I3].
      apply I1. destruct (write_config_effect n p (p ++ [n +:+ ".xml"]) fs) as (_ & _ & W3).
      exact W3.
Qed.


Section JobCreation.

Variable WaterNetworkModel : Type.
Variable load_network : string -> option WaterNetworkModel.
Variable n_nodes n_links : WaterNetworkModel -> Z.
Variable getsize : string -> Z.

Variable self : ScenarioGenerator.
Variable sensor_masks : gmap string SensorMask.

Local Abbreviation cp := (collection_path self).
Local Abbreviation sel := (selection self).
Local Abbreviation estimate :=
  (estimate_wn_memory WaterNetworkModel n_nodes n_links getsize).
Local Abbreviation body :=
  (scenario_body WaterNetworkModel load_network n_nodes n_links getsize self sensor_masks).
Local Abbreviation loop :=
  (scenarios_loop WaterNetworkModel load_network n_nodes n_links getsize self sensor_masks).
Local Abbreviation create :=
  (create_job_list_and_write_configs WaterNetworkModel load_network n_nodes n_links
     getsize self sensor_masks).

(** The job that line 234 appends for a leak config of a scenario. *)
Definition job_of (scenario : ScenarioConfig) (estimated_memory : Q) (lc : LeakConfig)
    : SimulationJob :=
  {| scenario_config := scenario;
     leaks := leak_infos lc;
     job_leak_config_name := leak_config_name lc;
     sensor_mask := sensor_masks !!! name scenario;
     results_path := scenario_path_of cp (name scenario)
                       ++ ["measurements"; leak_config_name lc];
     memory_estimate := estimated_memory;
     dtype := gen_dtype self |}.

(** The leak configs of a scenario, in the order of the configuration. *)
Definition leak_configs_of (ccs : list ConfigCollection) : list LeakConfig :=
  flat_map (fun cc => match cc with LeakConfigs cs => cs | _ => [] end) ccs.

(** The jobs of all leak configs of all scenarios whose network loads, in
    the order of the configuration. *)
Definition jobs_of_scenario (sc : Scenario) : list SimulationJob :=
  match load_network (network (absolute_attrib self sc)) with
  | Some wn =>
      map (job_of (absolute_attrib self sc) (estimate wn (absolute_attrib self sc)))
          (leak_configs_of (children sc))
  | None => []
  end.

Definition possible_jobs (scs : list Scenario) : list SimulationJob :=
  flat_map jobs_of_scenario scs.

(** [appends l st st']: the job list of [st'] is that of [st] followed by
    jobs picked, in order, from [l]. *)
Definition appends (l : list SimulationJob) (st st' : GenState) : Prop :=
  exists new, job_list st' = job_list st ++ new /\ new `sublist_of` l.

Lemma appends_none l st st' : job_list st' = job_list st -> appends l st st'.
Proof.
  intros H. exists []. split; [now rewrite app_nil_r|apply sublist_nil_l].
Qed.

Lemma appends_app l1 l2 st1 st2 st3 :
  appends l1 st1 st2 -> appends l2 st2 st3 -> appends (l1 ++ l2) st1 st3.
Proof.
  intros (n1 & J1 & S1) (n2 & J2 & S2). exists (n1 ++ n2).
  split; [rewrite J2, J1, app_assoc; reflexivity|now apply sublist_app].
Qed.

Lemma leak_config_body_appends scenario est st lc :
  appends [job_of scenario est lc] st (leak_config_body self sensor_masks scenario est st lc).
Proof.
  unfold leak_config_body.
  destruct (force_regenerate self && _); (destruct (negb _); [now apply appends_none|]);
    (match goal with |- context [if ?b then _ else _] => destruct b end;
     [now apply appends_none|]);
    (eexists; split; [reflexivity|reflexivity]).
Qed.

Lemma leak_configs_append scenario est cs : forall st,
  appends (map (job_of scenario est) cs) st
          (foldl (leak_config_body self sensor_masks scenario est) st cs).
Proof.
  induction cs as [|lc cs IH]; intros st; simpl; [now apply appends_none|].
  apply (appends_app [_] _ st _ _ (leak_config_body_appends scenario est st lc)).
  apply IH.
Qed.

Lemma collections_append scenario est ccs : forall st,
  appends (map (job_of scenario est) (leak_configs_of ccs)) st
          (foldl (collection_body self sensor_masks scenario est) st ccs).
Proof.
  induction ccs as [|cc ccs IH]; intros st; simpl; [now apply appends_none|].
  rewrite map_app. eapply appends_app; [|apply IH].
  destruct cc as [cs|cs|cs]; simpl; try (now apply appends_none).
  apply leak_configs_append.
Qed.

Lemma scenario_body_appends st sc :
  appends (jobs_of_scenario sc) st (state_of (body st sc)).
Proof.
  unfold scenario_body, jobs_of_scenario.
  set (st1 := if force_regenerate self && _ then _ else st).
  assert (H1 : job_list st1 = job_list st).
  { subst st1. destruct (force_regenerate self && _); reflexivity. }
  destruct (negb _); simpl; [now apply appends_none|].
  destruct (load_network _) as [wn|]; simpl; [|now apply appends_none].
  destruct (Py.ltb _ _); simpl; [now apply appends_none|].
  destruct (collections_append (absolute_attrib self sc)
              (estimate wn (absolute_attrib self sc)) (children sc)
              (note_estimate (estimate wn (absolute_attrib self sc))
                 (with_fs (write_topology (scenario_path_of cp (name (attrib sc)))) st1)))
    as (new & J & S).
  exists new. split; [|exact S]. rewrite J. simpl. now rewrite H1.
Qed.

Lemma scenarios_loop_appends scs : forall st,
  appends (possible_jobs scs) st (state_of (loop scs st)).
Proof.
  induction scs as [|sc scs IH]; intros st; simpl; [now apply appends_none|].
  pose proof (scenario_body_appends st sc) as H.
  destruct (body st sc) as [st'|st'] eqn:E; simpl in H.
  - eapply appends_app; [exact H|apply IH].
  - simpl. destruct H as (new & J & S). exists new. split; [exact J|].
    now apply sublist_inserts_r.
Qed.

Lemma create_state fs0 :
  fst (state_of (create fs0)) = state_of (loop (scenarios self) (initial_state fs0)).
Proof.
  unfold create_job_list_and_write_configs. fold (initial_state fs0).
  destruct (loop _ _) as [st|st]; simpl; [|reflexivity].
  destruct (Py.floordiv _ _); reflexivity.
Qed.

Lemma created_jobs fs0 :
  job_list (fst (state_of (create fs0))) `sublist_of` possible_jobs (scenarios self).
Proof.
  rewrite create_state.
  destruct (scenarios_loop_appends (scenarios self) (initial_state fs0)) as (new & J & S).
  rewrite J. exact S.
Qed.


(** *** What job creation may remove and create *)

(** A path in the folder of scenario [S] outside its measurements, or an
    ancestor of that folder. *)
Definition inside (S : string) (q : path) : Prop :=
  under q (cp ++ [S]) = true \/
  exists x r, q = cp ++ S :: x :: r /\ x <> "measurements".

(** [frame_in S fs fs']: from [fs] to [fs'], what disappeared lay below the
    measurements of a selected leak config of [S] (and regeneration is
    forced), and what appeared is [inside S]. *)
Definition frame_in (S : string) (fs fs' : FS) : Prop :=
  (forall q, fs q = true -> fs' q = false ->
     force_regenerate self = true /\
     exists L, is_selected sel S (Some L) = true /\
               under (measurements_path_of cp S L) q = true) /\
  (forall q, fs q = false -> fs' q = true -> inside S q).

(** [frame P fs fs']: what disappeared lay in the folder of a scenario
    that satisfies [P] (and regeneration is forced), what appeared is
    inside such a folder. *)
Definition frame (P : string -> Prop) (fs fs' : FS) : Prop :=
  (forall q, fs q = true -> fs' q = false ->
     force_regenerate self = true /\
     exists S, P S /\ under (cp ++ [S]) q = true) /\
  (forall q, fs q = false -> fs' q = true -> exists S, P S /\ inside S q).

Lemma frame_in_refl S fs : frame_in S fs fs.
Proof. split; intros q H1 H2; congruence. Qed.

Lemma frame_in_trans S fs1 fs2 fs3 :
  frame_in S fs1 fs2 -> frame_in S fs2 fs3 -> frame_in S fs1 fs3.
Proof.
  intros (A1 & B1) (A2 & B2). split; intros q H1 H3.
  - destruct (fs2 q) eqn:E; [now apply A2|now apply A1].
  - destruct (fs2 q) eqn:E; [now apply B1|now apply B2].
Qed.

Lemma frame_refl P fs : frame P fs fs.
Proof. split; intros q H1 H2; congruence. Qed.

Lemma frame_trans P fs1 fs2 fs3 :
  frame P fs1 fs2 -> frame P fs2 fs3 -> frame P fs1 fs3.
Proof.
  intros (A1 & B1) (A2 & B2). split; intros q H1 H3.
  - destruct (fs2 q) eqn:E; [now apply A2|now apply A1].
  - destruct (fs2 q) eqn:E; [now apply B1|now apply B2].
Qed.

Lemma frame_weaken (P P' : string -> Prop) fs fs' :
  (forall S, P S -> P' S) -> frame P fs fs' -> frame P' fs fs'.
Proof.
  intros Hw (A & B). split; intros q H1 H2.
  - destruct (A q H1 H2) as (Hf & S & HS & Hu). eauto.
  - destruct (B q H1 H2) as (S & HS & Hi). eauto.
Qed.

Lemma inside_config_dir S x q :
  x <> "measurements" -> under q (cp ++ [S; x]) = true -> inside S q.
Proof.
  intros Hx Hq. change (cp ++ [S; x]) with (cp ++ [S] ++ [x]) in Hq.
  rewrite app_assoc in Hq. apply under_snoc in Hq as [Hq| ->]; [now left|].
  right. exists x, []. split; [now rewrite <- app_assoc|exact Hx].
Qed.

Lemma write_config_frame_in n S x (fs : FS) :
  x <> "measurements" -> frame_in S fs (write_config n (cp ++ [S; x]) fs).
Proof.
  intros Hx.
  split; intros q H1 H2.
  - destruct (write_config_effect n (cp ++ [S; x]) q fs) as (W1 & _).
    rewrite (W1 H1) in H2. discriminate.
  - destruct (write_config_effect n (cp ++ [S; x]) q fs) as (_ & W2 & _).
    destruct (W2 H1 H2) as [Hq| ->]; [now apply (inside_config_dir S x)|].
    right. exists x, [n +:+ ".xml"]. split; [now rewrite <- app_assoc|exact Hx].
Qed.

Lemma write_config_collection_frame_in ns S x (fs : FS) :
  x <> "measurements" -> frame_in S fs (write_config_collection ns (cp ++ [S; x]) fs).
Proof.
  intros Hx. destruct (write_config_collection_effect ns (cp ++ [S; x]) fs) as (W1 & W2 & _).
  split; intros q H1 H2.
  - rewrite (W1 q H1) in H2. discriminate.
  - destruct (W2 q H1 H2) as [Hq|(n & _ & ->)]; [now apply (inside_config_dir S x)|].
    right. exists x, [n +:+ ".xml"]. split; [now rewrite <- app_assoc|exact Hx].
Qed.

Lemma rmtree_measurements_frame_in S L (fs : FS) :
  force_regenerate self = true -> is_selected sel S (Some L) = true ->
  frame_in S fs (rmtree (measurements_path_of cp S L) fs).
Proof.
  intros Hf Hs. split; intros q H1 H2.
  - split; [exact Hf|]. exists L. split; [exact Hs|].
    now apply (rmtree_effect _ q fs).
  - apply rmtree_effect in H2. congruence.
Qed.

Lemma scenario_sub (S x : string) : scenario_path_of cp S ++ [x] = cp ++ [S; x].
Proof. unfold scenario_path_of. now rewrite <- app_assoc. Qed.

Lemma leak_config_body_frame scenario est st lc :
  frame_in (name scenario) (fs st)
           (fs (leak_config_body self sensor_masks scenario est st lc)).
Proof.
  unfold leak_config_body.
  set (S := name scenario). set (L := leak_config_name lc).
  change (scenario_path_of cp S ++ ["measurements"; L])
    with (measurements_path_of cp S L).
  set (st1 := if force_regenerate self && is_selected sel S (Some L)
              then with_fs (rmtree (measurements_path_of cp S L)) st else st).
  assert (F1 : frame_in S (fs st) (fs st1)).
  { subst st1. destruct (force_regenerate self) eqn:Hf; simpl; [|apply frame_in_refl].
    destruct (is_selected sel S (Some L)) eqn:Hs; [|apply frame_in_refl].
    now apply rmtree_measurements_frame_in. }
  destruct (negb _); [exact F1|].
  destruct (fs st1 _); [exact F1|]. simpl.
  eapply frame_in_trans; [exact F1|].
  rewrite scenario_sub. apply write_config_frame_in. discriminate.
Qed.

Lemma leak_configs_frame scenario est cs : forall st,
  frame_in (name scenario) (fs st)
           (fs (foldl (leak_config_body self sensor_masks scenario est) st cs)).
Proof.
  induction cs as [|lc cs IH]; intros st; simpl; [apply frame_in_refl|].
  eapply frame_in_trans; [apply leak_config_body_frame|apply IH].
Qed.

Lemma collection_body_frame scenario est st cc :
  frame_in (name scenario) (fs st)
           (fs (collection_body self sensor_masks scenario est st cc)).
Proof.
  destruct cc as [cs|cs|cs]; simpl.
  - rewrite scenario_sub. apply write_config_collection_frame_in. discriminate.
  - rewrite scenario_sub. apply write_config_collection_frame_in. discriminate.
  - apply leak_configs_frame.
Qed.

Lemma collections_frame scenario est ccs : forall st,
  frame_in (name scenario) (fs st)
           (fs (foldl (collection_body self sensor_masks scenario est) st ccs)).
Proof.
  induction ccs as [|cc ccs IH]; intros st; simpl; [apply frame_in_refl|].
  eapply frame_in_trans; [apply collection_body_frame|apply IH].
Qed.

Lemma frame_in_frame S fs fs' :
  is_selected sel S None = true -> frame_in S fs fs' ->
  frame (fun S' => S' = S /\ is_selected sel S None = true) fs fs'.
Proof.
  intros Hs (A & B). split; intros q H1 H2.
  - destruct (A q H1 H2) as (Hf & L & _ & Hu). split; [exact Hf|].
    exists S. split; [auto|].
    eapply under_trans; [|exact Hu]. apply under_app.
  - exists S. split; [auto|]. now apply B.
Qed.

Lemma scenario_body_frame st sc :
  frame (fun S => S = name (attrib sc) /\ is_selected sel S None = true)
        (fs st) (fs (state_of (body st sc))).
Proof.
  unfold scenario_body.
  set (S := name (attrib sc)).
  set (P := fun S' => S' = S /\ is_selected sel S' None = true).
  set (st1 := if force_regenerate self && is_selected sel S (Some "*")
              then with_fs (rmtree (scenario_path_of cp S)) st else st).
  assert (F1 : frame P (fs st) (fs st1)).
  { subst st1. destruct (force_regenerate self) eqn:Hf; simpl; [|apply frame_refl].
    destruct (is_selected sel S (Some "*")) eqn:Hs; [|apply frame_refl].
    split; intros q H1 H2.
    - split; [exact Hf|]. exists S. split.
      + split; [reflexivity|]. now apply is_selected_scenario in Hs.
      + now apply (rmtree_effect _ q (fs st)).
    - simpl in H2. apply rmtree_effect in H2. congruence. }
  destruct (is_selected sel S None) eqn:Hsel; simpl; [|exact F1].
  destruct (load_network _) as [wn|]; simpl; [|exact F1].
  eapply frame_trans; [exact F1|].
  assert (F2 : frame P (fs st1) (write_topology (scenario_path_of cp S) (fs st1))).
  { split; intros q H1 H2.
    - destruct (write_topology_effect (scenario_path_of cp S) q (fs st1)) as (W1 & _).
      rewrite (W1 H1) in H2. discriminate.
    - destruct (write_topology_effect (scenario_path_of cp S) q (fs st1)) as (_ & W2 & _).
      exists S. split; [split; [reflexivity|exact Hsel]|].
      destruct (W2 H1 H2) as [Hq| ->]; [now left|].
      right. exists "topology.xml", []. split; [|discriminate].
      unfold scenario_path_of. now rewrite <- app_assoc. }
  destruct (Py.ltb _ _); simpl; [exact F2|].
  eapply frame_trans; [exact F2|].
  eapply frame_weaken; [|apply frame_in_frame; [exact Hsel|]].
  - intros S' [-> _]. split; [reflexivity|exact Hsel].
  - exact (collections_frame (absolute_attrib self sc)
             (estimate wn (absolute_attrib self sc)) (children sc)
             (note_estimate (estimate wn (absolute_attrib self sc))
                (with_fs (write_topology (scenario_path_of cp S)) st1))).
Qed.

(** The scenarios of the list that are selected. *)
Definition selected_among (scs : list Scenario) (S : string) : Prop :=
  exists sc, sc ∈ scs /\ name (attrib sc) = S /\ is_selected sel S None = true.

Lemma scenarios_loop_frame scs : forall st,
  frame (selected_among scs) (fs st) (fs (state_of (loop scs st))).
Proof.
  induction scs as [|sc scs IH]; intros st; simpl; [apply frame_refl|].
  pose proof (scenario_body_frame st sc) as F.
  assert (W1 : forall S, S = name (attrib sc) /\ is_selected sel S None = true ->
                         selected_among (sc :: scs) S).
  { intros S [-> Hs]. exists sc. split; [apply list_elem_of_here|auto]. }
  assert (W2 : forall S, selected_among scs S -> selected_among (sc :: scs) S).
  { intros S (sc' & Hin & H). exists sc'. split; [now apply list_elem_of_further|exact H]. }
  destruct (body st sc) as [st'|st']; simpl in *.
  - eapply frame_trans; [eapply frame_weaken; [exact W1|exact F]|].
    eapply frame_weaken; [exact W2|apply IH].
  - eapply frame_weaken; [exact W1|exact F].
Qed.


(** *** The job list, exactly *)

(** Whether the loop makes the job [j] of a scenario that loads, given the
    file system [fs0] it was started on: the scenario passes the memory
    check, the pair is selected, and the results are forced or missing. *)
Definition wanted (fs0 : FS) (j : SimulationJob) : bool :=
  negb (Py.ltb (available_memory self) (memory_estimate j))
  && is_selected sel (name (scenario_config j)) (Some (job_leak_config_name j))
  && (force_regenerate self || negb (fs0 (results_path j))).

(** Without force, the measurement directories are as they were on [fs0]. *)
Definition in_step (fs0 fs : FS) : Prop :=
  force_regenerate self = false ->
  forall S L, fs (measurements_path_of cp S L) = fs0 (measurements_path_of cp S L).

Lemma measurements_not_inside S' S r : ~ inside S' (cp ++ S :: "measurements" :: r).
Proof.
  intros [H|(x & r' & H & Hx)].
  - apply under_length in H. rewrite !length_app in H. simpl in H. lia.
  - apply app_inv_head in H. congruence.
Qed.

Lemma measurements_path_eq S L :
  measurements_path_of cp S L = cp ++ [S; "measurements"; L].
Proof. unfold measurements_path_of, scenario_path_of. now rewrite <- app_assoc. Qed.

Lemma in_step_frame_in S fs0 fs fs' :
  in_step fs0 fs -> frame_in S fs fs' -> in_step fs0 fs'.
Proof.
  intros Hs (A & B) Hf S' L. rewrite <- (Hs Hf S' L).
  destruct (fs (measurements_path_of cp S' L)) eqn:E1,
           (fs' (measurements_path_of cp S' L)) eqn:E2; try reflexivity.
  - destruct (A _ E1 E2) as [Hf' _]. congruence.
  - exfalso. apply (measurements_not_inside S S' [L]).
    rewrite measurements_path_eq in E1, E2. apply B; [exact E1|exact E2].
Qed.

Lemma in_step_frame P fs0 fs fs' :
  in_step fs0 fs -> frame P fs fs' -> in_step fs0 fs'.
Proof.
  intros Hs (A & B) Hf S' L. rewrite <- (Hs Hf S' L).
  destruct (fs (measurements_path_of cp S' L)) eqn:E1,
           (fs' (measurements_path_of cp S' L)) eqn:E2; try reflexivity.
  - destruct (A _ E1 E2) as [Hf' _]. congruence.
  - exfalso. destruct (B _ E1 E2) as (S & _ & Hi).
    rewrite measurements_path_eq in Hi.
    now apply (measurements_not_inside S S' [L]).
Qed.

Lemma rmtree_self (p : path) (fs : FS) : rmtree p fs p = false.
Proof. unfold rmtree. rewrite under_refl. apply andb_false_r. Qed.

Lemma filter_cons_app {A : Type} (f : A -> bool) (x : A) (l : list A) :
  List.filter f (x :: l) = List.filter f [x] ++ List.filter f l.
Proof. simpl. destruct (f x); reflexivity. Qed.

Lemma leak_config_body_exact fs0 scenario est st lc :
  Py.ltb (available_memory self) est = false -> in_step fs0 (fs st) ->
  job_list (leak_config_body self sensor_masks scenario est st lc)
  = job_list st ++ List.filter (wanted fs0) [job_of scenario est lc].
Proof.
  intros Hfit Hstep. unfold in_step in Hstep.
  unfold leak_config_body. cbn [List.filter]. unfold wanted.
  cbn [job_of memory_estimate scenario_config job_leak_config_name results_path].
  rewrite Hfit. cbn [negb andb].
  change (scenario_path_of cp (name scenario) ++ ["measurements"; leak_config_name lc])
    with (measurements_path_of cp (name scenario) (leak_config_name lc)).
  destruct (is_selected sel (name scenario) (Some (leak_config_name lc))) eqn:Hs.
  - rewrite andb_true_r. cbn [negb andb].
    destruct (force_regenerate self) eqn:Hf; cbn [orb].
    + cbn [with_fs fs]. rewrite rmtree_self. reflexivity.
    + rewrite <- (Hstep eq_refl). cbn [andb]. destruct (fs st _); cbn [negb]; [|reflexivity].
      now rewrite app_nil_r.
  - rewrite andb_false_r. cbn [negb]. now rewrite app_nil_r.
Qed.

Lemma leak_configs_exact fs0 scenario est cs : forall st,
  Py.ltb (available_memory self) est = false -> in_step fs0 (fs st) ->
  job_list (foldl (leak_config_body self sensor_masks scenario est) st cs)
  = job_list st ++ List.filter (wanted fs0) (map (job_of scenario est) cs).
Proof.
  induction cs as [|lc cs IH]; intros st Hfit Hstep; [simpl; now rewrite app_nil_r|].
  cbn [foldl map]. rewrite filter_cons_app, app_assoc.
  rewrite <- (leak_config_body_exact fs0 scenario est st lc Hfit Hstep).
  apply IH; [exact Hfit|].
  eapply in_step_frame_in; [exact Hstep|apply leak_config_body_frame].
Qed.

Lemma collections_exact fs0 scenario est ccs : forall st,
  Py.ltb (available_memory self) est = false -> in_step fs0 (fs st) ->
  job_list (foldl (collection_body self sensor_masks scenario est) st ccs)
  = job_list st
    ++ List.filter (wanted fs0) (map (job_of scenario est) (leak_configs_of ccs)).
Proof.
  induction ccs as [|cc ccs IH]; intros st Hfit Hstep; [simpl; now rewrite app_nil_r|].
  cbn [foldl]. unfold leak_configs_of. cbn [flat_map]. fold (leak_configs_of ccs).
  rewrite map_app, List.filter_app, app_assoc.
  rewrite (IH _ Hfit).
  - f_equal. destruct cc as [cs|cs|cs]; simpl; try (now rewrite app_nil_r).
    now apply leak_configs_exact.
  - eapply in_step_frame_in; [exact Hstep|apply collection_body_frame].
Qed.

Lemma filter_none {A : Type} (f : A -> bool) (l : list A) :
  (forall x, x ∈ l -> f x = false) -> List.filter f l = [].
Proof.
  induction l as [|x l IH]; intros H; simpl; [reflexivity|].
  rewrite (H x) by apply list_elem_of_here.
  apply IH. intros y Hy. apply H. now apply list_elem_of_further.
Qed.

Lemma jobs_of_scenario_inv sc j :
  j ∈ jobs_of_scenario sc ->
  exists wn lc,
    load_network (network (absolute_attrib self sc)) = Some wn /\
    lc ∈ leak_configs_of (children sc) /\
    j = job_of (absolute_attrib self sc) (estimate wn (absolute_attrib self sc)) lc.
Proof.
  unfold jobs_of_scenario. destruct (load_network _) as [wn|]; [|intros H; inversion H].
  intros H. apply list_elem_of_fmap in H as (lc & -> & Hlc). eauto.
Qed.

Lemma scenario_body_exact fs0 st sc st' :
  in_step fs0 (fs st) -> body st sc = Returns st' ->
  job_list st' = job_list st ++ List.filter (wanted fs0) (jobs_of_scenario sc).
Proof.
  intros Hstep. unfold scenario_body.
  set (S := name (attrib sc)).
  set (st1 := if force_regenerate self && is_selected sel S (Some "*")
              then with_fs (rmtree (scenario_path_of cp S)) st else st).
  assert (H1 : job_list st1 = job_list st).
  { subst st1. destruct (force_regenerate self && _); reflexivity. }
  assert (Hstep1 : in_step fs0 (fs st1)).
  { subst st1. destruct (force_regenerate self) eqn:Hf; simpl; [|exact Hstep].
    intros Hf'. congruence. }
  destruct (is_selected sel S None) eqn:Hsel; simpl.
  - unfold jobs_of_scenario.
    destruct (load_network _) as [wn|]; simpl; [|discriminate].
    set (est := estimate wn (absolute_attrib self sc)).
    destruct (Py.ltb (available_memory self) est) eqn:Hfit; simpl;
      intros H; injection H as <-.
    + simpl. rewrite H1, filter_none; [now rewrite app_nil_r|].
      intros j Hj. apply list_elem_of_fmap in Hj as (lc & -> & _).
      unfold wanted. simpl. fold est. now rewrite Hfit.
    + rewrite (collections_exact fs0); [simpl; now rewrite H1|exact Hfit|].
      simpl. intros Hf S' L. rewrite <- (Hstep1 Hf S' L).
      rewrite measurements_path_eq.
      destruct (write_topology_effect (scenario_path_of cp S)
                  (cp ++ [S'; "measurements"; L]) (fs st1)) as (W1 & W2 & _).
      destruct (fs st1 _) eqn:E1; [now apply W1|].
      destruct (write_topology _ _ _) eqn:E2; [|reflexivity].
      exfalso. apply (measurements_not_inside S S' [L]).
      destruct (W2 eq_refl eq_refl) as [H|H]; [now left|].
      right. exists "topology.xml", []. split; [|discriminate].
      rewrite H. unfold scenario_path_of. now rewrite <- app_assoc.
  - intros H. injection H as <-. rewrite H1, filter_none; [now rewrite app_nil_r|].
    intros j Hj. apply jobs_of_scenario_inv in Hj as (wn & lc & _ & _ & ->).
    unfold wanted. simpl. fold S.
    destruct (is_selected sel S (Some (leak_config_name lc))) eqn:E.
    + apply is_selected_scenario in E. congruence.
    + now rewrite andb_false_r.
Qed.

Lemma scenarios_loop_exact fs0 scs : forall st st',
  in_step fs0 (fs st) -> loop scs st = Returns st' ->
  job_list st' = job_list st ++ List.filter (wanted fs0) (possible_jobs scs).
Proof.
  induction scs as [|sc scs IH]; intros st st' Hstep Hrun; simpl in Hrun.
  - injection Hrun as <-. simpl. now rewrite app_nil_r.
  - destruct (body st sc) as [st1|st1] eqn:Hbody; [|discriminate].
    unfold possible_jobs. cbn [flat_map]. fold (possible_jobs scs).
    rewrite List.filter_app, app_assoc.
    rewrite <- (scenario_body_exact fs0 st sc st1 Hstep Hbody).
    apply IH; [|exact Hrun].
    eapply in_step_frame; [exact Hstep|].
    pose proof (scenario_body_frame st sc) as F. rewrite Hbody in F. exact F.
Qed.


(** *** What is on disk for a job *)

(** [ready fs j]: the results directory of [j] is the measurements
    directory of its pair and does not exist, and the topology of its
    scenario and its leak config file do. *)
Definition ready (fs : FS) (j : SimulationJob) : Prop :=
  let S := name (scenario_config j) in
  let L := job_leak_config_name j in
  results_path j = cp ++ [S; "measurements"; L] /\
  fs (results_path j) = false /\
  fs (cp ++ [S; "topology.xml"]) = true /\
  fs (cp ++ [S; "leaks"; L +:+ ".xml"]) = true.

(** A file of a scenario folder outside the measurements survives the
    passes over the configs of any scenario. *)
Lemma kept_frame_in S fs fs' S0 x r :
  x <> "measurements" -> frame_in S fs fs' ->
  fs (cp ++ S0 :: x :: r) = true -> fs' (cp ++ S0 :: x :: r) = true.
Proof.
  intros Hx (A & _) H. destruct (fs' _) eqn:E; [reflexivity|].
  destruct (A _ H E) as (_ & L & _ & Hu).
  rewrite measurements_path_eq in Hu. apply under_inv in Hu as [r' Hu].
  rewrite <- app_assoc in Hu. apply app_inv_head in Hu. simpl in Hu. congruence.
Qed.

Lemma kept_frame P fs fs' S0 x r :
  force_regenerate self = false \/ ~ P S0 -> frame P fs fs' ->
  fs (cp ++ S0 :: x :: r) = true -> fs' (cp ++ S0 :: x :: r) = true.
Proof.
  intros Hor (A & _) H. destruct (fs' _) eqn:E; [reflexivity|].
  destruct (A _ H E) as (Hf & S & HS & Hu).
  destruct Hor as [Hnf|HnP]; [congruence|]. exfalso. apply HnP.
  apply under_inv in Hu as [r' Hu].
  rewrite <- app_assoc in Hu. apply app_inv_head in Hu. simpl in Hu. congruence.
Qed.

Lemma ready_frame_in S fs fs' j : ready fs j -> frame_in S fs fs' -> ready fs' j.
Proof.
  intros (Hp & Hno & Htop & Hleak) F. unfold ready.
  split; [exact Hp|]. split; [|split].
  - destruct (fs' (results_path j)) eqn:E; [|reflexivity]. exfalso.
    destruct F as (_ & B). specialize (B _ Hno E). rewrite Hp in B.
    now apply measurements_not_inside in B.
  - apply (kept_frame_in S fs); [discriminate|exact F|exact Htop].
  - apply (kept_frame_in S fs); [discriminate|exact F|exact Hleak].
Qed.

Lemma ready_frame P fs fs' j :
  force_regenerate self = false \/ ~ P (name (scenario_config j)) ->
  ready fs j -> frame P fs fs' -> ready fs' j.
Proof.
  intros Hor (Hp & Hno & Htop & Hleak) F. unfold ready.
  split; [exact Hp|]. split; [|split].
  - destruct (fs' (results_path j)) eqn:E; [|reflexivity]. exfalso.
    destruct F as (_ & B). destruct (B _ Hno E) as (S & _ & Hi). rewrite Hp in Hi.
    now apply measurements_not_inside in Hi.
  - apply (kept_frame P fs); assumption.
  - apply (kept_frame P fs); assumption.
Qed.

Lemma leak_config_body_ready scenario est st lc j :
  fs st (cp ++ [name scenario; "topology.xml"]) = true ->
  j ∈ job_list (leak_config_body self sensor_masks scenario est st lc) ->
  j ∈ job_list st \/
  ready (fs (leak_config_body self sensor_masks scenario est st lc)) j.
Proof.
  intros Htop. pose proof (leak_config_body_frame scenario est st lc) as F.
  revert F. unfold leak_config_body.
  set (S := name scenario). set (L := leak_config_name lc).
  set (st1 := if force_regenerate self && is_selected sel S (Some L)
              then with_fs (rmtree (scenario_path_of cp S ++ ["measurements"; L])) st
              else st).
  assert (H1 : job_list st1 = job_list st).
  { subst st1. destruct (force_regenerate self && _); reflexivity. }
  destruct (negb _); [rewrite H1; auto|].
  destruct (fs st1 _) eqn:Hex; [rewrite H1; auto|].
  cbn [job_list fs with_fs]. intros F Hj. rewrite H1 in Hj.
  apply elem_of_app in Hj as [Hj|Hj]; [now left|]. right.
  apply list_elem_of_singleton in Hj as ->. unfold ready.
  cbn [results_path scenario_config job_leak_config_name]. fold S L.
  assert (Hp : scenario_path_of cp S ++ ["measurements"; L]
               = cp ++ [S; "measurements"; L])
    by (unfold scenario_path_of; now rewrite <- app_assoc).
  rewrite Hp in *. split; [reflexivity|]. split; [|split].
  - destruct (write_config_effect L (scenario_path_of cp S ++ ["leaks"])
                (cp ++ [S; "measurements"; L]) (fs st1)) as (_ & W2 & _).
    destruct (write_config _ _ _ _) eqn:E; [|reflexivity]. exfalso.
    rewrite scenario_sub in W2.
    apply (measurements_not_inside S S [L]).
    destruct (W2 Hex eq_refl) as [H|H].
    + now apply (inside_config_dir S "leaks").
    + right. exists "leaks", [L +:+ ".xml"]. split; [|discriminate].
      rewrite H. now rewrite <- app_assoc.
  - apply (kept_frame_in S (fs st)); [discriminate|exact F|exact Htop].
  - destruct (write_config_effect L (scenario_path_of cp S ++ ["leaks"])
                [] (fs st1)) as (_ & _ & W3).
    rewrite scenario_sub, <- app_assoc in W3. rewrite scenario_sub. exact W3.
Qed.

Lemma leak_configs_ready scenario est cs j : forall st,
  fs st (cp ++ [name scenario; "topology.xml"]) = true ->
  j ∈ job_list (foldl (leak_config_body self sensor_masks scenario est) st cs) ->
  j ∈ job_list st \/
  ready (fs (foldl (leak_config_body self sensor_masks scenario est) st cs)) j.
Proof.
  induction cs as [|lc cs IH]; intros st Htop Hj; simpl in *; [now left|].
  pose proof (leak_config_body_frame scenario est st lc) as F.
  destruct (IH _ (kept_frame_in _ _ _ _ "topology.xml" [] ltac:(discriminate) F Htop) Hj) as [H|H];
    [|now right].
  destruct (leak_config_body_ready scenario est st lc j Htop H) as [H'|H']; [now left|].
  right. eapply ready_frame_in; [exact H'|apply leak_configs_frame].
Qed.

Lemma collections_ready scenario est ccs j : forall st,
  fs st (cp ++ [name scenario; "topology.xml"]) = true ->
  j ∈ job_list (foldl (collection_body self sensor_masks scenario est) st ccs) ->
  j ∈ job_list st \/
  ready (fs (foldl (collection_body self sensor_masks scenario est) st ccs)) j.
Proof.
  induction ccs as [|cc ccs IH]; intros st Htop Hj; simpl in *; [now left|].
  pose proof (collection_body_frame scenario est st cc) as F.
  destruct (IH _ (kept_frame_in _ _ _ _ "topology.xml" [] ltac:(discriminate) F Htop) Hj) as [H|H];
    [|now right].
  assert (H' : j ∈ job_list st \/
               ready (fs (collection_body self sensor_masks scenario est st cc)) j).
  { destruct cc as [cs|cs|cs]; simpl in *; try (now left).
    now apply leak_configs_ready. }
  destruct H' as [H'|H']; [now left|].
  right. eapply ready_frame_in; [exact H'|apply collections_frame].
Qed.

Lemma scenario_body_ready st sc j :
  j ∈ job_list (state_of (body st sc)) ->
  j ∈ job_list st \/
  (name (scenario_config j) = name (attrib sc) /\ ready (fs (state_of (body st sc))) j).
Proof.
  intros Hin.
  destruct (scenario_body_appends st sc) as (new & J & Hsub).
  pose proof Hin as Hj.
  rewrite J in Hj. apply elem_of_app in Hj as [Hj|Hj]; [now left|].
  assert (Hname : name (scenario_config j) = name (attrib sc)).
  { apply (elem_of_sublist _ _ _ Hj) in Hsub.
    apply jobs_of_scenario_inv in Hsub as (wn & lc & _ & _ & ->). reflexivity. }
  clear J Hj Hsub. revert Hin. unfold scenario_body.
  set (S := name (attrib sc)).
  set (st1 := if force_regenerate self && is_selected sel S (Some "*")
              then with_fs (rmtree (scenario_path_of cp S)) st else st).
  assert (H1 : job_list st1 = job_list st).
  { subst st1. destruct (force_regenerate self && _); reflexivity. }
  destruct (negb _); simpl; [rewrite H1; tauto|].
  destruct (load_network _) as [wn|]; simpl; [|rewrite H1; tauto].
  destruct (Py.ltb _ _); simpl; [rewrite H1; tauto|].
  intros Hin.
  destruct (collections_ready (absolute_attrib self sc)
              (estimate wn (absolute_attrib self sc)) (children sc) j
              (note_estimate (estimate wn (absolute_attrib self sc))
                 (with_fs (write_topology (scenario_path_of cp S)) st1)))
    as [H|H]; [|exact Hin| |right; split; [exact Hname|exact H]].
  - simpl.
    destruct (write_topology_effect (scenario_path_of cp S) [] (fs st1)) as (_ & _ & W3).
    unfold scenario_path_of in W3 at 2. rewrite <- app_assoc in W3. exact W3.
  - simpl in H. rewrite H1 in H. now left.
Qed.

Lemma scenarios_loop_ready scs : forall st,
  force_regenerate self = false \/
    (NoDup (map (fun sc => name (attrib sc)) scs) /\
     forall j, j ∈ job_list st ->
       name (scenario_config j) ∉ map (fun sc => name (attrib sc)) scs) ->
  (forall j, j ∈ job_list st -> ready (fs st) j) ->
  forall j, j ∈ job_list (state_of (loop scs st)) -> ready (fs (state_of (loop scs st))) j.
Proof.
  induction scs as [|sc scs IH]; intros st Hor Hall j Hj; simpl in *; [now apply Hall|].
  pose proof (scenario_body_frame st sc) as F.
  assert (Hall1 : forall k, k ∈ job_list (state_of (body st sc)) ->
                            ready (fs (state_of (body st sc))) k).
  { intros k Hk. destruct (scenario_body_ready st sc k Hk) as [H|[_ H]]; [|exact H].
    eapply ready_frame; [|apply Hall, H|exact F]. cbv beta.
    destruct Hor as [Hf|[_ Hnew]]; [now left|]. right. intros [Heq _].
    apply (Hnew k H). rewrite Heq. apply list_elem_of_here. }
  destruct (body st sc) as [st'|st'] eqn:E; simpl in *; [|now apply Hall1].
  apply IH; [|exact Hall1|exact Hj].
  destruct Hor as [Hf|[Hnd Hnew]]; [now left|]. right.
  apply NoDup_cons in Hnd as [Hsc Hnd]. split; [exact Hnd|].
  intros k Hk. pose proof (scenario_body_ready st sc k) as R. rewrite E in R.
  destruct (R Hk) as [H|[Heq _]].
  - intros Hin. apply (Hnew k H). now apply list_elem_of_further.
  - now rewrite Heq.
Qed.


(** *** When job creation returns *)

Lemma scenarios_loop_returns_iff scs : forall st,
  (exists st', loop scs st = Returns st') <->
  (forall sc, sc ∈ scs -> is_selected sel (name (attrib sc)) None = true ->
     is_Some (load_network (network (absolute_attrib self sc)))).
Proof.
  induction scs as [|sc scs IH]; intros st; simpl.
  - split; [intros _ sc Hsc; inversion Hsc|eauto].
  - assert (Hbody : (exists st', body st sc = Returns st') <->
              (is_selected sel (name (attrib sc)) None = true ->
               is_Some (load_network (network (absolute_attrib self sc))))).
    { unfold scenario_body.
      destruct (is_selected sel (name (attrib sc)) None); simpl.
      - destruct (load_network _) as [wn|]; simpl.
        + split; [eauto|]. intros _. destruct (Py.ltb _ _); eauto.
        + split; [intros [st' H]; discriminate|].
          intros H. destruct (H eq_refl) as [x Hx]. discriminate.
      - split; [discriminate|eauto]. }
    split.
    + intros [st' H] sc' Hin.
      destruct (body st sc) as [st1|st1] eqn:E; [|discriminate].
      apply elem_of_cons in Hin as [->|Hin].
      * apply Hbody. eauto.
      * apply (IH st1); eauto.
    + intros H.
      destruct (proj2 Hbody (H sc (list_elem_of_here _ _))) as [st1 E]. rewrite E.
      apply IH. intros sc' Hin. apply H. now apply list_elem_of_further.
Qed.

Lemma join_name_absolute (a b : string) : isabs a = true -> isabs (join_name a b) = true.
Proof.
  intros Ha. unfold join_name. destruct (isabs b) eqn:Hb; [exact Hb|].
  apply prefix_app in Ha as [r ->]. unfold isabs.
  destruct (_ || _); rewrite !app_assoc_str; apply prefix_app_true.
Qed.

Lemma possible_jobs_inv scs j :
  j ∈ possible_jobs scs -> exists sc, sc ∈ scs /\ j ∈ jobs_of_scenario sc.
Proof.
  unfold possible_jobs. intros H. apply list_elem_of_In, in_flat_map in H as (sc & H1 & H2).
  exists sc. split; now apply list_elem_of_In.
Qed.

(** The key of a job: the names of its scenario and of its leak config. *)
Definition job_key (j : SimulationJob) : string * string :=
  (name (scenario_config j), job_leak_config_name j).

Lemma possible_jobs_keys scs :
  NoDup (map (fun sc => name (attrib sc)) scs) ->
  Forall (fun sc => NoDup (map leak_config_name (leak_configs_of (children sc)))) scs ->
  NoDup (map job_key (possible_jobs scs)).
Proof.
  induction scs as [|sc scs IH]; intros Hnames Hlcs; simpl; [constructor|].
  apply NoDup_cons in Hnames as [Hsc Hnames]. apply Forall_cons in Hlcs as [Hlc Hlcs].
  rewrite map_app. apply NoDup_app. split; [|split; [|now apply IH]].
  - unfold jobs_of_scenario. destruct (load_network _) as [wn|]; [|constructor].
    rewrite map_map. unfold job_key. simpl.
    rewrite <- (map_map leak_config_name (fun n => (name (attrib sc), n))).
    apply NoDup_fmap_2; [|exact Hlc]. intros x y H. now injection H.
  - intros k Hk1 Hk2.
    apply list_elem_of_fmap in Hk1 as (j1 & -> & Hj1).
    apply list_elem_of_fmap in Hk2 as (j2 & Heq & Hj2).
    apply jobs_of_scenario_inv in Hj1 as (wn & lc & _ & _ & ->).
    apply possible_jobs_inv in Hj2 as (sc2 & Hsc2 & Hj2).
    apply jobs_of_scenario_inv in Hj2 as (wn2 & lc2 & _ & _ & ->).
    unfold job_key in Heq. simpl in Heq. injection Heq as Hn _.
    apply Hsc. rewrite Hn. apply list_elem_of_fmap. exists sc2. split; [reflexivity|exact Hsc2].
Qed.


Lemma job_list_exact fs0 st n :
  create fs0 = Returns (st, n) ->
  job_list st = List.filter (wanted fs0) (possible_jobs (scenarios self)).
Proof.
  intros Hrun. apply create_returns_inv in Hrun as (Hloop & _).
  apply (scenarios_loop_exact fs0) in Hloop; [exact Hloop|].
  intros _ S L. reflexivity.
Qed.

(** *** The theorems *)

(** When job creation returns, the job list is the list of the jobs of
    all leak configs of all scenarios, in the order of the configuration,
    without those whose scenario fails the memory check, whose pair is not
    selected, or whose results directory existed at the start while
    nothing is forced. *)
Theorem job_list_is_filtered_configuration :
  forall (fs0 : FS) (st : GenState) (n : Z),
    create fs0 = Returns (st, n) ->
    job_list st = List.filter (wanted fs0) (possible_jobs (scenarios self)).
Proof.
  intros fs0 st n Hrun. apply create_returns_inv in Hrun as (Hloop & _).
  apply (scenarios_loop_exact fs0) in Hloop; [exact Hloop|].
  intros _ S L. reflexivity.
Qed.

(** The jobs come in the order of the configuration, also when job
    creation is cut short by an exception; and when no two scenarios share
    a name and no two leak configs of a scenario do, no two jobs have the
    same scenario and leak config or the same results directory. *)
Theorem jobs_follow_configuration_order :
  forall (fs0 : FS),
    NoDup (map (fun sc => name (attrib sc)) (scenarios self)) ->
    Forall (fun sc => NoDup (map leak_config_name (leak_configs_of (children sc))))
           (scenarios self) ->
    let jobs := job_list (fst (state_of (create fs0))) in
    jobs `sublist_of` possible_jobs (scenarios self) /\
    NoDup (map job_key jobs) /\
    NoDup (map results_path jobs).
Proof.
  intros fs0 Hnames Hlcs jobs.
  pose proof (created_jobs fs0) as Hsub. fold jobs in Hsub.
  assert (Hkeys : NoDup (map job_key jobs)).
  { apply (sublist_NoDup _ (map job_key (possible_jobs (scenarios self)))).
    - apply possible_jobs_keys; assumption.
    - apply (fmap_sublist job_key). exact Hsub. }
  split; [exact Hsub|]. split; [exact Hkeys|].
  assert (Hpath : forall j, j ∈ jobs ->
            results_path j = cp ++ [fst (job_key j); "measurements"; snd (job_key j)]).
  { intros j Hj. apply (elem_of_sublist _ _ _ Hj) in Hsub.
    apply possible_jobs_inv in Hsub as (sc & _ & Hsub).
    apply jobs_of_scenario_inv in Hsub as (wn & lc & _ & _ & ->).
    simpl. unfold scenario_path_of. now rewrite <- app_assoc. }
  apply NoDup_fmap_2_strong; [|now apply (NoDup_fmap_1 job_key)].
  intros j1 j2 H1 H2 Heq.
  rewrite (Hpath j1 H1), (Hpath j2 H2) in Heq. apply app_inv_head in Heq.
  assert (Hk : job_key j1 = job_key j2).
  { destruct (job_key j1), (job_key j2). simpl in Heq. congruence. }
  revert Hkeys H1 H2 Hk. clear. generalize jobs. intros l.
  induction l as [|j l IH]; intros Hnd H1 H2 Hk; [inversion H1|].
  simpl in Hnd. apply NoDup_cons in Hnd as [Hj Hnd].
  apply elem_of_cons in H1 as [->|H1], H2 as [->|H2]; auto.
  - exfalso. apply Hj. rewrite Hk. now apply list_elem_of_fmap_2.
  - exfalso. apply Hj. rewrite <- Hk. now apply list_elem_of_fmap_2.
Qed.

(** Every job of the list is the job of a leak config of a configured
    scenario that is selected, loads and passes the memory check: it
    carries the attributes of the scenario with a network path that is
    absolute (the base path being absolute), the leaks of the leak config,
    the memory estimate of the network that this path loads, the sensor
    mask of the scenario and the data type of the generator. *)
Theorem jobs_carry_their_scenario :
  forall (fs0 : FS) (j : SimulationJob),
    isabs (base_path self) = true ->
    j ∈ job_list (fst (state_of (create fs0))) ->
    isabs (network (scenario_config j)) = true /\
    exists sc lc wn,
      sc ∈ scenarios self /\ lc ∈ leak_configs_of (children sc) /\
      load_network (network (scenario_config j)) = Some wn /\
      name (scenario_config j) = name (attrib sc) /\
      iterations (scenario_config j) = iterations (attrib sc) /\
      timeStep (scenario_config j) = timeStep (attrib sc) /\
      leaks j = leak_infos lc /\
      job_leak_config_name j = leak_config_name lc /\
      memory_estimate j = estimate wn (scenario_config j) /\
      sensor_mask j = sensor_masks !!! name (attrib sc) /\
      dtype j = gen_dtype self.
Proof.
  intros fs0 j Hbase Hj.
  pose proof (elem_of_sublist _ _ _ Hj (created_jobs fs0)) as Hp.
  apply possible_jobs_inv in Hp as (sc & Hsc & Hp).
  apply jobs_of_scenario_inv in Hp as (wn & lc & Hload & Hlc & ->). simpl.
  split.
  - destruct (isabs (network (attrib sc))) eqn:E; [exact E|].
    now apply join_name_absolute.
  - exists sc, lc, wn. repeat split; try assumption.
Qed.

(** When job creation ends, no job of the list has a results directory
    yet, while the topology file of its scenario and the file of its leak
    config are written; this holds without force, and with force when no
    two scenarios share a name. *)
Theorem jobs_have_their_files :
  forall (fs0 : FS) (j : SimulationJob),
    force_regenerate self = false \/
      NoDup (map (fun sc => name (attrib sc)) (scenarios self)) ->
    j ∈ job_list (fst (state_of (create fs0))) ->
    let fs1 := fs (fst (state_of (create fs0))) in
    fs1 (results_path j) = false /\
    fs1 (cp ++ [name (scenario_config j); "topology.xml"]) = true /\
    fs1 (cp ++ [name (scenario_config j); "leaks"; job_leak_config_name j +:+ ".xml"])
      = true.
Proof.
  intros fs0 j Hor Hj fs1. subst fs1. rewrite create_state in *.
  destruct (scenarios_loop_ready (scenarios self) (initial_state fs0)) with (j := j)
    as (_ & H1 & H2 & H3); auto.
  - destruct Hor as [Hf|Hnd]; [now left|]. right. split; [exact Hnd|].
    intros k Hk. inversion Hk.
  - intros k Hk. inversion Hk.
Qed.

(** Job creation removes nothing unless regeneration is forced, and then
    only inside the folders of configured scenarios that are selected;
    what it creates lies in such folders outside their measurements, or is
    an ancestor directory of such a folder; nothing ever appears below a
    measurements directory. *)
Theorem job_creation_stays_in_selected_folders :
  forall (fs0 : FS) (q : path),
    let fs1 := fs (fst (state_of (create fs0))) in
    (fs0 q = true -> fs1 q = false ->
       force_regenerate self = true /\
       exists sc, sc ∈ scenarios self /\
         is_selected sel (name (attrib sc)) None = true /\
         under (cp ++ [name (attrib sc)]) q = true) /\
    (fs0 q = false -> fs1 q = true ->
       exists sc, sc ∈ scenarios self /\
         is_selected sel (name (attrib sc)) None = true /\
         inside (name (attrib sc)) q) /\
    (forall S, under (cp ++ [S; "measurements"]) q = true ->
       fs1 q = true -> fs0 q = true).
Proof.
  intros fs0 q fs1. subst fs1. rewrite create_state.
  destruct (scenarios_loop_frame (scenarios self) (initial_state fs0)) as (A & B).
  simpl in A, B. split; [|split].
  - intros H0 H1. destruct (A q H0 H1) as (Hf & S & (sc & Hsc & <- & Hs) & Hu). eauto 10.
  - intros H0 H1. destruct (B q H0 H1) as (S & (sc & Hsc & <- & Hs) & Hi). eauto 10.
  - intros S Hu H1. destruct (fs0 q) eqn:H0; [reflexivity|]. exfalso.
    destruct (B q H0 H1) as (S' & _ & Hi).
    apply under_inv in Hu as [r ->]. rewrite <- app_assoc in Hi.
    now apply measurements_not_inside in Hi.
Qed.

(** Job creation returns exactly when the network of every selected
    scenario loads and the lowest memory estimate is not zero; otherwise
    it raises (the simulator's error, or [ZeroDivisionError] at the
    clamp).  Whether it returns does not depend on the file system. *)
Theorem job_creation_returns_iff :
  forall (fs0 : FS),
    (exists st n, create fs0 = Returns (st, n)) <->
    (forall sc, sc ∈ scenarios self ->
       is_selected sel (name (attrib sc)) None = true ->
       is_Some (load_network (network (absolute_attrib self sc)))) /\
    ~ (lowest_of (inject_Z (10 ^ 12))
         (computed_estimates WaterNetworkModel load_network n_nodes n_links getsize
            self (scenarios self)) == 0)%Q.
Proof.
  intros fs0. split.
  - intros (st & n & Hrun).
    apply create_returns_inv in Hrun as (Hloop & practical & Hdiv & _).
    split; [apply (scenarios_loop_returns_iff _ (initial_state fs0)); eauto|].
    rewrite (scenarios_loop_lowest _ _ _ _ _ _ _ _ _ _ Hloop) in Hdiv. simpl in Hdiv.
    unfold Py.floordiv in Hdiv. intros H0. apply Qeq_bool_iff in H0.
    rewrite H0 in Hdiv. discriminate.
  - intros [Hload Hlow].
    apply (scenarios_loop_returns_iff _ (initial_state fs0)) in Hload as [st Hloop].
    unfold create_job_list_and_write_configs. fold (initial_state fs0). rewrite Hloop.
    rewrite (scenarios_loop_lowest _ _ _ _ _ _ _ _ _ _ Hloop). simpl.
    unfold Py.floordiv. destruct (Qeq_bool _ 0) eqn:E; [|eauto].
    apply Qeq_bool_iff in E. contradiction.
Qed.


Lemma filter_filter {A : Type} (f g : A -> bool) (l : list A) :
  List.filter f (List.filter g l) = List.filter (fun x => g x && f x) l.
Proof.
  induction l as [|x l IH]; simpl; [reflexivity|].
  destruct (g x); simpl; [destruct (f x)|]; now rewrite IH.
Qed.

Lemma wanted_later fs0 fs1 j :
  force_regenerate self = false ->
  (fs0 (results_path j) = true -> fs1 (results_path j) = true) ->
  wanted fs1 j = wanted fs0 j && negb (fs1 (results_path j)).
Proof.
  intros Hf Hkept. unfold wanted. rewrite Hf. cbn [orb].
  destruct (fs1 (results_path j)) eqn:E1; cbn [negb].
  - now rewrite !andb_false_r.
  - destruct (fs0 (results_path j)) eqn:E0; [|now rewrite !andb_true_r].
    discriminate (Hkept eq_refl).
Qed.

(** Without force, a later run on a file system that has kept the results
    directories of the earlier one makes exactly those jobs of the earlier
    run whose results directory is still missing, in the same order, and
    clamps the thread count to the same value. *)
Theorem later_run_makes_the_missing_jobs :
  forall (fs0 fs1 : FS) (st st1 : GenState) (n n1 : Z),
    force_regenerate self = false ->
    create fs0 = Returns (st, n) ->
    (forall j, j ∈ possible_jobs (scenarios self) ->
       fs0 (results_path j) = true -> fs1 (results_path j) = true) ->
    create fs1 = Returns (st1, n1) ->
    job_list st1 = List.filter (fun j => negb (fs1 (results_path j))) (job_list st) /\
    n1 = n.
Proof.
  intros fs0 fs1 st st1 n n1 Hf Hrun Hkept Hrun1. split.
  - rewrite (job_list_exact fs0 st n Hrun), (job_list_exact fs1 st1 n1 Hrun1).
    rewrite filter_filter. apply filter_ext_in. intros j Hj.
    apply list_elem_of_In in Hj. apply (wanted_later fs0 fs1 j Hf (Hkept j Hj)).
  - destruct (create_returns_again _ _ _ _ _ _ _ fs0 st n fs1 Hrun) as (st2 & H2 & _).
    rewrite Hrun1 in H2. now injection H2.
Qed.

Lemma estimate_lower_bound wn scenario :
  (0 <= n_nodes wn + n_links wn)%Z -> (0 <= getsize (network scenario))%Z ->
  (0 <= iterations scenario)%Z ->
  (inject_Z (40 * (n_nodes wn + n_links wn)) <= estimate wn scenario)%Q.
Proof.
  intros Hparts Hsize Hit. unfold estimate_wn_memory.
  set (B := inject_Z (40 * (n_nodes wn + n_links wn))).
  apply Qle_trans with (0 + B + 0)%Q;
    [rewrite Qplus_0_l, Qplus_0_r; apply Qle_refl|].
  apply Qplus_le_compat; [apply Qplus_le_compat; [|apply Qle_refl]|].
  - apply Qmult_le_0_compat; [apply Qmult_le_0_compat; [discriminate|]|].
    + change 0%Q with (inject_Z 0). now rewrite <- Zle_Qle.
    + change 0%Q with (inject_Z 0). now rewrite <- Zle_Qle.
  - change 0%Q with (inject_Z 0). rewrite <- Zle_Qle. apply Z.div_pos; lia.
Qed.

Lemma computed_estimates_inv scs e :
  e ∈ computed_estimates WaterNetworkModel load_network n_nodes n_links getsize self scs ->
  exists sc wn, sc ∈ scs /\ e = estimate wn (absolute_attrib self sc).
Proof.
  unfold computed_estimates. intros H.
  apply list_elem_of_In, in_flat_map in H as (sc & Hsc & H).
  apply list_elem_of_In in Hsc. exists sc.
  destruct (is_selected _ _ _); [|inversion H].
  destruct (load_network _) as [wn|]; [|inversion H].
  exists wn. split; [exact Hsc|]. destruct H as [H|[]]. now symmetry.
Qed.

(** When every network has a node or a link, the files have a size and the
    iteration counts are not negative, every memory estimate is at least
    40 kB: the lowest estimate is not zero, so the clamp of the thread
    count never divides by zero, and job creation returns whenever its
    loop does. *)
Theorem memory_estimates_are_positive :
  forall (fs0 : FS) (st : GenState),
    (forall wn, 0 <= n_nodes wn /\ 0 <= n_links wn /\ 1 <= n_nodes wn + n_links wn)%Z ->
    (forall p, 0 <= getsize p)%Z ->
    (forall sc, sc ∈ scenarios self -> 0 <= iterations (attrib sc))%Z ->
    loop (scenarios self) (initial_state fs0) = Returns st ->
    (40 <= lowest_estimated_memory st)%Q /\
    (forall j, j ∈ job_list st -> (40 <= memory_estimate j)%Q) /\
    create fs0
    = Returns (st, Z.min (n_threads self)
                     (Qfloor (available_memory self / lowest_estimated_memory st))).
Proof.
  intros fs0 st Hnet Hsize Hit Hloop.
  assert (Hest : forall sc wn, sc ∈ scenarios self ->
            (40 <= estimate wn (absolute_attrib self sc))%Q).
  { intros sc wn Hsc. destruct (Hnet wn) as (Hn & Hl & Hone).
    eapply Qle_trans; [|apply estimate_lower_bound; [lia|apply Hsize|now apply Hit]].
    change 40%Q with (inject_Z 40). rewrite <- Zle_Qle. lia. }
  assert (Hlow : (40 <= lowest_estimated_memory st)%Q).
  { rewrite (scenarios_loop_lowest _ _ _ _ _ _ _ _ _ _ Hloop). simpl.
    destruct (lowest_of_mem
                (computed_estimates WaterNetworkModel load_network n_nodes n_links
                   getsize self (scenarios self)) (inject_Z (10 ^ 12))) as [H|H].
    - rewrite H. discriminate.
    - apply computed_estimates_inv in H as (sc & wn & Hsc & ->). now apply Hest. }
  split; [exact Hlow|]. split.
  - intros j Hj.
    pose proof (created_jobs fs0) as Hsub. rewrite create_state, Hloop in Hsub.
    apply (elem_of_sublist _ _ _ Hj) in Hsub.
    apply possible_jobs_inv in Hsub as (sc & Hsc & Hsub).
    apply jobs_of_scenario_inv in Hsub as (wn & lc & _ & _ & ->). now apply Hest.
  - unfold create_job_list_and_write_configs. fold (initial_state fs0). rewrite Hloop.
    unfold Py.floordiv. destruct (Qeq_bool _ 0) eqn:E.
    + apply Qeq_bool_iff in E. rewrite E in Hlow. exfalso. now apply Hlow.
    + f_equal. f_equal.
      destruct (Z.ltb_spec (Qfloor (available_memory self / lowest_estimated_memory st))
                  (n_threads self)); lia.
Qed.

Lemma scenarios_loop_none_selected scs st :
  (forall sc, sc ∈ scs -> is_selected sel (name (attrib sc)) None = false) ->
  loop scs st = Returns st.
Proof.
  induction scs as [|sc scs IH]; intros Hs; simpl; [reflexivity|].
  rewrite scenario_body_skipped by (apply Hs, list_elem_of_here).
  apply IH. intros sc' Hin. apply Hs. now apply list_elem_of_further.
Qed.

(** When no scenario of the configuration is selected (an empty selection
    list, or selectors that name other scenarios), job creation touches
    nothing and makes no job, and the thread count becomes the minimum of
    the requested count and [floor(available / 10^12)]: with less than
    10^12 kB available it is clamped to 0. *)
Theorem nothing_selected_no_threads :
  forall (fs0 : FS),
    (forall sc, sc ∈ scenarios self ->
       is_selected sel (name (attrib sc)) None = false) ->
    create fs0
    = Returns (initial_state fs0,
               Z.min (n_threads self)
                 (Qfloor (available_memory self / inject_Z (10 ^ 12)))) /\
    ((0 <= available_memory self)%Q -> (available_memory self < inject_Z (10 ^ 12))%Q ->
       (0 <= n_threads self)%Z -> snd (state_of (create fs0)) = 0%Z).
Proof.
  intros fs0 Hnone.
  assert (Hrun : create fs0
            = Returns (initial_state fs0,
                       Z.min (n_threads self)
                         (Qfloor (available_memory self / inject_Z (10 ^ 12))))).
  { unfold create_job_list_and_write_configs. fold (initial_state fs0).
    rewrite (scenarios_loop_none_selected _ _ Hnone).
    change (Py.floordiv (available_memory self)
              (lowest_estimated_memory (initial_state fs0)))
      with (Some (Qfloor (available_memory self / inject_Z (10 ^ 12)))).
    cbv beta iota. f_equal. f_equal.
    destruct (Z.ltb_spec (Qfloor (available_memory self / inject_Z (10 ^ 12)))
                (n_threads self)); lia. }
  split; [exact Hrun|]. intros H0 Hlt Hthreads. rewrite Hrun. cbn [state_of snd].
  assert (Hq : Qfloor (available_memory self / inject_Z (10 ^ 12)) = 0%Z).
  { assert (Hpos : (0 < inject_Z (10 ^ 12))%Q) by reflexivity.
    assert (Hge : (0 <= Qfloor (available_memory self / inject_Z (10 ^ 12)))%Z).
    { change 0%Z with (Qfloor 0). apply Qfloor_resp_le.
      apply Qle_shift_div_l; [exact Hpos|]. now rewrite Qmult_0_l. }
    assert (Hlt1 : (Qfloor (available_memory self / inject_Z (10 ^ 12)) < 1)%Z).
    { rewrite Zlt_Qlt. eapply Qle_lt_trans; [apply Qfloor_le|].
      apply Qlt_shift_div_r; [exact Hpos|]. now rewrite Qmult_1_l. }
    lia. }
  rewrite Hq. lia.
Qed.

End JobCreation.

(** *** The theorems on the sample collection *)

Definition sample_jobs (self : ScenarioGenerator) : list SimulationJob :=
  possible_jobs unit sample_load sample_nodes sample_links sample_getsize self
    (create_sensor_masks (scenarios self)) (scenarios self).

(** Selection ["A.*"] without force, on a disk that holds the results of
    L1: the job list is the filtered configuration (the job of L2). *)
Lemma job_list_is_filtered_configuration_witness :
  let self := sample_generator false (Some ["A.*"]) 8 (5000 # 1) in
  let disk := fs_of_list [["collection"; "A"; "measurements"; "L1"]] in
  job_list (fst (state_of (sample_run self disk)))
  = List.filter (wanted self disk) (sample_jobs self).
Proof.
  intros self disk.
  apply (job_list_is_filtered_configuration unit sample_load sample_nodes sample_links
           sample_getsize self (create_sensor_masks (scenarios self)) disk
           (fst (state_of (sample_run self disk)))
           (snd (state_of (sample_run self disk)))).
  reflexivity.
Defined.

Lemma sample_names_differ :
  NoDup (map (fun sc => name (attrib sc)) [sample_scenario]) /\
  Forall (fun sc => NoDup (map leak_config_name (leak_configs_of (children sc))))
         [sample_scenario].
Proof.
  split; [apply NoDup_singleton|]. constructor; [|constructor].
  simpl. apply NoDup_cons. split; [|apply NoDup_singleton].
  intros H. apply list_elem_of_singleton in H. discriminate.
Qed.

(** The two jobs of the sample collection have different results
    directories. *)
Lemma jobs_follow_configuration_order_witness :
  let self := sample_generator false None 8 (5000 # 1) in
  NoDup (map results_path (job_list (fst (state_of (sample_run self (fs_of_list [])))))).
Proof.
  intros self.
  apply (jobs_follow_configuration_order unit sample_load sample_nodes sample_links
           sample_getsize self (create_sensor_masks (scenarios self)) (fs_of_list [])
           (proj1 sample_names_differ) (proj2 sample_names_differ)).
Defined.

(** The jobs of the sample collection carry the network path
    ["/data/net/a.inp"]. *)
Lemma jobs_carry_their_scenario_witness :
  let self := sample_generator false None 8 (5000 # 1) in
  Forall (fun j => isabs (network (scenario_config j)) = true)
         (job_list (fst (state_of (sample_run self (fs_of_list []))))).
Proof.
  intros self. apply Forall_forall. intros j Hj.
  apply (jobs_carry_their_scenario unit sample_load sample_nodes sample_links
           sample_getsize self (create_sensor_masks (scenarios self)) (fs_of_list []) j
           eq_refl Hj).
Defined.

(** Forcing ["A.L1"] on the sample disk: the job of L1 has no results
    directory, and its topology and leak config files are written. *)
Lemma jobs_have_their_files_witness :
  let self := sample_generator true (Some ["A.L1"]) 8 (5000 # 1) in
  let st := fst (state_of (sample_run self sample_disk)) in
  Forall (fun j => fs st (results_path j) = false /\
                   fs st ["collection"; name (scenario_config j); "topology.xml"] = true)
         (job_list st).
Proof.
  intros self st. apply Forall_forall. intros j Hj.
  destruct (jobs_have_their_files unit sample_load sample_nodes sample_links
              sample_getsize self (create_sensor_masks (scenarios self)) sample_disk j
              (or_intror (proj1 sample_names_differ)) Hj) as (H1 & H2 & _).
  split; [exact H1|exact H2].
Defined.

(** The sample network has 22 nodes and links: the lowest estimate is at
    least 40 kB. *)
Lemma memory_estimates_are_positive_witness :
  let self := sample_generator false None 8 (5000 # 1) in
  (40 <= lowest_estimated_memory (fst (state_of (sample_run self (fs_of_list [])))))%Q.
Proof.
  intros self.
  destruct (memory_estimates_are_positive unit sample_load sample_nodes sample_links
              sample_getsize self (create_sensor_masks (scenarios self)) (fs_of_list [])
              (fst (state_of (sample_run self (fs_of_list []))))) as (H & _).
  - intros wn. unfold sample_nodes, sample_links. lia.
  - intros p. unfold sample_getsize. lia.
  - intros sc Hsc. apply list_elem_of_singleton in Hsc as ->. simpl. lia.
  - reflexivity.
  - exact H.
Defined.

(** An empty selection list: no job, and the 8 requested threads become 0. *)
Lemma nothing_selected_no_threads_witness :
  let self := sample_generator false (Some []) 8 (5000 # 1) in
  snd (state_of (sample_run self sample_disk)) = 0%Z.
Proof.
  intros self.
  destruct (nothing_selected_no_threads unit sample_load sample_nodes sample_links
              sample_getsize self (create_sensor_masks (scenarios self)) sample_disk)
    as [_ H].
  - intros sc _. reflexivity.
  - apply H; [discriminate|reflexivity|simpl; lia].
Defined.

(** The sample collection, first on an empty disk and then on a disk with
    the results of L1: the second run makes the job of L2 only. *)
Lemma later_run_makes_the_missing_jobs_witness :
  let self := sample_generator false None 8 (5000 # 1) in
  let fs1 := fs_of_list [["collection"; "A"; "measurements"; "L1"]] in
  job_list (fst (state_of (sample_run self fs1)))
  = List.filter (fun j => negb (fs1 (results_path j)))
      (job_list (fst (state_of (sample_run self (fs_of_list []))))) /\
  snd (state_of (sample_run self fs1)) = snd (state_of (sample_run self (fs_of_list []))).
Proof.
  intros self fs1.
  apply (later_run_makes_the_missing_jobs unit sample_load sample_nodes sample_links
           sample_getsize self (create_sensor_masks (scenarios self))
           (fs_of_list []) fs1
           (fst (state_of (sample_run self (fs_of_list []))))
           (fst (state_of (sample_run self fs1)))).
  - reflexivity.
  - reflexivity.
  - intros j _ H. discriminate H.
  - reflexivity.
Defined.

End JobCreation.

(** ** Selection lists and sensor masks *)

Module Configuration.
Import Config Selection Generator.

(** The mask of one scenario, as the loop body of [create_sensor_masks]
    builds it. *)
Definition mask_of_scenario (sc : Scenario) : SensorMask :=
  foldl mask_of_collection inhabitant (children sc).

(** The set of a mask for one kind of sensor. *)
Definition mask_get (k : SensorKind) (m : SensorMask) : gset string :=
  match k with
  | PressureSensors => pressure m
  | FlowSensors => flow m
  | DemandSensors => demand m
  end.

Lemma add_sensors_get k m c id :
  id ∈ mask_get k (add_sensors m c) <-> id ∈ mask_get k m \/ (fst c = k /\ id ∈ snd c).
Proof.
  destruct c as [k' ids]. unfold add_sensors. simpl.
  destruct k, k'; simpl; rewrite ?elem_of_union, ?elem_of_list_to_set;
    split; intros H; try tauto; try (destruct H as [H|[H _]]; [tauto|discriminate]).
Qed.

Lemma sensor_collections_get k cols : forall m id,
  id ∈ mask_get k (foldl add_sensors m cols) <->
  id ∈ mask_get k m \/ exists ids, (k, ids) ∈ cols /\ id ∈ ids.
Proof.
  induction cols as [|c cols IH]; intros m id; simpl.
  - split; [auto|]. intros [H|(ids & H & _)]; [exact H|inversion H].
  - rewrite IH, add_sensors_get. split.
    + intros [[H|[Hk H]]|(ids & Hin & H)]; [now left| |].
      * right. exists (snd c). split; [|exact H].
        destruct c; simpl in *; subst. apply list_elem_of_here.
      * right. exists ids. split; [now apply list_elem_of_further|exact H].
    + intros [H|(ids & Hin & H)]; [auto|].
      apply elem_of_cons in Hin as [<-|Hin]; [left; right; auto|].
      right. eauto.
Qed.

Lemma sensor_configs_get k configs : forall m id,
  id ∈ mask_get k (foldl (fun m sc => foldl add_sensors m (sensor_collections sc)) m configs) <->
  id ∈ mask_get k m \/
  exists c ids, c ∈ configs /\ (k, ids) ∈ sensor_collections c /\ id ∈ ids.
Proof.
  induction configs as [|c configs IH]; intros m id; simpl.
  - split; [auto|]. intros [H|(c & ids & H & _)]; [exact H|inversion H].
  - rewrite IH, sensor_collections_get. split.
    + intros [[H|(ids & Hin & H)]|(c' & ids & Hc & Hin & H)]; [now left| |].
      * right. exists c, ids. split; [apply list_elem_of_here|auto].
      * right. exists c', ids. split; [now apply list_elem_of_further|auto].
    + intros [H|(c' & ids & Hc & Hin & H)]; [auto|].
      apply elem_of_cons in Hc as [->|Hc]; [left; right; eauto|].
      right. eauto.
Qed.

Lemma collections_get k ccs : forall m id,
  id ∈ mask_get k (foldl mask_of_collection m ccs) <->
  id ∈ mask_get k m \/
  exists configs c ids, SensorConfigs configs ∈ ccs /\ c ∈ configs /\
                        (k, ids) ∈ sensor_collections c /\ id ∈ ids.
Proof.
  induction ccs as [|cc ccs IH]; intros m id; simpl.
  - split; [auto|]. intros [H|(cs & c & ids & H & _)]; [exact H|inversion H].
  - rewrite IH. split.
    + intros [H|(cs & c & ids & Hcs & H)].
      * destruct cc as [configs|configs|configs]; simpl in H; try (now left).
        apply sensor_configs_get in H as [H|(c & ids & H)]; [now left|].
        right. exists configs, c, ids. split; [apply list_elem_of_here|exact H].
      * right. exists cs, c, ids. split; [now apply list_elem_of_further|exact H].
    + intros [H|(cs & c & ids & Hcs & H)].
      * left. destruct cc as [configs|configs|configs]; simpl; try exact H.
        apply sensor_configs_get. now left.
      * apply elem_of_cons in Hcs as [<-|Hcs]; [|right; eauto 10].
        left. simpl. apply sensor_configs_get. right. eauto.
Qed.

Lemma mask_get_empty k id : id ∉ mask_get k inhabitant.
Proof. destruct k; simpl; set_solver. Qed.

Lemma create_sensor_masks_snoc (scs : list Scenario) (sc : Scenario) :
  create_sensor_masks (scs ++ [sc])
  = <[name (attrib sc) := mask_of_scenario sc]> (create_sensor_masks scs).
Proof. unfold create_sensor_masks. now rewrite foldl_snoc. Qed.

(** The masks hold, under the name of a scenario, the mask of the last
    scenario of that name, and nothing under any other name; and the mask
    of a scenario holds, for each kind of sensor, exactly the ids listed
    for that kind in its sensor configs. *)
Theorem sensor_masks_hold_all_sensors :
  forall (scs : list Scenario) (n : string) (sc : Scenario) (k : SensorKind) (id : string),
    create_sensor_masks scs !! n
    = mask_of_scenario <$> last (filter (fun sc => name (attrib sc) = n) scs) /\
    (id ∈ mask_get k (mask_of_scenario sc) <->
       exists configs c ids,
         SensorConfigs configs ∈ children sc /\ c ∈ configs /\
         (k, ids) ∈ sensor_collections c /\ id ∈ ids).
Proof.
  intros scs n sc k id. split.
  - induction scs as [|x scs IH] using rev_ind; [reflexivity|].
    rewrite create_sensor_masks_snoc, filter_app.
    destruct (decide (name (attrib x) = n)) as [Heq|Hne].
    + rewrite Heq, lookup_insert_eq.
      rewrite (filter_cons_True _ x []) by exact Heq.
      rewrite filter_nil. now rewrite last_snoc.
    + rewrite lookup_insert_ne by exact Hne.
      rewrite (filter_cons_False _ x []) by exact Hne.
      rewrite filter_nil, app_nil_r. exact IH.
  - unfold mask_of_scenario. rewrite collections_get. split; [|auto].
    intros [H|H]; [|exact H]. now apply mask_get_empty in H.
Qed.

(** Selection lists add up: what a concatenation of two lists selects is
    what either of them selects.  The empty list selects nothing, and a
    pair that is selected belongs to a scenario that is selected. *)
Theorem selection_lists_add_up :
  forall (l1 l2 : list string) (s l : string) (lo : option string),
    is_selected (Some (l1 ++ l2)) s lo
    = is_selected (Some l1) s lo || is_selected (Some l2) s lo /\
    is_selected (Some []) s lo = false /\
    (is_selected (Some l1) s (Some l) = true -> is_selected (Some l1) s None = true).
Proof.
  intros l1 l2 s l lo. split; [|split].
  - destruct lo as [x|]; simpl; [|apply existsb_app].
    assert (Happ : forall y, bool_decide (y ∈ l1 ++ l2)
                             = bool_decide (y ∈ l1) || bool_decide (y ∈ l2)).
    { intros y. rewrite <- bool_decide_or. apply bool_decide_ext, elem_of_app. }
    rewrite !Happ.
    destruct (bool_decide (s +:+ "." +:+ x ∈ l1)), (bool_decide (s +:+ "." +:+ x ∈ l2)),
             (bool_decide (s +:+ ".*" ∈ l1)), (bool_decide (s +:+ ".*" ∈ l2)); reflexivity.
  - destruct lo; reflexivity.
  - apply is_selected_scenario.
Qed.

End Configuration.

(** ** The budget beyond the C int, and the worker on one process *)

Module BudgetLimits.
Import MemoryBudget.

Local Open Scope Z_scope.

Lemma wrap32_high z : 2 ^ 31 <= z < 2 ^ 32 -> wrap32 z = z - 2 ^ 32.
Proof.
  intros H. unfold wrap32.
  replace (z + 2 ^ 31) with ((z - 2 ^ 31) + 1 * 2 ^ 32) by lia.
  rewrite Z.mod_add by lia. rewrite Z.mod_small; lia.
Qed.

Lemma run_on_negative_counter ops : forall c s,
  c < 0 -> nonneg_amounts ops = true ->
  run ops (Budget c []) = Some s -> s = Budget c [].
Proof.
  induction ops as [|o ops IH]; intros c s Hc Hops Hrun; simpl in *.
  - now injection Hrun as <-.
  - apply andb_prop in Hops as [Ho Hops]. apply Z.leb_le in Ho.
    destruct o as [m|m]; simpl in *.
    + unfold _reserve_memory in Hrun.
      destruct (Z.leb_spec 0 (c - Py.int_of_float m)); [lia|].
      simpl in Hrun. now apply IH.
    + discriminate.
Qed.

(** The counter is a C int.  With 2^31 kB or more available (and less
    than 2^32), the value stored at the start is the amount minus 2^32, a
    negative number; no reservation of a non-negative amount succeeds
    then, whatever was tried before, so the counter never moves and no job
    is ever admitted. *)
Theorem budget_beyond_int_runs_nothing :
  forall (available_memory memory : Q) (ops : list op) (s : budget),
    2 ^ 31 <= Py.int_of_float available_memory < 2 ^ 32 ->
    nonneg_amounts ops = true ->
    0 <= Py.int_of_float memory ->
    run ops (Budget (initial_counter available_memory) []) = Some s ->
    initial_counter available_memory = Py.int_of_float available_memory - 2 ^ 32 /\
    s = Budget (initial_counter available_memory) [] /\
    _reserve_memory (counter s) memory = (false, counter s).
Proof.
  intros available_memory memory ops s HB Hops Hm Hrun.
  assert (Hc : initial_counter available_memory
               = Py.int_of_float available_memory - 2 ^ 32)
    by (unfold initial_counter; now apply wrap32_high).
  assert (Hs : s = Budget (initial_counter available_memory) []).
  { apply (run_on_negative_counter ops); [lia|exact Hops|exact Hrun]. }
  split; [exact Hc|]. split; [exact Hs|].
  rewrite Hs. simpl. unfold _reserve_memory.
  destruct (Z.leb_spec 0 (initial_counter available_memory - Py.int_of_float memory));
    [lia|reflexivity].
Qed.

(** 3 * 10^9 kB available: the counter starts at -1294967296. *)
Lemma budget_beyond_int_runs_nothing_witness :
  initial_counter (3000000000 # 1) = -1294967296 /\
  _reserve_memory (-1294967296) (1212 # 1) = (false, -1294967296).
Proof.
  destruct (budget_beyond_int_runs_nothing (3000000000 # 1) (1212 # 1)
              [Reserve (1212 # 1); Reserve (5 # 1)] (Budget (-1294967296) []))
    as (H1 & _ & H3).
  - vm_compute. split; [discriminate|reflexivity].
  - reflexivity.
  - vm_compute. discriminate.
  - reflexivity.
  - split; [exact H1|exact H3].
Defined.

End BudgetLimits.

Module WorkerFacts.
Import Config FileSystem LeakModel Worker.

(** [pool.imap_unordered(Worker.worker, job_list)] on a pool of one
    process, which is what [run] sets up when the thread count is 1 (the
    default, when neither [--parallel] nor [--threads] is given): the jobs
    are worked off one after the other, each on the counter and the file
    system the one before has left.  The result is [None] when a worker
    waits for memory that nobody can give back, and when a worker raises:
    the loop of [run] then ends with the exception while the pool is left
    as it is, and how far its process gets with the queued jobs is not
    fixed by the code. *)
Fixpoint pool_of_one {WN Results : Type} `{!Wntr WN Results}
    (jobs : list SimulationJob) (c : Z) (fs : FS)
    : option (list worker_exit * Z * FS) :=
  match jobs with
  | [] => Some ([], c, fs)
  | job :: rest =>
      match worker job c fs with
      | None => None
      | Some x =>
          match exit x with
          | Raised => None
          | _ =>
              match pool_of_one rest (counter_after x) (fs_after x) with
              | None => None
              | Some (xs, c', fs') => Some (x :: xs, c', fs')
              end
          end
      end
  end.

Section WorkerFacts.

Context {WN Results : Type} `{!Wntr WN Results}.

(** The three files [save] writes for a job. *)
Definition result_files (job : SimulationJob) : list path :=
  let ext := if String.eqb (dtype job) "csv" then ".csv" else ".pkl" in
  map (fun t => results_path job ++ [t +:+ ext]) ["pressure"; "flow"; "demand"].

Lemma makedirs_once_effect (p q : path) (fs : FS) :
  let fs' := if fs p then fs else makedirs p fs in
  (fs q = true -> fs' q = true) /\
  (fs q = false -> fs' q = true -> under q p = true) /\
  fs' p = true.
Proof.
  simpl. destruct (fs p) eqn:E; unfold makedirs.
  - split; [auto|]. split; [congruence|exact E].
  - split; [intros ->; reflexivity|]. split.
    + intros -> H. exact H.
    + rewrite under_refl. apply orb_true_r.
Qed.

Lemma write_three_effect (a b c q : path) (fs : FS) :
  let fs' := write_file a (write_file b (write_file c fs)) in
  (fs q = true -> fs' q = true) /\
  (fs q = false -> fs' q = true -> q ∈ [c; b; a]) /\
  Forall (fun f => fs' f = true) [c; b; a].
Proof.
  simpl. unfold write_file. split; [|split].
  - intros ->. reflexivity.
  - intros ->. simpl. intros H.
    apply orb_prop in H as [H|H]; [apply orb_prop in H as [H|H]|];
      apply bool_decide_eq_true in H; subst; set_solver.
  - apply Forall_forall. intros f Hf.
    rewrite !orb_true_iff, !bool_decide_eq_true.
    repeat (apply elem_of_cons in Hf as [->|Hf]); [tauto..|inversion Hf].
Qed.

Lemma save_returns_effect job results fs fs' :
  save job results fs = Generator.Returns fs' ->
  fs' (results_path job) = true /\
  Forall (fun f => fs' f = true) (result_files job) /\
  (forall q, fs q = true -> fs' q = true) /\
  (forall q, fs q = false -> fs' q = true ->
     under q (results_path job) = true \/ q ∈ result_files job).
Proof.
  unfold save, result_files.
  destruct (select_columns _ _) as [tables|]; [|discriminate].
  set (p := results_path job).
  set (fs1 := if fs p then fs else makedirs p fs).
  assert (M := fun q => makedirs_once_effect p q fs). fold fs1 in M. cbv zeta in M.
  assert (Hgen : forall ext fs2,
            fs2 = write_file (p ++ ["demand" +:+ ext])
                    (write_file (p ++ ["flow" +:+ ext])
                       (write_file (p ++ ["pressure" +:+ ext]) fs1)) ->
            fs2 p = true /\
            Forall (fun f => fs2 f = true)
              (map (fun t => p ++ [t +:+ ext]) ["pressure"; "flow"; "demand"]) /\
            (forall q, fs q = true -> fs2 q = true) /\
            (forall q, fs q = false -> fs2 q = true ->
               under q p = true \/
               q ∈ map (fun t => p ++ [t +:+ ext]) ["pressure"; "flow"; "demand"])).
  { intros ext fs2 ->.
    assert (W := fun q => write_three_effect (p ++ ["demand" +:+ ext])
                            (p ++ ["flow" +:+ ext]) (p ++ ["pressure" +:+ ext]) q fs1).
    cbv zeta in W. split; [|split; [|split]].
    - destruct (W p) as (W1 & _). destruct (M p) as (_ & _ & M3). apply W1, M3.
    - destruct (W []) as (_ & _ & W3). exact W3.
    - intros q Hq. destruct (W q) as (W1 & _). destruct (M q) as (M1 & _).
      apply W1, M1, Hq.
    - intros q Hq H2. destruct (W q) as (_ & W2 & _). destruct (M q) as (_ & M2 & _).
      destruct (fs1 q) eqn:E; [left; now apply M2|right; now apply W2]. }
  destruct (String.eqb (dtype job) "csv").
  - intros H. injection H as <-. now apply (Hgen ".csv").
  - destruct (astype _ "pressure" _); [|discriminate].
    destruct (astype _ "flow" _); [|discriminate].
    destruct (astype _ "demand" _); [|discriminate].
    intros H. injection H as <-. now apply (Hgen ".pkl").
Qed.

Ltac in_list :=
  first [apply list_elem_of_here | apply list_elem_of_further; in_list].

Lemma file_not_above (p : path) (f : string) : under (p ++ [f]) p = false.
Proof.
  destruct (under (p ++ [f]) p) eqn:E; [|reflexivity].
  apply under_length in E. rewrite length_app in E. simpl in E. lia.
Qed.

(** The pickles that [save] has written when the conversion of a table
    raises: those of the tables before it. *)
Definition pickled (tables : Results) (dtype : string) : list string :=
  match astype tables "pressure" dtype with
  | None => []
  | Some _ =>
      match astype tables "flow" dtype with
      | None => ["pressure.pkl"]
      | Some _ => ["pressure.pkl"; "flow.pkl"]
      end
  end.

Lemma save_raises_effect job results fs fs' :
  save job results fs = Generator.Raises fs' ->
  (forall q, fs q = true -> fs' q = true) /\
  (select_columns results (sensor_mask job) = None -> fs' = fs) /\
  (forall tables, select_columns results (sensor_mask job) = Some tables ->
     String.eqb (dtype job) "csv" = false /\
     (exists t, t ∈ ["pressure"; "flow"; "demand"] /\
                astype tables t (dtype job) = None) /\
     fs' (results_path job) = true /\
     (forall q, fs q = false -> fs' q = true ->
        under q (results_path job) = true \/
        exists f, f ∈ pickled tables (dtype job) /\ q = results_path job ++ [f]) /\
     (forall f, f ∈ pickled tables (dtype job) -> fs' (results_path job ++ [f]) = true)).
Proof.
  unfold save, pickled.
  destruct (select_columns _ _) as [tables|].
  2:{ intros H. injection H as <-. split; [auto|]. split; [reflexivity|]. discriminate. }
  set (p := results_path job).
  set (fs1 := if fs p then fs else makedirs p fs).
  assert (M := fun q => makedirs_once_effect p q fs). fold fs1 in M. cbv zeta in M.
  destruct (String.eqb (dtype job) "csv"); [discriminate|].
  intros Hsave.
  assert (Hkeep : forall q, fs q = true -> fs' q = true).
  { intros q Hq. destruct (M q) as (M1 & _). specialize (M1 Hq). revert Hsave.
    destruct (astype tables "pressure" _); [|intros H; now injection H as <-].
    destruct (astype tables "flow" _);
      [|intros H; injection H as <-; unfold write_file; now rewrite M1].
    destruct (astype tables "demand" _); [discriminate|].
    intros H. injection H as <-. unfold write_file. now rewrite M1. }
  split; [exact Hkeep|]. split; [discriminate|].
  intros tables' Htab. injection Htab as <-. split; [reflexivity|].
  destruct (M p) as (_ & _ & Mp). revert Hsave.
  destruct (astype tables "pressure" _) eqn:Ep.
  2:{ intros H. injection H as <-. split; [exists "pressure"; split; [in_list|exact Ep]|].
      split; [exact Mp|]. split.
      - intros q H0 H1. left. destruct (M q) as (_ & M2 & _). now apply M2.
      - intros f Hf. inversion Hf. }
  destruct (astype tables "flow" _) eqn:Ef.
  2:{ intros H. injection H as <-. split; [exists "flow"; split; [in_list|exact Ef]|].
      unfold write_file. split; [now rewrite Mp|]. split.
      - intros q H0 H1. destruct (M q) as (_ & M2 & _).
        apply orb_prop in H1 as [H1|H1]; [left; now apply M2|].
        right. exists "pressure.pkl". apply bool_decide_eq_true in H1.
        split; [in_list|exact H1].
      - intros f Hf. apply list_elem_of_singleton in Hf as ->.
        rewrite bool_decide_eq_true_2 by reflexivity. apply orb_true_r. }
  destruct (astype tables "demand" _) eqn:Ed; [discriminate|].
  intros H. injection H as <-. split; [exists "demand"; split; [in_list|exact Ed]|].
  unfold write_file. split; [now rewrite Mp|]. split.
  - intros q H0 H1. destruct (M q) as (_ & M2 & _).
    apply orb_prop in H1 as [H1|H1]; [apply orb_prop in H1 as [H1|H1]|].
    + left. now apply M2.
    + right. exists "pressure.pkl". apply bool_decide_eq_true in H1.
      split; [in_list|exact H1].
    + right. exists "flow.pkl". apply bool_decide_eq_true in H1.
      split; [in_list|exact H1].
  - intros f Hf. rewrite !elem_of_cons, elem_of_nil in Hf.
    destruct Hf as [->|[->|[]]];
      rewrite !orb_true_iff, !bool_decide_eq_true; tauto.
Qed.

Lemma pickled_result_files job tables f :
  String.eqb (dtype job) "csv" = false ->
  f ∈ pickled tables (dtype job) -> results_path job ++ [f] ∈ result_files job.
Proof.
  intros Hcsv Hf. unfold result_files. rewrite Hcsv. unfold pickled in Hf.
  destruct (astype tables "pressure" _); [|inversion Hf].
  destruct (astype tables "flow" _);
    rewrite ?elem_of_cons, ?elem_of_nil in Hf;
    repeat (destruct Hf as [->|Hf]; [cbn; in_list|]); destruct Hf.
Qed.

Lemma save_conversion_files job results tables fs fs' :
  save job results fs = Generator.Raises fs' ->
  select_columns results (sensor_mask job) = Some tables ->
  forall f, fs' (results_path job ++ [f]) = true <->
            fs (results_path job ++ [f]) = true \/ f ∈ pickled tables (dtype job).
Proof.
  intros Hsave Hsel f.
  destruct (save_raises_effect _ _ _ _ Hsave) as (H1 & _ & H3).
  destruct (H3 tables Hsel) as (_ & _ & _ & Hnew & Hold). split.
  - intros H. destruct (fs (results_path job ++ [f])) eqn:E0; [now left|]. right.
    destruct (Hnew _ E0 H) as [Hu|(f' & Hf' & Heq)].
    + rewrite file_not_above in Hu. discriminate.
    + apply app_inv_head in Heq. now injection Heq as ->.
  - intros [H|H]; [now apply H1|now apply Hold].
Qed.

Lemma worker_effect job c fs x :
  worker job c fs = Some x ->
  (forall q, fs q = true -> fs_after x q = true) /\
  (forall q, fs q = false -> fs_after x q = true ->
     under q (results_path job) = true \/ q ∈ result_files job) /\
  (exit x = Finished -> fs_after x (results_path job) = true).
Proof.
  unfold worker.
  destruct (MemoryBudget._reserve_memory c (memory_estimate job)) as [[] c1];
    [|discriminate].
  intros H. injection H as <-.
  destruct (init job) as [[[] wn]|]; simpl;
    try (split; [auto|]; split; [congruence|discriminate]).
  destruct (run_sim wn) as [res|]; simpl;
    try (split; [auto|]; split; [congruence|discriminate]).
  destruct (save job res fs) as [fs'|fs'] eqn:E; simpl.
  - apply save_returns_effect in E as (E1 & _ & E3 & E4). auto.
  - pose proof (save_raises_effect _ _ _ _ E) as (E1 & E2 & E3). split; [exact E1|].
    split; [|discriminate]. intros q H0 H1.
    destruct (select_columns res (sensor_mask job)) as [tables|] eqn:Esel.
    + destruct (E3 tables eq_refl) as (Hcsv & _ & _ & Hnew & _).
      destruct (Hnew q H0 H1) as [Hu|(f & Hf & ->)]; [now left|].
      right. now apply (pickled_result_files job tables).
    + rewrite (E2 eq_refl) in H1. congruence.
Qed.


Lemma worker_finished_counter job c fs x :
  worker job c fs = Some x ->
  (0 <= c < 2 ^ 31)%Z -> (0 <= Py.int_of_float (memory_estimate job))%Z ->
  (exit x = Finished -> counter_after x = c) /\
  (exit x <> Finished -> counter_after x = (c - Py.int_of_float (memory_estimate job))%Z).
Proof.
  intros Hw Hc Ha.
  destruct (worker_release_only_at_end job c fs x Hw) as (_ & Hno & Hyes).
  assert (Hres : MemoryBudget._reserve_memory c (memory_estimate job)
                 = (true, (c - Py.int_of_float (memory_estimate job))%Z)).
  { unfold worker in Hw. unfold MemoryBudget._reserve_memory in *.
    destruct (Z.leb_spec 0 (c - Py.int_of_float (memory_estimate job))); [|discriminate].
    rewrite MemoryBudget.wrap32_id by (unfold MemoryBudget.in_int32; lia). reflexivity. }
  rewrite Hres in Hno, Hyes. simpl in Hno, Hyes. split; [|exact Hno].
  intros Hfin. rewrite (Hyes Hfin). unfold MemoryBudget._unreserve_memory.
  assert (0 <= c - Py.int_of_float (memory_estimate job))%Z.
  { unfold MemoryBudget._reserve_memory in Hres.
    destruct (Z.leb_spec 0 (c - Py.int_of_float (memory_estimate job)));
      [assumption|discriminate]. }
  rewrite MemoryBudget.wrap32_id by (unfold MemoryBudget.in_int32; lia). lia.
Qed.

Lemma pool_of_one_exits jobs : forall c fs exits c1 fs1,
  pool_of_one jobs c fs = Some (exits, c1, fs1) ->
  Forall (fun x => exit x <> Raised) exits.
Proof.
  induction jobs as [|job jobs IH]; intros c fs exits c1 fs1 Hpool; simpl in Hpool.
  - injection Hpool as <- <- <-. constructor.
  - destruct (worker job c fs) as [x|] eqn:Hw; [|discriminate].
    destruct (exit x) eqn:Hexit; try discriminate;
      (destruct (pool_of_one jobs _ _) as [[[xs c'] fs']|] eqn:Hrest; [|discriminate]);
      injection Hpool as <- <- <-;
      (constructor; [congruence|exact (IH _ _ _ _ _ Hrest)]).
Qed.

Lemma pool_of_one_effect jobs : forall c fs exits c1 fs1,
  pool_of_one jobs c fs = Some (exits, c1, fs1) ->
  (forall q, fs q = true -> fs1 q = true) /\
  (Forall (fun x => exit x = Finished) exits ->
     Forall (fun j => fs1 (results_path j) = true) jobs /\
     ((0 <= c < 2 ^ 31)%Z ->
      Forall (fun j => (0 <= Py.int_of_float (memory_estimate j))%Z) jobs -> c1 = c)).
Proof.
  induction jobs as [|job jobs IH]; intros c fs exits c1 fs1 Hpool; simpl in Hpool.
  - injection Hpool as <- <- <-. split; [auto|]. intros _. split; [constructor|auto].
  - destruct (worker job c fs) as [x|] eqn:Hw; [|discriminate].
    destruct (worker_effect job c fs x Hw) as (Hmono & _ & Hres).
    assert (Hrec : forall xs c' fs',
              pool_of_one jobs (counter_after x) (fs_after x) = Some (xs, c', fs') ->
              exit x <> Raised ->
              (forall q, fs q = true -> fs' q = true) /\
              (Forall (fun y => exit y = Finished) (x :: xs) ->
                 Forall (fun j => fs' (results_path j) = true) (job :: jobs) /\
                 ((0 <= c < 2 ^ 31)%Z ->
                  Forall (fun j => (0 <= Py.int_of_float (memory_estimate j))%Z)
                         (job :: jobs) -> c' = c))).
    { intros xs c' fs' Hrest Hnr.
      destruct (IH _ _ _ _ _ Hrest) as (Hm2 & Hall). split; [auto|].
      intros Hfin. apply Forall_cons in Hfin as [Hx Hxs].
      destruct (Hall Hxs) as (Hpaths & Hcnt). split.
      - constructor; [apply Hm2, Hres, Hx|exact Hpaths].
      - intros Hc Hest. apply Forall_cons in Hest as [Ha Hest].
        destruct (worker_finished_counter job c fs x Hw Hc Ha) as [Hback _].
        rewrite (Hback Hx) in Hcnt. now apply Hcnt. }
    destruct (exit x) eqn:Hexit.
    + destruct (pool_of_one jobs _ _) as [[[xs c'] fs']|] eqn:Hrest; [|discriminate].
      injection Hpool as <- <- <-. apply Hrec; [reflexivity|discriminate].
    + destruct (pool_of_one jobs _ _) as [[[xs c'] fs']|] eqn:Hrest; [|discriminate].
      injection Hpool as <- <- <-. apply Hrec; [reflexivity|discriminate].
    + discriminate.
Qed.

(** What [worker] does with a job, on a counter [c] that fits the C int
    and for a non-negative amount [a = int(estimate)].  It waits exactly
    when [c < a].  Otherwise it runs to the end exactly when [init]
    returns True, the simulation runs and [save] returns; then the counter
    is back at [c], the waiters are notified and the result files exist.
    On every other exit the counter stays at [c - a] and nobody is
    notified.  The worker removes nothing from disk. *)
Theorem worker_outcomes :
  forall (job : SimulationJob) (c : Z) (fs : FS),
    (0 <= c < 2 ^ 31)%Z -> (0 <= Py.int_of_float (memory_estimate job))%Z ->
    (worker job c fs = None <-> (c < Py.int_of_float (memory_estimate job))%Z) /\
    (forall x, worker job c fs = Some x ->
       (exit x = Finished <->
          exists wn results fs',
            init job = Ret (true, wn) /\ run_sim wn = Some results /\
            save job results fs = Generator.Returns fs') /\
       (exit x = Finished ->
          notified x = true /\ counter_after x = c /\
          fs_after x (results_path job) = true /\
          Forall (fun f => fs_after x f = true) (result_files job)) /\
       (exit x <> Finished ->
          notified x = false /\
          counter_after x = (c - Py.int_of_float (memory_estimate job))%Z) /\
       (forall q, fs q = true -> fs_after x q = true)).
Proof.
  intros job c fs Hc Ha. split.
  - unfold worker, MemoryBudget._reserve_memory.
    destruct (Z.leb_spec 0 (c - Py.int_of_float (memory_estimate job)));
      split; intros H'; try discriminate; try reflexivity; lia.
  - intros x Hw.
    destruct (worker_release_only_at_end job c fs x Hw) as (Hnot & _).
    destruct (worker_finished_counter job c fs x Hw Hc Ha) as (Hyes & Hno).
    destruct (worker_effect job c fs x Hw) as (Hmono & _ & Hres).
    assert (Hfin : exit x = Finished <->
              exists wn results fs',
                init job = Ret (true, wn) /\ run_sim wn = Some results /\
                save job results fs = Generator.Returns fs' /\ fs_after x = fs').
    { revert Hw. unfold worker.
      destruct (MemoryBudget._reserve_memory c (memory_estimate job)) as [[] c1];
        [|discriminate].
      intros H'. injection H' as <-.
      destruct (init job) as [[[] wn]|]; simpl.
      2,3: split; [discriminate|intros (? & ? & ? & H1 & _); discriminate H1].
      destruct (run_sim wn) as [res|] eqn:Hr; simpl.
      2: { split; [discriminate|]. intros (wn' & r' & f' & H1 & H2 & _).
           injection H1 as <-. congruence. }
      destruct (save job res fs) as [fs'|fs'] eqn:E; simpl.
      - split; [intros _; exists wn, res, fs'; repeat split; assumption|reflexivity].
      - split; [discriminate|].
        intros (wn' & res' & fs'' & H1 & H2 & H3 & _).
        injection H1 as <-. rewrite Hr in H2. injection H2 as <-. congruence. }
    split; [|split; [|split; [|exact Hmono]]].
    + split.
      * intros Hx. apply Hfin in Hx as (wn & res & fs' & H1 & H2 & H3 & _).
        exists wn, res, fs'. auto.
      * intros (wn & res & fs' & H1 & H2 & H3). revert Hw. unfold worker.
        destruct (MemoryBudget._reserve_memory c (memory_estimate job)) as [[] c1];
          [|discriminate].
        rewrite H1, H2, H3. intros Hw. now injection Hw as <-.
    + intros Hx. split; [now apply Hnot|]. split; [now apply Hyes|].
      split; [now apply Hres|].
      apply Hfin in Hx as (wn & res & fs' & _ & _ & Hsave & ->).
      now apply save_returns_effect in Hsave as (_ & Hfiles & _).
    + intros Hx. split; [|now apply Hno].
      destruct (notified x) eqn:En; [|reflexivity]. exfalso. now apply Hx, Hnot.
Qed.

(** What [save] leaves on disk.  When it returns, the results directory
    and the three files of the chosen format exist, and what is new is one
    of these files, the directory or an ancestor of it.  When it raises
    because a masked sensor is missing from the results, the disk is
    untouched.  Otherwise it raises at the conversion of one of the three
    tables to the data type; the results directory has been made by then,
    and the files it holds are those that were there before and the
    pickles of the tables converted before the one that failed: none when
    it is the pressure, [pressure.pkl] when it is the flow, [pressure.pkl]
    and [flow.pkl] when it is the demand.  Nothing is ever removed. *)
Theorem save_leaves_on_disk :
  forall (job : SimulationJob) (results : Results) (fs : FS),
    (forall fs', save job results fs = Generator.Returns fs' ->
       fs' (results_path job) = true /\
       Forall (fun f => fs' f = true) (result_files job) /\
       (forall q, fs q = true -> fs' q = true) /\
       (forall q, fs q = false -> fs' q = true ->
          under q (results_path job) = true \/ q ∈ result_files job)) /\
    (forall fs', save job results fs = Generator.Raises fs' ->
       (forall q, fs q = true -> fs' q = true) /\
       (select_columns results (sensor_mask job) = None -> fs' = fs) /\
       (forall tables, select_columns results (sensor_mask job) = Some tables ->
          (exists t, t ∈ ["pressure"; "flow"; "demand"] /\
                     astype tables t (dtype job) = None) /\
          fs' (results_path job) = true /\
          (forall f, fs' (results_path job ++ [f]) = true <->
                     fs (results_path job ++ [f]) = true \/
                     f ∈ pickled tables (dtype job)) /\
          (forall q, fs q = false -> fs' q = true ->
             under q (results_path job) = true \/
             exists f, f ∈ pickled tables (dtype job) /\ q = results_path job ++ [f]))).
Proof.
  intros job results fs. split.
  - intros fs'. apply save_returns_effect.
  - intros fs' Hsave.
    destruct (save_raises_effect job results fs fs' Hsave) as (H1 & H2 & H3).
    split; [exact H1|]. split; [exact H2|]. intros tables Hsel.
    destruct (H3 tables Hsel) as (_ & Hfail & Hdir & Hnew & _).
    split; [exact Hfail|]. split; [exact Hdir|]. split; [|exact Hnew].
    exact (save_conversion_files job results tables fs fs' Hsave Hsel).
Qed.

End WorkerFacts.

(** *** A run on one process, and the run after it *)

Section Rerun.

Import Generator.

Context {WN Results : Type} `{!Wntr WN Results}.

Variable Network : Type.
Variable load_network : string -> option Network.
Variable n_nodes n_links : Network -> Z.
Variable getsize : string -> Z.
Variable self : ScenarioGenerator.

Local Abbreviation create :=
  (create_job_list_and_write_configs Network load_network n_nodes n_links getsize self
     (create_sensor_masks (scenarios self))).

Lemma job_creation_keeps_without_force fs0 q :
  force_regenerate self = false -> fs0 q = true ->
  fs (fst (state_of (create fs0))) q = true.
Proof.
  intros Hf H0. rewrite JobCreation.create_state.
  destruct (JobCreation.scenarios_loop_frame Network load_network n_nodes n_links getsize
              self (create_sensor_masks (scenarios self)) (scenarios self)
              (initial_state fs0)) as (A & _).
  destruct (fs _ q) eqn:E; [reflexivity|].
  destruct (A q H0 E) as [Hf' _]. congruence.
Qed.

(** After the jobs of a run without force and with one thread have been
    worked off without an exception, the next run returns with the same
    thread count and makes exactly the jobs whose results directory is
    still missing: those whose worker gave up at [init].  When every worker
    ran to its end there is none, and the counter is back at the budget it
    started from (for a budget that fits the C int and non-negative
    amounts). *)
Theorem rerun_after_one_process_run :
  forall (fs0 fs1 : FS) (st : GenState) (c1 : Z) (exits : list worker_exit),
    force_regenerate self = false ->
    create fs0 = Returns (st, 1%Z) ->
    pool_of_one (job_list st) (MemoryBudget.initial_counter (available_memory self))
                (fs st) = Some (exits, c1, fs1) ->
    exists st2,
      create fs1 = Returns (st2, 1%Z) /\
      job_list st2 = List.filter (fun j => negb (fs1 (results_path j))) (job_list st) /\
      Forall (fun x => exit x <> Raised) exits /\
      (Forall (fun x => exit x = Finished) exits ->
         job_list st2 = [] /\
         ((0 <= Py.int_of_float (available_memory self) < 2 ^ 31)%Z ->
          Forall (fun j => (0 <= Py.int_of_float (memory_estimate j))%Z) (job_list st) ->
          c1 = MemoryBudget.initial_counter (available_memory self))).
Proof.
  intros fs0 fs1 st c1 exits Hf Hrun Hpool.
  destruct (create_returns_again _ _ _ _ _ _ _ fs0 st 1%Z fs1 Hrun) as (st2 & Hrun2 & _).
  destruct (pool_of_one_effect _ _ _ _ _ _ Hpool) as (Hmono & Hall).
  assert (Hst : fst (state_of (create fs0)) = st) by now rewrite Hrun.
  assert (Hjobs : job_list st2
                  = List.filter (fun j => negb (fs1 (results_path j))) (job_list st)).
  { rewrite (JobCreation.job_list_exact _ _ _ _ _ _ _ _ _ _ Hrun).
    rewrite (JobCreation.job_list_exact _ _ _ _ _ _ _ _ _ _ Hrun2).
    rewrite JobCreation.filter_filter. apply filter_ext_in. intros j _.
    apply JobCreation.wanted_later; [exact Hf|].
    intros H0. apply Hmono. rewrite <- Hst.
    now apply job_creation_keeps_without_force. }
  exists st2. split; [exact Hrun2|]. split; [exact Hjobs|].
  split; [exact (pool_of_one_exits _ _ _ _ _ _ Hpool)|].
  intros Hfin. destruct (Hall Hfin) as (Hpaths & Hcnt). split.
  - rewrite Hjobs. apply JobCreation.filter_none. intros j Hj.
    rewrite Forall_forall in Hpaths. now rewrite (Hpaths j Hj).
  - intros HB Hest. apply Hcnt; [|exact Hest].
    unfold MemoryBudget.initial_counter.
    rewrite MemoryBudget.wrap32_id by (unfold MemoryBudget.in_int32; lia). lia.
Qed.

(** When the conversion of one of the tables to the data type raises,
    [save] has made the results directory already and has not written
    [demand.pkl]; a later run without force takes the directory for
    results and makes no job for it. *)
Theorem failed_conversion_is_taken_for_results :
  forall (job : SimulationJob) (results tables : Results) (fs0 : FS) (t : string),
    select_columns results (sensor_mask job) = Some tables ->
    String.eqb (dtype job) "csv" = false ->
    t ∈ ["pressure"; "flow"; "demand"] ->
    astype tables t (dtype job) = None ->
    exists fs',
      save job results fs0 = Raises fs' /\
      fs' (results_path job) = true /\
      fs' (results_path job ++ ["demand.pkl"]) = fs0 (results_path job ++ ["demand.pkl"]) /\
      (forall st n,
         force_regenerate self = false -> create fs' = Returns (st, n) ->
         forall j, j ∈ job_list st -> results_path j <> results_path job).
Proof.
  intros job results tables fs0 t Hsel Hcsv Ht Hconv.
  assert (Hsave : exists fs', save job results fs0 = Raises fs').
  { unfold save. rewrite Hsel, Hcsv.
    destruct (astype tables "pressure" _) eqn:Ep; [|eauto].
    destruct (astype tables "flow" _) eqn:Ef; [|eauto].
    destruct (astype tables "demand" _) eqn:Ed; [|eauto].
    exfalso. rewrite !elem_of_cons, elem_of_nil in Ht.
    destruct Ht as [->|[->|[->|[]]]]; congruence. }
  destruct Hsave as [fs' Hsave]. exists fs'. split; [exact Hsave|].
  destruct (save_raises_effect job results fs0 fs' Hsave) as (H1 & _ & H3).
  destruct (H3 tables Hsel) as (_ & _ & Hdir & _).
  split; [exact Hdir|]. split.
  - pose proof (save_conversion_files job results tables fs0 fs' Hsave Hsel "demand.pkl")
      as Hfile.
    destruct (fs0 (results_path job ++ ["demand.pkl"])) eqn:E0; [now apply H1|].
    destruct (fs' (results_path job ++ ["demand.pkl"])) eqn:E1; [|reflexivity].
    destruct (proj1 Hfile eq_refl) as [H|H]; [discriminate|].
    exfalso. unfold pickled in H.
    destruct (astype tables "pressure" _); [|inversion H].
    destruct (astype tables "flow" _);
      rewrite ?elem_of_cons, ?elem_of_nil in H;
      repeat (destruct H as [H|H]; [discriminate H|]); destruct H.
  - intros st n Hf Hrun j Hj Heq.
    rewrite (JobCreation.job_list_exact _ _ _ _ _ _ _ _ _ _ Hrun)
      in Hj.
    apply list_elem_of_In, filter_In in Hj as [_ Hw].
    unfold JobCreation.wanted in Hw. rewrite Hf, Heq, Hdir in Hw.
    now rewrite andb_false_r in Hw.
Qed.

(** C9, on the code.  Every job of the list fits the budget alone.  But a
    worker whose job fails at [init] returns without giving its
    reservation back: when the first job of a run on one thread is such a
    job, and the budget does not hold the first two jobs together, the
    second job is never admitted, although it fits the budget alone.  The
    worker waits for memory that no running job holds, and the run makes
    no progress. *)
Theorem failed_job_blocks_the_next :
  forall (fs0 : FS) (st : GenState) (j1 j2 : SimulationJob) (rest : list SimulationJob)
         (wn' : WN),
    create fs0 = Returns (st, 1%Z) ->
    job_list st = j1 :: j2 :: rest ->
    init j1 = Ret (false, wn') ->
    let c := MemoryBudget.initial_counter (available_memory self) in
    let a1 := Py.int_of_float (memory_estimate j1) in
    let a2 := Py.int_of_float (memory_estimate j2) in
    (Py.int_of_float (available_memory self) < 2 ^ 31)%Z ->
    (0 <= memory_estimate j1)%Q -> (0 <= memory_estimate j2)%Q ->
    (c < a1 + a2)%Z ->
    (a1 <= c)%Z /\ (a2 <= c)%Z /\
    is_Some (worker j2 c (fs st)) /\
    (exists x, worker j1 c (fs st) = Some x /\ exit x = InitFailed /\
               notified x = false /\ counter_after x = (c - a1)%Z /\
               worker j2 (counter_after x) (fs_after x) = None) /\
    pool_of_one (job_list st) c (fs st) = None.
Proof.
  intros fs0 st j1 j2 rest wn' Hrun Hjobs Hinit c a1 a2 Hint H1 H2 Hboth.
  assert (Hle : forall j, j ∈ job_list st ->
            (memory_estimate j <= available_memory self)%Q).
  { intros j Hj.
    rewrite (JobCreation.job_list_exact _ _ _ _ _ _ _ _ _ _ Hrun) in Hj.
    apply list_elem_of_In, filter_In in Hj as [_ Hw].
    unfold JobCreation.wanted in Hw.
    apply andb_prop in Hw as [Hw _]. apply andb_prop in Hw as [Hw _].
    now apply negb_true_iff, Py.ltb_ge in Hw. }
  assert (Hin1 : j1 ∈ job_list st) by (rewrite Hjobs; apply list_elem_of_here).
  assert (Hin2 : j2 ∈ job_list st)
    by (rewrite Hjobs; apply list_elem_of_further, list_elem_of_here).
  assert (Hav : (0 <= Py.int_of_float (available_memory self))%Z).
  { apply Py.int_of_float_nonneg. eapply Qle_trans; [exact H1|now apply Hle]. }
  assert (Hcid : c = Py.int_of_float (available_memory self)).
  { subst c. unfold MemoryBudget.initial_counter.
    now rewrite MemoryBudget.wrap32_id by (unfold MemoryBudget.in_int32; lia). }
  assert (Ha1 : (0 <= a1 <= c)%Z).
  { rewrite Hcid. split; [now apply Py.int_of_float_nonneg|].
    apply Py.int_of_float_mono; [exact H1|now apply Hle]. }
  assert (Ha2 : (0 <= a2 <= c)%Z).
  { rewrite Hcid. split; [now apply Py.int_of_float_nonneg|].
    apply Py.int_of_float_mono; [exact H2|now apply Hle]. }
  assert (Hc : (c < 2 ^ 31)%Z) by (rewrite Hcid; exact Hint).
  assert (Hres1 : MemoryBudget._reserve_memory c (memory_estimate j1)
                  = (true, (c - a1)%Z)).
  { unfold MemoryBudget._reserve_memory. fold a1.
    destruct (Z.leb_spec 0 (c - a1)); [|lia].
    now rewrite MemoryBudget.wrap32_id by (unfold MemoryBudget.in_int32; lia). }
  assert (Hw1 : worker j1 c (fs st)
                = Some {| exit := InitFailed; counter_after := (c - a1)%Z;
                          notified := false; fs_after := fs st |}).
  { rewrite (worker_init_failed j1 c (fs st) wn'); [now rewrite Hres1| |exact Hinit].
    now rewrite Hres1. }
  assert (Hw2 : worker j2 (c - a1) (fs st) = None).
  { unfold worker, MemoryBudget._reserve_memory. fold a2.
    destruct (Z.leb_spec 0 (c - a1 - a2)); [lia|reflexivity]. }
  split; [lia|]. split; [lia|]. split; [|split].
  - unfold worker, MemoryBudget._reserve_memory. fold a2.
    destruct (Z.leb_spec 0 (c - a2)); [eauto|lia].
  - eexists. split; [exact Hw1|]. cbn [exit notified counter_after fs_after].
    split; [reflexivity|]. split; [reflexivity|]. split; [reflexivity|exact Hw2].
  - rewrite Hjobs. cbn [pool_of_one]. rewrite Hw1. cbn [exit counter_after fs_after].
    now rewrite Hw2.
Qed.

End Rerun.


(** *** On the sample simulator *)

Definition sample_exit : worker_exit :=
  default {| exit := Raised; counter_after := 0; notified := false;
             fs_after := fs_of_list [] |}
          (@worker unit unit sample_wntr (sample_job abrupt_leak) 5000 (fs_of_list [])).

(** The job with the abrupt leak on a counter of 5000 kB. *)
Lemma worker_outcomes_witness :
  @worker unit unit sample_wntr (sample_job abrupt_leak) 1000 (fs_of_list []) = None /\
  counter_after sample_exit = 5000%Z /\
  fs_after sample_exit ["collection"; "A"; "measurements"; "L1"; "pressure.pkl"] = true.
Proof.
  split.
  - apply (@worker_outcomes unit unit sample_wntr (sample_job abrupt_leak) 1000
             (fs_of_list [])); [lia|discriminate|reflexivity].
  - destruct (@worker_outcomes unit unit sample_wntr (sample_job abrupt_leak) 5000
                (fs_of_list [])) as [_ H]; [lia|discriminate|].
    destruct (H sample_exit eq_refl) as (_ & Hfin & _).
    destruct (Hfin eq_refl) as (_ & Hc & _ & Hfiles).
    split; [exact Hc|]. apply Forall_cons in Hfiles as [Hp _]. exact Hp.
Defined.

(** The sample collection on an empty disk: the two jobs are made, worked
    off on one process, and the next run makes no job. *)
Lemma rerun_after_one_process_run_witness :
  let self := Generator.sample_generator false None 1 (5000 # 1) in
  let st := fst (Generator.state_of (Generator.sample_run self (fs_of_list []))) in
  let fs1 := match @pool_of_one unit unit sample_wntr (Generator.job_list st) 5000
                     (Generator.fs st) with
             | Some (_, _, fs1) => fs1
             | None => fs_of_list []
             end in
  length (Generator.job_list st) = 2%nat /\
  exists st2, Generator.sample_run self fs1 = Generator.Returns (st2, 1%Z) /\
              Generator.job_list st2 = [].
Proof.
  intros self st fs1. split; [reflexivity|].
  destruct (@rerun_after_one_process_run unit unit sample_wntr unit
              Generator.sample_load Generator.sample_nodes Generator.sample_links
              Generator.sample_getsize self (fs_of_list []) fs1 st
              (match @pool_of_one unit unit sample_wntr (Generator.job_list st) 5000
                       (Generator.fs st) with
               | Some (_, c1, _) => c1
               | None => 0%Z
               end)
              (match @pool_of_one unit unit sample_wntr (Generator.job_list st) 5000
                       (Generator.fs st) with
               | Some (exits, _, _) => exits
               | None => []
               end)
              eq_refl eq_refl eq_refl) as (st2 & Hrun & _ & _ & Hnone).
  exists st2. split; [exact Hrun|]. apply Hnone.
  repeat constructor.
Defined.

(** The sample scenario with an incipient leak without [peak] in its first
    leak config, and 2000 kB for its two jobs of 1212 kB. *)
Definition broken_generator : Generator.ScenarioGenerator :=
  {| Generator.base_path := "/data"; Generator.collection_path := ["collection"];
     Generator.force_regenerate := false; Generator.selection := None;
     Generator.n_threads := 8; Generator.available_memory := 2000 # 1;
     Generator.gen_dtype := "float16";
     Generator.scenarios :=
       [{| attrib := attrib Generator.sample_scenario;
           children :=
             [LeakConfigs [{| leak_config_name := "L1";
                              leak_infos := [leak_without_peak] |};
                           Generator.sample_leak_config "L2"]] |}] |}.

Lemma failed_job_blocks_the_next_witness :
  let r := Generator.sample_run broken_generator (fs_of_list []) in
  let st := fst (Generator.state_of r) in
  snd (Generator.state_of r) = 1%Z /\
  map job_leak_config_name (Generator.job_list st) = ["L1"; "L2"] /\
  @pool_of_one unit unit sample_wntr (Generator.job_list st) 2000 (Generator.fs st) = None.
Proof.
  intros r st. split; [reflexivity|]. split; [reflexivity|].
  destruct (@failed_job_blocks_the_next unit unit sample_wntr unit
              Generator.sample_load Generator.sample_nodes Generator.sample_links
              Generator.sample_getsize broken_generator (fs_of_list []) st
              (nth 0 (Generator.job_list st) (sample_job abrupt_leak))
              (nth 1 (Generator.job_list st) (sample_job abrupt_leak))
              [] tt eq_refl eq_refl eq_refl)
    as (_ & _ & _ & _ & Hpool).
  - reflexivity.
  - discriminate.
  - discriminate.
  - reflexivity.
  - exact Hpool.
Defined.

(** The columns of a table of the selected results. *)
Definition columns_of (tables : SensorMask) (t : string) : gset string :=
  if String.eqb t "pressure" then pressure tables
  else if String.eqb t "flow" then flow tables
  else demand tables.

(** A simulator whose results are given by the columns they hold, and
    whose conversion knows the float types of numpy: another data type
    raises, unless the table has no column and nothing is converted. *)
Definition strict_wntr : Wntr unit SensorMask :=
  {| WaterNetworkModel := @WaterNetworkModel _ _ sample_wntr;
     set_time_options := @set_time_options _ _ sample_wntr;
     node_name_list := @node_name_list _ _ sample_wntr;
     pattern_name_list := @pattern_name_list _ _ sample_wntr;
     pattern_timestep := @pattern_timestep _ _ sample_wntr;
     node_elevation := @node_elevation _ _ sample_wntr;
     add_junction := @add_junction _ _ sample_wntr;
     add_pipe := @add_pipe _ _ sample_wntr;
     split_pipe := @split_pipe _ _ sample_wntr;
     get_node := @get_node _ _ sample_wntr;
     set_pressure_range := @set_pressure_range _ _ sample_wntr;
     add_pattern := @add_pattern _ _ sample_wntr;
     add_demand := @add_demand _ _ sample_wntr;
     add_leak := @add_leak _ _ sample_wntr;
     run_sim := fun _ =>
       Some {| pressure := {["n1"; "n2"; "n3"]}; flow := {["p1"; "p2"]};
               demand := {["n1"; "n2"; "n3"]} |};
     select_columns := fun r mask =>
       if bool_decide (pressure mask ⊆ pressure r /\ flow mask ⊆ flow r /\
                       demand mask ⊆ demand r)
       then Some mask else None;
     astype := fun tables t d =>
       if bool_decide (d ∈ ["float16"; "float32"; "float64"]) then Some tt
       else if bool_decide (columns_of tables t = ∅) then Some tt
       else None |}.

(** The sample job with the pressure at [n1] as its mask and the data type
    ["float8"], which [run] makes of [--dtype 8]. *)
Definition float8_job : SimulationJob :=
  {| scenario_config := scenario_config (sample_job abrupt_leak);
     leaks := leaks (sample_job abrupt_leak);
     job_leak_config_name := "L1";
     sensor_mask := {| pressure := {["n1"]}; flow := ∅; demand := ∅ |};
     results_path := ["collection"; "A"; "measurements"; "L1"];
     memory_estimate := 1212 # 1;
     dtype := "float8" |}.

Definition float8_results : SensorMask :=
  {| pressure := {["n1"; "n2"; "n3"]}; flow := {["p1"; "p2"]};
     demand := {["n1"; "n2"; "n3"]} |}.

(** The same job with no pressure sensor and the flow of [p1] in its
    mask: the pressure table has no column and is pickled as it is, then
    the conversion of the flow raises. *)
Definition float8_flow_job : SimulationJob :=
  {| scenario_config := scenario_config float8_job;
     leaks := leaks float8_job;
     job_leak_config_name := "L1";
     sensor_mask := {| pressure := ∅; flow := {["p1"]}; demand := ∅ |};
     results_path := results_path float8_job;
     memory_estimate := memory_estimate float8_job;
     dtype := "float8" |}.

Lemma save_leaves_on_disk_witness :
  exists fs',
    @save unit SensorMask strict_wntr float8_flow_job float8_results (fs_of_list [])
    = Generator.Raises fs' /\
    fs' ["collection"; "A"; "measurements"; "L1"; "pressure.pkl"] = true /\
    fs' ["collection"; "A"; "measurements"; "L1"; "flow.pkl"] = false.
Proof.
  destruct (@save unit SensorMask strict_wntr float8_flow_job float8_results
              (fs_of_list [])) as [fs'|fs'] eqn:Hsave.
  { vm_compute in Hsave. discriminate Hsave. }
  exists fs'. split; [reflexivity|].
  destruct (@save_leaves_on_disk unit SensorMask strict_wntr float8_flow_job
              float8_results (fs_of_list [])) as (_ & Hraise).
  destruct (Hraise fs' Hsave) as (_ & _ & Hconv).
  destruct (Hconv (sensor_mask float8_flow_job)) as (_ & _ & Hfiles & _).
  { vm_compute. exact eq_refl. }
  split.
  - apply Hfiles. right. vm_compute. apply list_elem_of_here.
  - destruct (fs' ["collection"; "A"; "measurements"; "L1"; "flow.pkl"]) eqn:E;
      [|reflexivity].
    apply (Hfiles "flow.pkl") in E as [E|E]; [discriminate E|].
    vm_compute in E. apply list_elem_of_singleton in E. discriminate E.
Defined.

Lemma failed_conversion_is_taken_for_results_witness :
  exists fs',
    @save unit SensorMask strict_wntr float8_job float8_results (fs_of_list [])
    = Generator.Raises fs' /\
    fs' ["collection"; "A"; "measurements"; "L1"] = true /\
    fs' ["collection"; "A"; "measurements"; "L1"; "demand.pkl"] = false.
Proof.
  destruct (@failed_conversion_is_taken_for_results unit SensorMask strict_wntr unit
              Generator.sample_load Generator.sample_nodes Generator.sample_links
              Generator.sample_getsize
              (Generator.sample_generator false None 8 (5000 # 1))
              float8_job float8_results (sensor_mask float8_job) (fs_of_list [])
              "pressure")
    as (fs' & Hsave & Hdir & Hfile & _).
  - vm_compute. exact eq_refl.
  - reflexivity.
  - apply list_elem_of_here.
  - vm_compute. exact eq_refl.
  - exists fs'. split; [exact Hsave|]. split; [exact Hdir|]. exact Hfile.
Defined.

End WorkerFacts.

(** ** Slices in general *)

Module SliceFacts.
Import Slices.

Lemma slice_index_range (n i : Z) : (0 <= n)%Z -> (0 <= slice_index n i <= n)%Z.
Proof. intros Hn. unfold slice_index. destruct (Z.ltb_spec i 0); lia. Qed.

(** The bounds of a slice lie in the array, in order. *)
Lemma slice_bounds_le (n : nat) (a b : Z) :
  (fst (slice_bounds n a b) <= snd (slice_bounds n a b) <= n)%nat.
Proof.
  unfold slice_bounds. simpl.
  pose proof (slice_index_range (Z.of_nat n) a ltac:(lia)).
  pose proof (slice_index_range (Z.of_nat n) b ltac:(lia)). lia.
Qed.

Lemma set_slice_scalar_length {A : Type} (p : list A) (a b : Z) (x : A) :
  length (set_slice_scalar p a b x) = length p.
Proof.
  unfold set_slice_scalar. pose proof (slice_bounds_le (length p) a b) as H.
  destruct (slice_bounds (length p) a b) as [lo hi]. simpl in H.
  rewrite !length_app, length_take, length_replicate, length_drop. lia.
Qed.

Lemma set_slice_array_length {A : Type} (p v r : list A) (a b : Z) :
  set_slice_array p a b v = Some r -> length r = length p.
Proof.
  unfold set_slice_array. pose proof (slice_bounds_le (length p) a b) as H.
  destruct (slice_bounds (length p) a b) as [lo hi]. simpl in H.
  destruct (Nat.eqb_spec (length v) (hi - lo)) as [Hv|Hv].
  - intros Hr. injection Hr as <-.
    rewrite !length_app, length_take, length_drop. lia.
  - destruct v as [|x [|y v]]; try discriminate.
    intros Hr. injection Hr as <-.
    rewrite !length_app, length_take, length_replicate, length_drop. lia.
Qed.

(** Outside the bounds of the slice an assignment changes nothing. *)
Lemma set_slice_scalar_outside {A : Type} (p : list A) (a b : Z) (x : A) (k : nat) :
  ~ (fst (slice_bounds (length p) a b) <= k < snd (slice_bounds (length p) a b))%nat ->
  set_slice_scalar p a b x !! k = p !! k.
Proof.
  unfold set_slice_scalar. pose proof (slice_bounds_le (length p) a b) as H.
  destruct (slice_bounds (length p) a b) as [lo hi]. simpl in *. intros Hk.
  rewrite lookup_splice by (rewrite ?length_replicate; lia).
  now rewrite decide_False by exact Hk.
Qed.

Lemma set_slice_scalar_inside {A : Type} (p : list A) (a b : Z) (x : A) (k : nat) :
  (fst (slice_bounds (length p) a b) <= k < snd (slice_bounds (length p) a b))%nat ->
  set_slice_scalar p a b x !! k = Some x.
Proof.
  unfold set_slice_scalar. pose proof (slice_bounds_le (length p) a b) as H.
  destruct (slice_bounds (length p) a b) as [lo hi]. simpl in *. intros Hk.
  rewrite lookup_splice by (rewrite ?length_replicate; lia).
  rewrite decide_True by exact Hk. apply lookup_replicate_2. lia.
Qed.

Lemma set_slice_array_outside {A : Type} (p v r : list A) (a b : Z) (k : nat) :
  set_slice_array p a b v = Some r ->
  ~ (fst (slice_bounds (length p) a b) <= k < snd (slice_bounds (length p) a b))%nat ->
  r !! k = p !! k.
Proof.
  unfold set_slice_array. pose proof (slice_bounds_le (length p) a b) as H.
  destruct (slice_bounds (length p) a b) as [lo hi]. simpl in *.
  destruct (Nat.eqb_spec (length v) (hi - lo)) as [Hv|Hv].
  - intros Hr Hk. injection Hr as <-. rewrite lookup_splice by lia.
    now rewrite decide_False by exact Hk.
  - destruct v as [|x [|y v]]; try discriminate.
    intros Hr Hk. injection Hr as <-.
    rewrite lookup_splice by (rewrite ?length_replicate; lia).
    now rewrite decide_False by exact Hk.
Qed.

(** A slice whose end is not after its start is empty. *)
Lemma slice_bounds_empty (n : nat) (a b : Z) :
  (0 <= b <= a)%Z -> fst (slice_bounds n a b) = snd (slice_bounds n a b).
Proof.
  intros Hab. unfold slice_bounds, slice_index. simpl.
  destruct (Z.ltb_spec a 0), (Z.ltb_spec b 0); lia.
Qed.

End SliceFacts.

(** ** The incipient pattern in general, resampling, pattern names and
       the validation of names *)

Module LeakFacts.
Import Config Slices SliceFacts LeakModel.

Local Open Scope R_scope.

(** [validate_wn]: whether the warning about link names and the warning
    about node names are printed. *)
Definition validate_wn (links nodes : list string) : bool * bool :=
  let illegal_links := List.filter (String.prefix "leak_segment_") links in
  let illegal_nodes := List.filter (String.prefix "leak_node_") nodes in
  (Nat.ltb 0 (length illegal_links), Nat.ltb 0 (length illegal_nodes)).

(** The radius step of a ramp from [i_start] to [i_peak]. *)
Definition leak_radius_step (diameter : R) (i_start i_peak : Z) : R :=
  diameter / IZR (i_peak - i_start) / 2.

Lemma ramp_radii_general (d : R) (n : Z) :
  d <> 0 -> n <> 0%Z ->
  np_arange (d / IZR n / 2) (d / 2 + d / IZR n / 2 * 0.5) (d / IZR n / 2)
  = Some (map (fun i => INR (i + 1) * (d / IZR n / 2)) (seq 0 (Z.to_nat n))).
Proof.
  intros Hd Hn. unfold np_arange.
  assert (Hx : IZR n <> 0) by (now apply not_0_IZR).
  destruct (Req_dec_T (d / IZR n / 2) 0) as [H0|_].
  { exfalso. apply Hd. apply (f_equal (fun y => y * 2 * IZR n)) in H0.
    field_simplify in H0; [lra|exact Hx]. }
  replace ((d / 2 + d / IZR n / 2 * 0.5 - d / IZR n / 2) / (d / IZR n / 2))
    with (IZR n - 1 / 2)
    by (unfold Q2R; simpl; field; split; assumption).
  rewrite (ceil_spec (IZR n - 1 / 2) n) by lra.
  f_equal. apply map_ext. intros i. rewrite plus_INR. simpl. ring.
Qed.

Lemma leak_ramp_up_general (d : R) (s p : Z) :
  d <> 0 ->
  leak_ramp_up d s p
  = Some (map (fun i => ramp_demand (INR (i + 1) * leak_radius_step d s p))
              (seq 0 (Z.to_nat (p - s)))).
Proof.
  intros Hd. unfold leak_ramp_up, leak_radius_step.
  destruct (Z.eqb_spec p s) as [->|Hne].
  - now rewrite Z.sub_diag.
  - rewrite ramp_radii_general by (try assumption; lia).
    cbn [mbind option_bind]. now rewrite map_map.
Qed.

Lemma slice_bounds_from (n : nat) (a b : Z) :
  (0 <= a <= Z.of_nat n)%Z -> (a <= b)%Z ->
  slice_bounds n a b = (Z.to_nat a, Z.to_nat (Z.min b (Z.of_nat n))).
Proof.
  intros Ha Hab. unfold slice_bounds, slice_index.
  destruct (Z.ltb_spec a 0); [lia|]. destruct (Z.ltb_spec b 0); [lia|].
  f_equal; lia.
Qed.

(** The entry [k] of the pattern of a leak that starts at [s], peaks at [p]
    and ends at [e]. *)
Definition pattern_entry (d : R) (s p e : Z) (k : nat) : R :=
  if (Z.of_nat k <? s)%Z then 0
  else if (Z.of_nat k <? p)%Z
       then ramp_demand (INR (k - Z.to_nat s + 1) * leak_radius_step d s p)
       else if (Z.of_nat k <? e)%Z then leak_demand_constant d else 0.

Lemma leak_pattern_general (iterations : Z) (d : R) (s p e : Z) :
  d <> 0 -> (0 <= s <= p)%Z -> (p <= e)%Z -> (p <= iterations)%Z ->
  exists pat,
    leak_pattern iterations d s p e = Some pat /\
    length pat = Z.to_nat iterations /\
    forall k, (k < Z.to_nat iterations)%nat -> pat !! k = Some (pattern_entry d s p e k).
Proof.
  intros Hd Hsp Hpe Hpi. unfold leak_pattern.
  rewrite leak_ramp_up_general by exact Hd. cbn [mbind option_bind].
  set (ramp := map _ (seq 0 (Z.to_nat (p - s)))).
  assert (Hramp : length ramp = Z.to_nat (p - s))
    by (subst ramp; now rewrite length_map, length_seq).
  unfold np_zeros. destruct (Z.ltb_spec iterations 0) as [?|_]; [lia|].
  cbn [mbind option_bind].
  set (n := Z.to_nat iterations).
  rewrite set_slice_array_in; [|lia|rewrite length_replicate; lia|exact Hramp].
  cbn [mbind option_bind].
  set (pat1 := take (Z.to_nat s) (replicate n 0) ++ ramp ++ drop (Z.to_nat p) (replicate n 0)).
  assert (Hlen1 : length pat1 = n).
  { subst pat1. rewrite length_splice; rewrite ?length_replicate; lia. }
  eexists. split; [reflexivity|]. split; [now rewrite set_slice_scalar_length|].
  intros k Hk.
  assert (Hb : slice_bounds (length pat1) p e
               = (Z.to_nat p, Z.to_nat (Z.min e (Z.of_nat (length pat1)))))
    by (apply slice_bounds_from; lia).
  assert (H1 : pat1 !! k = Some (if decide (Z.to_nat s <= k < Z.to_nat p)%nat
                                 then ramp_demand (INR (k - Z.to_nat s + 1)
                                                   * leak_radius_step d s p)
                                 else 0)).
  { subst pat1. rewrite lookup_splice by (rewrite ?length_replicate; lia).
    destruct (decide (Z.to_nat s <= k < Z.to_nat p)%nat) as [Hin|Hout].
    - subst ramp. rewrite list_lookup_fmap, lookup_seq_lt by lia. reflexivity.
    - apply lookup_replicate_2. lia. }
  unfold pattern_entry.
  destruct (decide (Z.to_nat p <= k < Z.to_nat (Z.min e (Z.of_nat (length pat1))))%nat)
    as [Hin|Hout].
  - rewrite set_slice_scalar_inside by (rewrite Hb; exact Hin).
    destruct (Z.ltb_spec (Z.of_nat k) s); [lia|].
    destruct (Z.ltb_spec (Z.of_nat k) p); [lia|].
    destruct (Z.ltb_spec (Z.of_nat k) e); [reflexivity|lia].
  - rewrite set_slice_scalar_outside by (rewrite Hb; exact Hout).
    rewrite H1.
    destruct (decide (Z.to_nat s <= k < Z.to_nat p)%nat) as [Hr|Hr];
      destruct (Z.ltb_spec (Z.of_nat k) s); try lia;
      destruct (Z.ltb_spec (Z.of_nat k) p); try lia; try reflexivity.
    destruct (Z.ltb_spec (Z.of_nat k) e); [lia|reflexivity].
Qed.


(** The pattern of an incipient leak in general.  For a non-zero diameter
    and [0 <= start <= peak <= end] with the peak within the iterations,
    the pattern is built without error and has one entry per iteration: 0
    before the start, the demand of the radius [(k - start + 1) * step] at
    entry [k] of the ramp, the constant demand from the peak to the end,
    and 0 after it.  The ramp increases strictly and its last entry
    already is the constant demand. *)
Theorem incipient_pattern_in_general :
  forall (iterations : Z) (d : R) (s p e : Z),
    d <> 0 -> (0 <= s <= p)%Z -> (p <= e)%Z -> (p <= iterations)%Z ->
    exists pat,
      leak_pattern iterations d s p e = Some pat /\
      length pat = Z.to_nat iterations /\
      (forall k, (k < Z.to_nat iterations)%nat ->
         pat !! k = Some (pattern_entry d s p e k)) /\
      (forall j k, (Z.to_nat s <= j < k)%nat -> (k < Z.to_nat p)%nat ->
         pattern_entry d s p e j < pattern_entry d s p e k) /\
      ((s < p)%Z -> pattern_entry d s p e (Z.to_nat p - 1) = leak_demand_constant d).
Proof.
  intros iterations d s p e Hd Hsp Hpe Hpi.
  destruct (leak_pattern_general iterations d s p e Hd Hsp Hpe Hpi)
    as (pat & Hpat & Hlen & Hlook).
  exists pat. split; [exact Hpat|]. split; [exact Hlen|]. split; [exact Hlook|]. split.
  - intros j k Hj Hk. unfold pattern_entry.
    destruct (Z.ltb_spec (Z.of_nat j) s); [lia|].
    destruct (Z.ltb_spec (Z.of_nat k) s); [lia|].
    destruct (Z.ltb_spec (Z.of_nat j) p); [|lia].
    destruct (Z.ltb_spec (Z.of_nat k) p); [|lia].
    apply ramp_demand_lt.
    + unfold leak_radius_step.
      assert (Hps : IZR (p - s) <> 0) by (apply not_0_IZR; lia).
      intros Hz. apply Hd. apply (f_equal (fun y => y * 2 * IZR (p - s))) in Hz.
      field_simplify in Hz; [lra|assumption].
    + apply lt_0_INR. lia.
    + apply lt_INR. lia.
  - intros Hlt. unfold pattern_entry.
    destruct (Z.ltb_spec (Z.of_nat (Z.to_nat p - 1)) s); [lia|].
    destruct (Z.ltb_spec (Z.of_nat (Z.to_nat p - 1)) p); [|lia].
    replace (Z.to_nat p - 1 - Z.to_nat s + 1)%nat with (Z.to_nat (p - s)) by lia.
    rewrite INR_IZR_INZ, Z2Nat.id by lia.
    rewrite leak_demand_constant_eq. unfold ramp_demand, leak_radius_step. f_equal.
    assert (IZR (p - s) <> 0) by (apply not_0_IZR; lia). f_equal. now field.
Qed.

Lemma leak_pattern_length (iterations : Z) (d : R) (s p e : Z) (pat : list R) :
  leak_pattern iterations d s p e = Some pat ->
  length pat = Z.to_nat iterations.
Proof.
  unfold leak_pattern.
  destruct (leak_ramp_up d s p) as [ramp|]; [|discriminate]. cbn [mbind option_bind].
  unfold np_zeros. destruct (iterations <? 0)%Z; [discriminate|].
  cbn [mbind option_bind].
  destruct (set_slice_array _ s p ramp) as [pat1|] eqn:E; [|discriminate].
  cbn [mbind option_bind]. intros H. injection H as <-.
  rewrite set_slice_scalar_length.
  rewrite (set_slice_array_length _ _ _ _ _ E). apply length_replicate.
Qed.

(** Whatever the start, the peak and the end of the leak are, the array
    that the two slice assignments build, before any resampling, has one
    entry per iteration when it is built without error: the assignments
    never change the length of the array.  On a network whose pattern time
    step is the time step of the scenario this array is the pattern that
    is handed to [add_pattern]: there the pattern of an incipient leak
    whose insertion raises nothing has one entry per iteration. *)
Theorem leak_pattern_keeps_length :
  forall {WN Results : Type} `{!Wntr WN Results}
         (iterations time_step : Z) (wn : WN) (leak_node_name : string)
         (d : R) (s p e : Z),
    (forall pat, leak_pattern iterations d s p e = Some pat ->
       length pat = Z.to_nat iterations) /\
    (pattern_timestep (set_pressure_range wn leak_node_name 100 0) = time_step ->
     insert_incipient iterations time_step wn leak_node_name d s p e <> Exc ->
     exists pat,
       leak_pattern iterations d s p e = Some pat /\
       length pat = Z.to_nat iterations /\
       insert_incipient iterations time_step wn leak_node_name d s p e
       = add_leak_pattern (set_pressure_range wn leak_node_name 100 0) leak_node_name pat).
Proof.
  intros WN Results HW iterations time_step wn node d s p e. split.
  - intros pat. apply leak_pattern_length.
  - intros Hsame. unfold insert_incipient.
    destruct (leak_pattern iterations d s p e) as [pat|] eqn:Hpat; [|congruence].
    intros _. exists pat. split; [reflexivity|].
    split; [exact (leak_pattern_length _ _ _ _ _ _ Hpat)|].
    unfold resample. now rewrite Hsame, Z.eqb_refl.
Qed.

(** A leak that starts within the iterations and peaks beyond them: the
    ramp has more entries than the slice it is assigned to, the assignment
    raises, and so does the insertion of the leak. *)
Theorem peak_beyond_iterations_raises :
  forall {WN Results : Type} `{!Wntr WN Results}
         (iterations time_step : Z) (wn : WN) (leak_node_name : string)
         (d : R) (s p e : Z),
    d <> 0 -> (0 <= s < iterations)%Z -> (iterations < p)%Z ->
    leak_pattern iterations d s p e = None /\
    insert_incipient iterations time_step wn leak_node_name d s p e = Exc.
Proof.
  intros WN Results W iterations time_step wn node d s p e Hd Hs Hp.
  assert (Hnone : leak_pattern iterations d s p e = None).
  { unfold leak_pattern. rewrite leak_ramp_up_general by exact Hd.
    cbn [mbind option_bind].
    set (ramp := map _ (seq 0 (Z.to_nat (p - s)))).
    assert (Hramp : length ramp = Z.to_nat (p - s))
      by (subst ramp; now rewrite length_map, length_seq).
    unfold np_zeros. destruct (Z.ltb_spec iterations 0) as [?|_]; [lia|].
    cbn [mbind option_bind]. unfold set_slice_array.
    rewrite length_replicate, slice_bounds_from by lia.
    destruct (Nat.eqb_spec (length ramp)
                (Z.to_nat (Z.min p (Z.of_nat (Z.to_nat iterations))) - Z.to_nat s))
      as [Heq|_]; [lia|].
    destruct ramp as [|x [|y ramp]]; simpl in Hramp; try lia. reflexivity. }
  split; [exact Hnone|]. unfold insert_incipient. now rewrite Hnone.
Qed.


(** *** Resampling *)

(** Resampling, when the pattern time step of the network is not the time
    step of the simulation.  When the pattern time step is [m >= 2] time
    steps (and [iterations * pattern_timestep] is below [2 ^ 53], so that
    the float64 quotients are exact), there are [iterations * time_step]
    entries, and entry [j] is sample [j * m] of the pattern, or its last
    sample once [j * m] is beyond the end.  In general the number of
    entries is the ceiling of a float64 quotient and can be one more than
    [iterations * time_step]: 211 for 30 iterations, a time step of 7 and
    a pattern time step of 300. *)
Theorem resampling_reads_at_multiples :
  forall (iterations time_step m : Z) (pattern : list R),
    (0 < time_step)%Z -> (2 <= m)%Z -> (0 < iterations)%Z ->
    (iterations * (m * time_step) < 2 ^ 53)%Z -> pattern <> [] ->
    (exists q,
       resample iterations time_step (m * time_step) pattern = Some q /\
       length q = Z.to_nat (iterations * time_step) /\
       forall j, (j < Z.to_nat (iterations * time_step))%nat ->
         q !! j = Some (nth (Nat.min (j * Z.to_nat m) (length pattern - 1)) pattern 0)) /\
    (exists q, resample 30 7 300 pattern = Some q /\ length q = 211%nat).
Proof.
  intros iterations ts m pattern Hts Hm Hit Hbound Hpat. split.
  - eexists. split; [now apply resample_multiple|].
    split; [now rewrite length_map, length_seq|].
    intros j Hj. now rewrite list_lookup_fmap, lookup_seq_lt by exact Hj.
  - now apply resample_30_7_300.
Qed.

(** *** The pattern name *)

Lemma unique_pattern_name_first {WN Results : Type} `{!Wntr WN Results} names node :
  forall fuel i,
    (exists k, (i <= k <= i + fuel)%nat /\ candidate node k ∉ names) ->
    exists k, (i <= k <= i + fuel)%nat /\
      unique_pattern_name fuel names node (candidate node i) (S i) = candidate node k /\
      (candidate node k ∉ names) /\
      forall j, (i <= j < k)%nat -> candidate node j ∈ names.
Proof.
  induction fuel as [|fuel IH]; intros i (k & Hk & Hfresh); simpl.
  - assert (k = i) as -> by lia. rewrite bool_decide_eq_false_2 by exact Hfresh.
    exists i. split; [lia|]. split; [reflexivity|]. split; [exact Hfresh|]. lia.
  - destruct (decide (candidate node i ∈ names)) as [Hin|Hout].
    + rewrite bool_decide_eq_true_2 by exact Hin.
      destruct (IH (S i)) as (k' & Hk' & Heq & Hf & Hbelow).
      { exists k. split; [|exact Hfresh].
        assert (k <> i) by (intros ->; contradiction). lia. }
      exists k'. split; [lia|]. split; [exact Heq|]. split; [exact Hf|].
      intros j Hj. destruct (decide (j = i)) as [->|Hne]; [exact Hin|].
      apply Hbelow. lia.
    + rewrite bool_decide_eq_false_2 by exact Hout.
      exists i. split; [lia|]. split; [reflexivity|]. split; [exact Hout|]. lia.
Qed.

(** The pattern name that [insert_leak] chooses is not the name of an
    existing pattern, and it is the first free one in the order
    [leak_pattern_<node>], [leak_pattern_<node>_1], [leak_pattern_<node>_2],
    ...: the loop ends, after at most as many rounds as there are
    patterns. *)
Theorem pattern_name_is_first_free :
  forall {WN Results : Type} `{!Wntr WN Results} (names : list string) (node : string),
    exists k,
      (k <= length names)%nat /\
      unique_pattern_name (length names) names node ("leak_pattern_" +:+ node) 1
      = candidate node k /\
      (candidate node k ∉ names) /\
      forall j, (j < k)%nat -> candidate node j ∈ names.
Proof.
  intros WN Results W names node.
  destruct (unique_pattern_name_first names node (length names) 0)
    as (k & Hk & Heq & Hfresh & Hbelow).
  - destruct (decide (Forall (fun k => candidate node k ∈ names)
                        (seq 0 (S (length names))))) as [Hall|Hsome].
    + exfalso.
      assert (Hnd : NoDup (map (candidate node) (seq 0 (S (length names))))).
      { apply NoDup_fmap_2; [intros i j; apply candidate_inj|apply NoDup_seq]. }
      assert (Hsub : map (candidate node) (seq 0 (S (length names))) ⊆ names).
      { intros x Hx. apply list_elem_of_fmap in Hx as (k & -> & Hk).
        rewrite Forall_forall in Hall. now apply Hall. }
      pose proof (submseteq_length _ _ (NoDup_submseteq _ _ Hnd Hsub)) as Hlen.
      rewrite length_map, length_seq in Hlen. lia.
    + apply not_Forall_Exists in Hsome; [|intros k; apply _].
      apply Exists_exists in Hsome as (k & Hk & Hfresh).
      apply elem_of_seq in Hk. exists k. split; [lia|exact Hfresh].
  - exists k. split; [lia|]. split; [exact Heq|]. split; [exact Hfresh|].
    intros j Hj. apply Hbelow. lia.
Qed.

(** *** The validation of names *)

Lemma filter_prefix_none (p : string) (l : list string) :
  Nat.ltb 0 (length (List.filter (String.prefix p) l)) = false <->
  forall x, x ∈ l -> String.prefix p x = false.
Proof.
  induction l as [|y l IH]; simpl.
  - split; [intros _ x Hx; inversion Hx|reflexivity].
  - destruct (String.prefix p y) eqn:E; simpl.
    + split; [discriminate|]. intros H. rewrite (H y) in E by apply list_elem_of_here.
      discriminate.
    + rewrite IH. split.
      * intros H x Hx. apply elem_of_cons in Hx as [->|Hx]; auto.
      * intros H x Hx. apply H. now apply list_elem_of_further.
Qed.

(** [validate_wn] prints no warning exactly when no link name starts with
    [leak_segment_] and no node name with [leak_node_].  On a network
    whose node names pass, the node that a leak needs does not exist yet:
    the first leak on a pipe splits the pipe, and the first incipient leak
    on a node adds the junction and the pipe to it. *)
Theorem validated_names_are_free :
  forall {WN Results : Type} `{!Wntr WN Results} (wn : WN) (links : list string)
         (leak_info : LeakInfo) (x : string),
    (validate_wn links (node_name_list wn) = (false, false) <->
       (forall l, l ∈ links -> String.prefix "leak_segment_" l = false) /\
       (forall n, n ∈ node_name_list wn -> String.prefix "leak_node_" n = false)) /\
    (snd (validate_wn links (node_name_list wn)) = false ->
       ("leak_node_" +:+ x ∉ node_name_list wn) /\
       (nodeId leak_info = None -> pipeId leak_info = Some x ->
          resolve_leak_node wn leak_info
          = match split_pipe wn x ("leak_segment_" +:+ x) ("leak_node_" +:+ x) with
            | None => Exc
            | Some wn' => Ret (Some (wn', "leak_node_" +:+ x))
            end) /\
       (nodeId leak_info = Some x -> leak_type leak_info = "incipient" ->
          resolve_leak_node wn leak_info
          = match node_elevation wn x with
            | None => Exc
            | Some elevation =>
                match add_junction wn ("leak_node_" +:+ x) elevation with
                | None => Exc
                | Some wn1 =>
                    match add_pipe wn1 ("leak_segment_" +:+ ("leak_node_" +:+ x)) x
                            ("leak_node_" +:+ x) with
                    | None => Exc
                    | Some wn2 => Ret (Some (wn2, "leak_node_" +:+ x))
                    end
                end
            end)).
Proof.
  intros WN Results W wn links li x. split.
  - unfold validate_wn. rewrite <- !filter_prefix_none. split.
    + intros H. injection H as H1 H2. auto.
    + intros [H1 H2]. now rewrite H1, H2.
  - unfold validate_wn. simpl. intros Hnodes.
    assert (Hfree : "leak_node_" +:+ x ∉ node_name_list wn).
    { intros Hin. apply filter_prefix_none with (x := "leak_node_" +:+ x) in Hnodes;
        [|exact Hin].
      rewrite Selection.prefix_app_true in Hnodes. discriminate. }
    split; [exact Hfree|]. split.
    + intros Hn Hp. unfold resolve_leak_node. rewrite Hn, Hp.
      now rewrite bool_decide_eq_false_2 by exact Hfree.
    + intros Hn Ht. unfold resolve_leak_node. rewrite Hn, Ht.
      cbn [String.eqb Ascii.eqb Bool.eqb].
      now rewrite bool_decide_eq_false_2 by exact Hfree.
Qed.

(** *** At concrete values *)

(** A leak from iteration 5 to 25 that peaks at 15, in 30 iterations. *)
Lemma incipient_pattern_in_general_witness :
  exists pat, leak_pattern 30 1 5 15 25 = Some pat /\ length pat = 30%nat /\
              pat !! 2%nat = Some 0 /\ pat !! 20%nat = Some (leak_demand_constant 1).
Proof.
  destruct (incipient_pattern_in_general 30 1 5 15 25) as (pat & Hp & Hlen & Hlook & _);
    [lra|lia|lia|lia|].
  exists pat. split; [exact Hp|]. split; [exact Hlen|]. split.
  - apply (Hlook 2%nat). simpl. lia.
  - apply (Hlook 20%nat). simpl. lia.
Defined.

(** A leak whose end lies beyond the 30 iterations: the pattern still has
    30 entries. *)
Lemma leak_pattern_keeps_length_witness :
  exists pat, leak_pattern 30 1 5 15 80 = Some pat /\ length pat = 30%nat.
Proof.
  destruct (leak_pattern_general 30 1 5 15 80) as (pat & Hp & _); [lra|lia|lia|lia|].
  exists pat. split; [exact Hp|].
  destruct (@leak_pattern_keeps_length unit unit Worker.sample_wntr 30 60 tt
              "leak_node_n3" 1 5 15 80) as [Hlen _].
  exact (Hlen pat Hp).
Defined.

(** A leak that peaks at iteration 40 of 30. *)
Lemma peak_beyond_iterations_raises_witness :
  leak_pattern 30 1 5 40 50 = None /\
  @insert_incipient unit unit Worker.sample_wntr 30 60 tt "leak_node_n3" 1 5 40 50 = Exc.
Proof.
  apply (@peak_beyond_iterations_raises unit unit Worker.sample_wntr 30 60 tt
           "leak_node_n3" 1 5 40 50); [lra|lia|lia].
Defined.

(** Ten iterations of 2 seconds on a network with a pattern time step of
    4 seconds: 20 entries, of which entry 1 is sample 2 of the pattern. *)
Lemma resampling_reads_at_multiples_witness :
  exists q, resample 10 2 4 [1; 2; 3; 4; 5; 6; 7; 8; 9; 10] = Some q /\
            length q = 20%nat /\ q !! 1%nat = Some 3.
Proof.
  destruct (resampling_reads_at_multiples 10 2 2 [1; 2; 3; 4; 5; 6; 7; 8; 9; 10])
    as ((q & Hq & Hlen & Hm) & _); [lia|lia|lia|lia|discriminate|].
  exists q. split; [exact Hq|]. split; [exact Hlen|].
  apply (Hm 1%nat). simpl. lia.
Defined.

End LeakFacts.

(** ** The loader: shape, locality, empty windows, normal faults, errors *)

Module LoaderFacts.
Import Slices SliceFacts Loader.

Section LoaderFacts.

Variable F : Type.
Variable fadd fmul : F -> F -> F.
Variable of_int : Z -> F.
Variable nan : F.
Variable Rng : Type.
Variable default_rng : Z -> Rng.
Variable rng_normal : Rng -> F -> F -> nat -> list F * Rng.
Variable parse_sensorfaults : string -> option (list (SensorFault F)).
Variable sha1_int : string -> Z.

Local Abbreviation apply_fault := (_apply_sensorfault F fadd fmul of_int nan Rng rng_normal).
Local Abbreviation apply_one := (apply_config F fadd fmul of_int nan Rng rng_normal).
Local Abbreviation apply_all := (apply_configs F fadd fmul of_int nan Rng rng_normal).
Local Abbreviation get_data :=
  (get F fadd fmul of_int nan Rng default_rng rng_normal parse_sensorfaults sha1_int).

(** The column [c] of the table [t]. *)
Definition cell (data : gmap string (frame F)) (t c : string) : option (column F) :=
  table ← data !! t; table !! c.

(** The samples of a column that the slice [a:b] covers. *)
Definition covers (df : column F) (a b : Z) (k : nat) : Prop :=
  (fst (slice_bounds (length df) a b) <= k < snd (slice_bounds (length df) a b))%nat.

(** [same_shape data data']: the same tables, the same columns, and every
    column as long as before. *)
Definition same_shape (data data' : gmap string (frame F)) : Prop :=
  (forall t, is_Some (data' !! t) <-> is_Some (data !! t)) /\
  (forall t c, length <$> cell data' t c = length <$> cell data t c).

Lemma map_slice_effect (g : F -> F) (df : column F) (a b : Z) :
  length (map_slice F g df a b) = length df /\
  forall k, ~ covers df a b k -> map_slice F g df a b !! k = df !! k.
Proof.
  unfold map_slice, covers. pose proof (slice_bounds_le (length df) a b) as H.
  destruct (slice_bounds (length df) a b) as [lo hi]. simpl in *.
  assert (Hlen : length (map g (take (hi - lo) (drop lo df))) = (hi - lo)%nat).
  { rewrite length_map, length_take, length_drop. lia. }
  split.
  - apply length_splice; [lia|lia|exact Hlen].
  - intros k Hk. rewrite lookup_splice by (try exact Hlen; lia).
    now rewrite decide_False by exact Hk.
Qed.

Lemma update_slice_effect (op : F -> F -> F) (df df' : column F) (a b : Z) (v : list F) :
  update_slice F op df a b v = Some df' ->
  length df' = length df /\
  forall k, ~ covers df a b k -> df' !! k = df !! k.
Proof.
  unfold update_slice. destruct (elementwise F op _ v) as [new|]; [|discriminate].
  cbn [mbind option_bind]. intros H. split.
  - now apply set_slice_array_length in H.
  - intros k Hk. now apply (set_slice_array_outside _ _ _ _ _ k H).
Qed.

Lemma apply_fault_effect df a b ty param rng df' rng' :
  apply_fault df a b ty param rng = Some (df', rng') ->
  length df' = length df /\
  (forall k, ~ covers df a b k -> df' !! k = df !! k) /\
  (ty <> "normal" -> rng' = rng).
Proof.
  unfold _apply_sensorfault.
  destruct (String.eqb_spec ty "constant") as [->|_].
  { intros H. injection H as <- <-. split; [apply set_slice_scalar_length|].
    split; [intros k; apply set_slice_scalar_outside|reflexivity]. }
  destruct (String.eqb_spec ty "drift") as [->|_].
  { destruct param as [p|]; [|discriminate]. cbn [mbind option_bind].
    destruct (update_slice _ _ _ _ _ _) as [df1|] eqn:E; [|discriminate].
    cbn [mbind option_bind]. intros H. injection H as <- <-.
    destruct (update_slice_effect _ _ _ _ _ _ E). auto. }
  destruct (String.eqb_spec ty "normal") as [->|_].
  { destruct param as [p|]; [|discriminate]. cbn [mbind option_bind].
    destruct (b - a <? 0)%Z; [discriminate|].
    destruct (rng_normal _ _ _ _) as [draws rng1].
    destruct (update_slice _ _ _ _ _ _) as [df1|] eqn:E; [|discriminate].
    cbn [mbind option_bind]. intros H. injection H as <- <-.
    destruct (update_slice_effect _ _ _ _ _ _ E). split; [assumption|].
    split; [assumption|congruence]. }
  destruct (String.eqb_spec ty "percentage") as [->|_].
  { destruct param as [p|]; [|discriminate]. cbn [mbind option_bind].
    intros H. injection H as <- <-.
    destruct (map_slice_effect (fun x => fmul x p) df a b). auto. }
  destruct (String.eqb_spec ty "shift") as [->|_].
  { destruct param as [p|]; [|discriminate]. cbn [mbind option_bind].
    intros H. injection H as <- <-.
    destruct (map_slice_effect (fun x => fadd x p) df a b). auto. }
  destruct (String.eqb_spec ty "stuckzero") as [->|_].
  { intros H. injection H as <- <-. split; [apply set_slice_scalar_length|].
    split; [intros k; apply set_slice_scalar_outside|reflexivity]. }
  intros H. injection H as <- <-. auto.
Qed.

Lemma cell_insert (data : gmap string (frame F)) (table : frame F) (col : column F)
    (t0 c0 t c : string) :
  data !! t0 = Some table ->
  cell (<[t0 := <[c0 := col]> table]> data) t c
  = if decide (t = t0 /\ c = c0) then Some col else cell data t c.
Proof.
  intros Ht. unfold cell, frame in *.
  destruct (decide (t = t0)) as [->|Hne].
  - rewrite lookup_insert_eq, Ht. cbn [mbind option_bind].
    destruct (decide (c = c0)) as [->|Hc].
    + rewrite lookup_insert_eq. now rewrite decide_True by auto.
    + rewrite lookup_insert_ne by congruence. now rewrite decide_False by tauto.
  - rewrite lookup_insert_ne by congruence. now rewrite decide_False by tauto.
Qed.

(** One pass of the fault loop: the cells other than the fault's own are
    untouched, the tables are the same, and the fault's own column keeps
    its length and its samples outside the slice. *)
Lemma apply_config_effect data rng config data' rng' :
  apply_one (data, rng) config = Some (data', rng') ->
  (forall t, is_Some (data' !! t) <-> is_Some (data !! t)) /\
  (forall t c, ~ (t = sensorType config /\ c = partId config) ->
     cell data' t c = cell data t c) /\
  (cell data (sensorType config) (partId config) = None ->
     cell data' (sensorType config) (partId config) = None) /\
  (forall col, cell data (sensorType config) (partId config) = Some col ->
     exists col', cell data' (sensorType config) (partId config) = Some col' /\
       length col' = length col /\
       forall k, ~ covers col (start config) (end_ config) k -> col' !! k = col !! k).
Proof.
  unfold apply_config.
  destruct (data !! sensorType config) as [table|] eqn:Ht; [|discriminate].
  cbn [mbind option_bind].
  assert (Hcell : cell data (sensorType config) (partId config) = table !! partId config).
  { unfold cell. now rewrite Ht. }
  rewrite Hcell.
  assert (Hsame : Some (data, rng) = Some (data', rng') ->
            (forall t, is_Some (data' !! t) <-> is_Some (data !! t)) /\
            (forall t c, ~ (t = sensorType config /\ c = partId config) ->
               cell data' t c = cell data t c) /\
            (table !! partId config = None ->
               cell data' (sensorType config) (partId config) = None) /\
            (forall col, table !! partId config = Some col ->
               exists col', cell data' (sensorType config) (partId config) = Some col' /\
                 length col' = length col /\
                 forall k, ~ covers col (start config) (end_ config) k ->
                           col' !! k = col !! k)).
  { intros H. injection H as <- <-. split; [reflexivity|]. split; [reflexivity|].
    split; [now rewrite Hcell|]. intros col Hc. exists col. now rewrite Hcell. }
  destruct (table !! partId config) as [col|] eqn:Hc; [|exact Hsame].
  assert (Happ : forall fault_param,
            ('(col', rng1) ← apply_fault col (start config) (end_ config)
                                (faultType config) fault_param rng;
             Some (<[sensorType config := <[partId config := col']> table]> data, rng1))
            = Some (data', rng') ->
            (forall t, is_Some (data' !! t) <-> is_Some (data !! t)) /\
            (forall t c, ~ (t = sensorType config /\ c = partId config) ->
               cell data' t c = cell data t c) /\
            (Some col = None ->
               cell data' (sensorType config) (partId config) = None) /\
            (forall col0, Some col = Some col0 ->
               exists col', cell data' (sensorType config) (partId config) = Some col' /\
                 length col' = length col0 /\
                 forall k, ~ covers col0 (start config) (end_ config) k ->
                           col' !! k = col0 !! k)).
  { intros fault_param.
    destruct (apply_fault col _ _ _ fault_param rng) as [[col' rng1]|] eqn:E;
      [|discriminate].
    cbn [mbind option_bind]. intros H. injection H as <- <-.
    destruct (apply_fault_effect _ _ _ _ _ _ _ _ E) as (Hlen & Hout & _).
    split; [|split; [|split; [discriminate|]]].
    - intros t. destruct (decide (t = sensorType config)) as [->|Hne].
      + rewrite lookup_insert_eq, Ht. split; eauto.
      + now rewrite lookup_insert_ne by congruence.
    - intros t c Hne. rewrite (cell_insert _ _ _ _ _ _ _ Ht).
      now rewrite decide_False by exact Hne.
    - intros col0 Hcol0. injection Hcol0 as <-. exists col'.
      rewrite (cell_insert _ _ _ _ _ _ _ Ht). rewrite decide_True by auto. auto. }
  destruct (faultParam config) as [p|]; [apply Happ|].
  destruct (String.eqb (faultType config) "stuckzero"); [apply Happ|exact Hsame].
Qed.

Lemma same_shape_refl data : same_shape data data.
Proof. split; reflexivity. Qed.

Lemma same_shape_trans d1 d2 d3 : same_shape d1 d2 -> same_shape d2 d3 -> same_shape d1 d3.
Proof.
  intros (A1 & B1) (A2 & B2). split.
  - intros t. now rewrite A2, A1.
  - intros t c. now rewrite B2, B1.
Qed.

Lemma apply_config_shape data rng config data' rng' :
  apply_one (data, rng) config = Some (data', rng') -> same_shape data data'.
Proof.
  intros H. apply apply_config_effect in H as (Hdom & Hother & Hnone & Hown).
  split; [exact Hdom|]. intros t c.
  destruct (decide (t = sensorType config /\ c = partId config)) as [[-> ->]|Hne].
  - destruct (cell data (sensorType config) (partId config)) as [col|] eqn:E.
    + destruct (Hown col eq_refl) as (col' & -> & Hlen & _). simpl. now rewrite Hlen.
    + now rewrite (Hnone eq_refl).
  - now rewrite Hother by exact Hne.
Qed.

Lemma apply_configs_shape configs : forall data rng data' rng',
  apply_all configs (data, rng) = Some (data', rng') -> same_shape data data'.
Proof.
  induction configs as [|config configs IH]; intros data rng data' rng' H;
    cbn [apply_configs] in H.
  - injection H as <- <-. apply same_shape_refl.
  - destruct (apply_one (data, rng) config) as [[data1 rng1]|] eqn:E; [|discriminate].
    cbn [mbind option_bind] in H.
    apply (same_shape_trans _ data1); [exact (apply_config_shape _ _ _ _ _ E)|].
    exact (IH _ _ _ _ H).
Qed.


(** Over all the faults of a config: the tables and columns stay, every
    column keeps its length, and a sample that no fault on its column
    covers is the stored one. *)
Lemma apply_configs_effect configs : forall data rng data' rng',
  apply_all configs (data, rng) = Some (data', rng') ->
  forall t c col, cell data t c = Some col ->
    exists col', cell data' t c = Some col' /\ length col' = length col /\
      forall k,
        (forall config, config ∈ configs ->
           sensorType config = t -> partId config = c ->
           ~ covers col (start config) (end_ config) k) ->
        col' !! k = col !! k.
Proof.
  induction configs as [|config configs IH]; intros data rng data' rng' H t c col Hcol;
    cbn [apply_configs] in H.
  - injection H as <- <-. exists col. auto.
  - destruct (apply_one (data, rng) config) as [[data1 rng1]|] eqn:E; [|discriminate].
    cbn [mbind option_bind] in H.
    apply apply_config_effect in E as (_ & Hother & _ & Hown).
    assert (Hmid : exists col1, cell data1 t c = Some col1 /\ length col1 = length col /\
              forall k, (sensorType config = t -> partId config = c ->
                         ~ covers col (start config) (end_ config) k) ->
                        col1 !! k = col !! k).
    { destruct (decide (t = sensorType config /\ c = partId config)) as [[-> ->]|Hne].
      - destruct (Hown col Hcol) as (col1 & H1 & Hlen & Hout).
        exists col1. split; [exact H1|]. split; [exact Hlen|].
        intros k Hk. apply Hout. now apply Hk.
      - exists col. rewrite Hother by exact Hne. split; [exact Hcol|].
        split; [reflexivity|]. reflexivity. }
    destruct Hmid as (col1 & Hc1 & Hlen1 & Hout1).
    destruct (IH _ _ _ _ H t c col1 Hc1) as (col' & Hc' & Hlen' & Hout').
    exists col'. split; [exact Hc'|]. split; [congruence|].
    intros k Hk. rewrite Hout'.
    + apply Hout1. intros Ht Hc. apply Hk; [apply list_elem_of_here|exact Ht|exact Hc].
    + intros config' Hin Ht Hc. unfold covers. rewrite Hlen1.
      apply Hk; [now apply list_elem_of_further|exact Ht|exact Hc].
Qed.

Lemma get_unfold dir lc sc sf data text faults :
  load_masked F dir lc sc sf = Some (Some data) ->
  sensorfault_files dir !! sf = Some text ->
  parse_sensorfaults text = Some faults ->
  get_data dir lc sc sf
  = (st ← apply_all faults (data, default_rng (sha1_int text)); Some (Some (fst st))).
Proof.
  intros Hl Ht Hp. unfold get. rewrite Hl. cbn [mbind option_bind].
  rewrite Ht. cbn [mbind option_bind]. rewrite Hp. reflexivity.
Qed.

(** [get] applies the faults to the masked tables and changes nothing but
    the samples in their windows: the result has the tables and columns of
    the masked data, every column has the length it was stored with, and a
    sample differs from the stored one only where a fault of the config
    names its table and column and its slice [start:end] covers the
    sample. *)
Theorem faults_change_their_windows_only :
  forall dir lc sc sf data data' text faults,
    load_masked F dir lc sc sf = Some (Some data) ->
    sensorfault_files dir !! sf = Some text ->
    parse_sensorfaults text = Some faults ->
    get_data dir lc sc sf = Some (Some data') ->
    same_shape data data' /\
    forall t c col, cell data t c = Some col ->
      exists col', cell data' t c = Some col' /\ length col' = length col /\
        forall k,
          (forall config, config ∈ faults ->
             sensorType config = t -> partId config = c ->
             ~ covers col (start config) (end_ config) k) ->
          col' !! k = col !! k.
Proof.
  intros dir lc sc sf data data' text faults Hl Ht Hp Hget.
  rewrite (get_unfold _ _ _ _ _ _ _ Hl Ht Hp) in Hget.
  destruct (apply_all faults _) as [[data1 rng1]|] eqn:E; [|discriminate].
  cbn [mbind option_bind fst] in Hget. injection Hget as <-.
  split; [exact (apply_configs_shape _ _ _ _ _ E)|].
  exact (apply_configs_effect _ _ _ _ _ E).
Qed.

(** *** The sensors that [get] returns *)

Lemma select_lookup (table table' : frame F) (ids : list string) :
  select F table ids = Some table' ->
  forall c, is_Some (table' !! c) <-> c ∈ ids.
Proof.
  unfold select, frame in *. destruct (forallb _ ids) eqn:Hall; [|discriminate].
  intros H c. injection H as <-. rewrite forallb_forall in Hall.
  split.
  - intros [col Hc]. apply map_lookup_filter_Some in Hc as [_ Hc]. exact Hc.
  - intros Hc. assert (Hs : is_Some (table !! c)).
    { apply list_elem_of_In, Hall in Hc. now apply bool_decide_eq_true in Hc. }
    destruct Hs as [col Hcol]. exists col. apply map_lookup_filter_Some. auto.
Qed.


(** The three tables of the masked data hold the columns of the mask. *)
Definition masked_by (mask : gmap string (list string)) (data : gmap string (frame F))
    : Prop :=
  exists demand_ids flow_ids pressure_ids,
    mask !! "DemandSensors" = Some demand_ids /\
    mask !! "FlowSensors" = Some flow_ids /\
    mask !! "PressureSensors" = Some pressure_ids /\
    (forall t, is_Some (data !! t) <-> t ∈ ["demand"; "flow"; "pressure"]) /\
    (forall c, is_Some (cell data "demand" c) <-> c ∈ demand_ids) /\
    (forall c, is_Some (cell data "flow" c) <-> c ∈ flow_ids) /\
    (forall c, is_Some (cell data "pressure" c) <-> c ∈ pressure_ids).

(** The three names pass the check of [get]: each is among the names
    that [list_configs] returns. *)
Definition listed (dir : ScenarioDir F) (lc sc sf : string) : Prop :=
  lc ∈ measurement_dirs dir /\
  sc ∈ map strip4 (sensor_listing dir) /\
  sf ∈ map strip4 (sensorfault_listing dir).

Lemma load_masked_unlisted dir lc sc sf :
  ~ listed dir lc sc sf -> load_masked F dir lc sc sf = Some None.
Proof.
  intros H. unfold load_masked, list_configs. cbn [fst snd].
  destruct (bool_decide_reflect (lc ∈ measurement_dirs dir)) as [H1|H1];
    [|reflexivity].
  destruct (bool_decide_reflect (sc ∈ map strip4 (sensor_listing dir))) as [H2|H2];
    [|reflexivity].
  destruct (bool_decide_reflect (sf ∈ map strip4 (sensorfault_listing dir))) as [H3|H3];
    [|reflexivity].
  exfalso. apply H. repeat split; assumption.
Qed.

Lemma load_masked_listed dir lc sc sf :
  listed dir lc sc sf ->
  load_masked F dir lc sc sf
  = (mask ← sensor_files dir !! sc;
     stored ← tables dir !! lc;
     demand ← stored !! "demand";
     demand_ids ← mask !! "DemandSensors";
     demand ← select F demand demand_ids;
     flow ← stored !! "flow";
     flow_ids ← mask !! "FlowSensors";
     flow ← select F flow flow_ids;
     pressure ← stored !! "pressure";
     pressure_ids ← mask !! "PressureSensors";
     pressure ← select F pressure pressure_ids;
     Some (Some (<["demand" := demand]> (<["flow" := flow]> {["pressure" := pressure]})))).
Proof.
  intros (H1 & H2 & H3). unfold load_masked, list_configs. cbn [fst snd].
  now rewrite !bool_decide_eq_true_2 by assumption.
Qed.

Lemma load_masked_inv dir lc sc sf data :
  load_masked F dir lc sc sf = Some (Some data) ->
  listed dir lc sc sf /\
  exists mask, sensor_files dir !! sc = Some mask /\ masked_by mask data.
Proof.
  intros Hload.
  assert (Hl : listed dir lc sc sf).
  { unfold listed.
    destruct (decide (lc ∈ measurement_dirs dir)) as [H1|H1];
      [destruct (decide (sc ∈ map strip4 (sensor_listing dir))) as [H2|H2];
       [destruct (decide (sf ∈ map strip4 (sensorfault_listing dir))) as [H3|H3];
        [auto|]|]|];
      (rewrite load_masked_unlisted in Hload; [discriminate|unfold listed; tauto]). }
  split; [exact Hl|]. revert Hload. rewrite (load_masked_listed _ _ _ _ Hl).
  destruct (sensor_files dir !! sc) as [mask|] eqn:Hm; [|discriminate].
  destruct (tables dir !! lc) as [stored|]; [|discriminate].
  cbn [mbind option_bind].
  destruct (stored !! "demand") as [demand|]; [|discriminate]. cbn [mbind option_bind].
  destruct (mask !! "DemandSensors") as [demand_ids|] eqn:Hd; [|discriminate].
  cbn [mbind option_bind].
  destruct (select F demand demand_ids) as [demand'|] eqn:Ed; [|discriminate].
  cbn [mbind option_bind].
  destruct (stored !! "flow") as [flow|]; [|discriminate]. cbn [mbind option_bind].
  destruct (mask !! "FlowSensors") as [flow_ids|] eqn:Hf; [|discriminate].
  cbn [mbind option_bind].
  destruct (select F flow flow_ids) as [flow'|] eqn:Ef; [|discriminate].
  cbn [mbind option_bind].
  destruct (stored !! "pressure") as [pressure|]; [|discriminate]. cbn [mbind option_bind].
  destruct (mask !! "PressureSensors") as [pressure_ids|] eqn:Hp; [|discriminate].
  cbn [mbind option_bind].
  destruct (select F pressure pressure_ids) as [pressure'|] eqn:Ep; [|discriminate].
  cbn [mbind option_bind].
  intros H. injection H as <-.
  exists mask. split; [reflexivity|].
  exists demand_ids, flow_ids, pressure_ids.
  split; [exact Hd|]. split; [exact Hf|]. split; [exact Hp|].
  split; [|split; [|split]].
  - intros t. rewrite !elem_of_cons, elem_of_nil.
    destruct (decide (t = "demand")) as [->|Hnd].
    { rewrite lookup_insert_eq. split; [auto|eauto]. }
    rewrite lookup_insert_ne by congruence.
    destruct (decide (t = "flow")) as [->|Hnf].
    { rewrite lookup_insert_eq. split; [auto|eauto]. }
    rewrite lookup_insert_ne by congruence.
    destruct (decide (t = "pressure")) as [->|Hnp].
    { rewrite lookup_singleton_eq. split; [auto|eauto]. }
    rewrite lookup_singleton_ne by congruence. split.
    + intros [x Hx]. discriminate.
    + intros [?|[?|[?|[]]]]; congruence.
  - intros c. unfold cell. rewrite lookup_insert_eq. cbn [mbind option_bind].
    exact (select_lookup _ _ _ Ed c).
  - intros c. unfold cell. rewrite lookup_insert_ne by discriminate.
    rewrite lookup_insert_eq. cbn [mbind option_bind].
    exact (select_lookup _ _ _ Ef c).
  - intros c. unfold cell. rewrite lookup_insert_ne by discriminate.
    rewrite lookup_insert_ne by discriminate. rewrite lookup_singleton_eq.
    cbn [mbind option_bind]. exact (select_lookup _ _ _ Ep c).
Qed.

Lemma same_shape_masked mask data data' :
  same_shape data data' -> masked_by mask data -> masked_by mask data'.
Proof.
  intros (Hdom & Hcell) (d & f & p & Hd & Hf & Hp & Ht & Hcd & Hcf & Hcp).
  assert (Hsome : forall t c, is_Some (cell data' t c) <-> is_Some (cell data t c)).
  { intros t c. specialize (Hcell t c).
    destruct (cell data' t c), (cell data t c); simpl in Hcell; try discriminate;
      split; intros [x Hx]; try discriminate; eauto. }
  exists d, f, p. split; [exact Hd|]. split; [exact Hf|]. split; [exact Hp|].
  split; [|split; [|split]].
  - intros t. now rewrite Hdom.
  - intros c. now rewrite Hsome.
  - intros c. now rewrite Hsome.
  - intros c. now rewrite Hsome.
Qed.

(** What [get] returns, when it returns data: the leak config is a
    directory of [measurements], both config names are known, and the data
    are the three tables demand, flow and pressure, each with exactly the
    columns that the sensor config lists under [DemandSensors],
    [FlowSensors] and [PressureSensors]; the faults add and remove no
    column. *)
Theorem get_returns_the_masked_sensors :
  forall dir lc sc sf data',
    get_data dir lc sc sf = Some (Some data') ->
    lc ∈ measurement_dirs dir /\
    is_Some (sensorfault_files dir !! sf) /\
    exists mask, sensor_files dir !! sc = Some mask /\ masked_by mask data'.
Proof.
  intros dir lc sc sf data' Hget. unfold get in Hget.
  destruct (load_masked F dir lc sc sf) as [[data|]|] eqn:Hl;
    cbn [mbind option_bind] in Hget; [|discriminate|discriminate].
  destruct (sensorfault_files dir !! sf) as [text|] eqn:Ht; [|discriminate].
  cbn [mbind option_bind] in Hget.
  destruct (parse_sensorfaults text) as [faults|]; [|discriminate].
  cbn [mbind option_bind] in Hget.
  destruct (apply_all faults _) as [[data1 rng1]|] eqn:E; [|discriminate].
  cbn [mbind option_bind fst] in Hget. injection Hget as <-.
  destruct (load_masked_inv _ _ _ _ _ Hl) as ((H1 & _) & mask & Hm & Hmask).
  split; [exact H1|]. split; [now rewrite <- Ht|]. exists mask. split; [exact Hm|].
  exact (same_shape_masked _ _ _ (apply_configs_shape _ _ _ _ _ E) Hmask).
Qed.


(** *** Empty and reversed windows *)

Lemma empty_slice_unchanged (df df' : column F) (a b : Z) :
  (0 <= b <= a)%Z -> length df' = length df ->
  (forall k, ~ covers df a b k -> df' !! k = df !! k) -> df' = df.
Proof.
  intros Hab Hlen Hout. apply list_eq. intros k. apply Hout.
  unfold covers. rewrite (slice_bounds_empty (length df) a b Hab). lia.
Qed.

Lemma get_slice_empty (df : column F) (a b : Z) :
  (0 <= b <= a)%Z -> get_slice df a b = [].
Proof.
  intros Hab. unfold get_slice.
  pose proof (slice_bounds_empty (length df) a b Hab) as H.
  destruct (slice_bounds (length df) a b) as [lo hi]. simpl in H. subst hi.
  now rewrite Nat.sub_diag, take_0.
Qed.

(** A window with [0 <= end <= start] covers nothing: every fault type but
    normal returns the column as it is (with a parameter, and stuckzero
    also without one), also when the window lies past the end of the
    column.  A normal fault with [end < start] raises, since it asks the
    generator for a negative number of draws. *)
Theorem empty_window_changes_nothing :
  forall (df : column F) (a b : Z) (ty : string) (p : F) (rng : Rng),
    (0 <= b <= a)%Z ->
    (ty <> "normal" -> apply_fault df a b ty (Some p) rng = Some (df, rng)) /\
    apply_fault df a b "stuckzero" None rng = Some (df, rng) /\
    ((b < a)%Z -> apply_fault df a b "normal" (Some p) rng = None).
Proof.
  intros df a b ty p rng Hab.
  assert (Hsome : forall ty param r,
            ty <> "normal" -> apply_fault df a b ty param rng = Some r -> r = (df, rng)).
  { intros ty' param [df' rng'] Hty H.
    apply apply_fault_effect in H as (Hlen & Hout & Hrng).
    rewrite (Hrng Hty). f_equal. exact (empty_slice_unchanged _ _ _ _ Hab Hlen Hout). }
  split; [|split].
  - intros Hty.
    destruct (apply_fault df a b ty (Some p) rng) as [r|] eqn:E.
    { now rewrite (Hsome _ _ _ Hty E). }
    exfalso. revert E. unfold _apply_sensorfault.
    destruct (String.eqb ty "constant"); [discriminate|].
    destruct (String.eqb_spec ty "drift") as [_|_].
    { cbn [mbind option_bind]. unfold update_slice, steps.
      rewrite (get_slice_empty df a b Hab).
      replace (Z.to_nat (b - a)) with 0%nat by lia.
      cbn [seq map elementwise length Nat.eqb zip_with mbind option_bind].
      unfold set_slice_array.
      pose proof (slice_bounds_empty (length df) a b Hab) as H.
      destruct (slice_bounds (length df) a b) as [lo hi]. simpl in H. subst hi.
      rewrite Nat.sub_diag. discriminate. }
    destruct (String.eqb_spec ty "normal") as [Heq|_]; [contradiction|].
    destruct (String.eqb ty "percentage"); [discriminate|].
    destruct (String.eqb ty "shift"); [discriminate|].
    destruct (String.eqb ty "stuckzero"); discriminate.
  - exact (f_equal Some (Hsome "stuckzero" None _ ltac:(discriminate) eq_refl)).
  - intros Hlt. unfold _apply_sensorfault.
    cbn [String.eqb Ascii.eqb Bool.eqb mbind option_bind].
    destruct (Z.ltb_spec (b - a) 0); [reflexivity|lia].
Qed.

(** *** Normal faults *)

Lemma update_slice_in (op : F -> F -> F) (df v : list F) (a b : Z) :
  (0 <= a <= b)%Z -> (b <= Z.of_nat (length df))%Z ->
  length v = Z.to_nat (b - a) ->
  exists df', update_slice F op df a b v = Some df' /\
    length df' = length df /\
    forall (k : nat) x, df !! k = Some x ->
      (~ (a <= Z.of_nat k < b)%Z -> df' !! k = Some x) /\
      ((a <= Z.of_nat k < b)%Z ->
       exists y, v !! (k - Z.to_nat a)%nat = Some y /\ df' !! k = Some (op x y)).
Proof.
  intros Hab Hb Hv. unfold update_slice, get_slice, set_slice_array.
  rewrite slice_bounds_in by assumption.
  replace (Z.to_nat b - Z.to_nat a)%nat with (Z.to_nat (b - a)) by lia.
  assert (Hslice : length (take (Z.to_nat (b - a)) (drop (Z.to_nat a) df))
                   = Z.to_nat (b - a)).
  { rewrite length_take, length_drop. lia. }
  unfold elementwise. rewrite Hslice, Hv, Nat.eqb_refl. cbn [mbind option_bind].
  rewrite length_zip_with, Hslice, Hv, Nat.min_id, Nat.eqb_refl.
  eexists. split; [reflexivity|]. split.
  - apply length_splice; [lia|lia|]. rewrite length_zip_with, Hslice, Hv. lia.
  - intros k x Hx. rewrite lookup_splice
      by (rewrite ?length_zip_with, ?Hslice, ?Hv; lia).
    split.
    + intros Hk. now rewrite decide_False by lia.
    + intros Hk. rewrite decide_True by lia.
      destruct (lookup_lt_is_Some_2 v (k - Z.to_nat a)) as [y Hy]; [lia|].
      exists y. split; [exact Hy|].
      rewrite lookup_zip_with, (lookup_window_slice F df a b k Hab Hk), Hx.
      cbn [mbind option_bind]. now rewrite Hy.
Qed.

(** A normal fault on a window [a, b) inside the column, with a generator
    whose [normal(loc, scale, size)] returns [size] values: the draws are
    [rng.normal(1, param, size=b-a)], so their mean is 1 and the parameter
    their standard deviation; the [i]-th sample of the window gets the
    [i]-th draw added, the samples outside stay, and the generator
    returned is the one after the draws. *)
Theorem normal_fault_adds_its_draws :
  forall (df : column F) (a b : Z) (p : F) (rng : Rng),
    (forall r loc scale size, length (fst (rng_normal r loc scale size)) = size) ->
    (0 <= a <= b)%Z -> (b <= Z.of_nat (length df))%Z ->
    exists df',
      apply_fault df a b "normal" (Some p) rng
      = Some (df', snd (rng_normal rng (of_int 1) p (Z.to_nat (b - a)))) /\
      length df' = length df /\
      forall (k : nat) x, df !! k = Some x ->
        (~ (a <= Z.of_nat k < b)%Z -> df' !! k = Some x) /\
        ((a <= Z.of_nat k < b)%Z ->
         exists y,
           fst (rng_normal rng (of_int 1) p (Z.to_nat (b - a))) !! (k - Z.to_nat a)%nat
           = Some y /\
           df' !! k = Some (fadd x y)).
Proof.
  intros df a b p rng Hdraw Hab Hb.
  destruct (update_slice_in fadd df
              (fst (rng_normal rng (of_int 1) p (Z.to_nat (b - a)))) a b Hab Hb
              (Hdraw _ _ _ _)) as (df' & Hup & Hlen & Hin).
  exists df'. split; [|split; [exact Hlen|exact Hin]].
  unfold _apply_sensorfault. cbn [String.eqb Ascii.eqb Bool.eqb mbind option_bind].
  destruct (Z.ltb_spec (b - a) 0); [lia|].
  destruct (rng_normal rng (of_int 1) p (Z.to_nat (b - a))) as [draws rng'].
  cbn [fst snd] in *. now rewrite Hup.
Qed.

(** *** The draws that a normal fault gets *)

Lemma apply_normal_window (df : column F) (a b : Z) (p : F) (rng : Rng) :
  (forall r loc scale size, length (fst (rng_normal r loc scale size)) = size) ->
  (0 <= a <= b)%Z -> (b <= Z.of_nat (length df))%Z ->
  exists df',
    apply_fault df a b "normal" (Some p) rng
    = Some (df', snd (rng_normal rng (of_int 1) p (Z.to_nat (b - a)))) /\
    length df' = length df /\
    forall (k : nat) x, df !! k = Some x ->
      (a <= Z.of_nat k < b)%Z ->
      exists y,
        fst (rng_normal rng (of_int 1) p (Z.to_nat (b - a))) !! (k - Z.to_nat a)%nat
        = Some y /\
        df' !! k = Some (fadd x y).
Proof.
  intros Hdraw Hab Hb.
  destruct (update_slice_in fadd df
              (fst (rng_normal rng (of_int 1) p (Z.to_nat (b - a)))) a b Hab Hb
              (Hdraw _ _ _ _)) as (df' & Hup & Hlen & Hin).
  exists df'. split; [|split; [exact Hlen|]].
  - unfold _apply_sensorfault. cbn [String.eqb Ascii.eqb Bool.eqb mbind option_bind].
    destruct (Z.ltb_spec (b - a) 0); [lia|].
    destruct (rng_normal rng (of_int 1) p (Z.to_nat (b - a))) as [noise rng'].
    cbn [fst snd] in *. now rewrite Hup.
  - intros k x Hx Hk. now apply (Hin k x Hx).
Qed.

(** Whether the loop of [get] lets a fault draw from the generator: a
    normal fault whose [partId] is a column of the loaded table of its
    [sensorType]. *)
Definition draws (data : gmap string (frame F)) (config : SensorFault F) : bool :=
  bool_decide (is_Some (cell data (sensorType config) (partId config)))
  && String.eqb (faultType config) "normal".

(** The generator after one fault of the loop: a fault that draws asks for
    [end - start] values, every other fault leaves the generator as it
    is. *)
Definition advance (data : gmap string (frame F)) (rng : Rng) (config : SensorFault F)
    : Rng :=
  match faultParam config with
  | Some p =>
      if draws data config
      then snd (rng_normal rng (of_int 1) p (Z.to_nat (end_ config - start config)))
      else rng
  | None => rng
  end.

Lemma apply_config_rng data rng config data' rng' :
  apply_one (data, rng) config = Some (data', rng') ->
  rng' = advance data rng config.
Proof.
  unfold apply_config, advance, draws, cell.
  destruct (data !! sensorType config) as [table|]; [|discriminate].
  cbn [mbind option_bind].
  destruct (table !! partId config) as [col|].
  2:{ intros H. injection H as <- <-. rewrite bool_decide_eq_false_2.
      - now destruct (faultParam config).
      - intros [x Hx]. discriminate. }
  rewrite bool_decide_eq_true_2 by eauto. cbn [andb].
  assert (Happ : forall fault_param,
            ('(col', rng1) ← apply_fault col (start config) (end_ config)
                               (faultType config) fault_param rng;
             Some (<[sensorType config := <[partId config := col']> table]> data, rng1))
            = Some (data', rng') ->
            faultType config <> "normal" -> rng' = rng).
  { intros fault_param H Hty.
    destruct (apply_fault col _ _ _ fault_param rng) as [[col' rng1]|] eqn:E;
      [|discriminate].
    cbn [mbind option_bind] in H. injection H as <- <-.
    apply apply_fault_effect in E as (_ & _ & Hrng). now apply Hrng. }
  destruct (faultParam config) as [p|].
  - destruct (String.eqb_spec (faultType config) "normal") as [Hty|Hty].
    + rewrite Hty. unfold _apply_sensorfault.
      cbn [String.eqb Ascii.eqb Bool.eqb mbind option_bind].
      destruct (end_ config - start config <? 0)%Z; [discriminate|].
      destruct (rng_normal rng (of_int 1) p _) as [noise rng1].
      destruct (update_slice F fadd col _ _ noise); [|discriminate].
      cbn [mbind option_bind snd]. intros H. now injection H as <- <-.
    + intros H. exact (Happ _ H Hty).
  - destruct (String.eqb_spec (faultType config) "stuckzero") as [Hty|Hty].
    + intros H. apply (Happ _ H). rewrite Hty. discriminate.
    + intros H. now injection H as <- <-.
Qed.

Lemma draws_same_shape data data1 config :
  same_shape data data1 -> draws data1 config = draws data config.
Proof.
  intros (_ & Hcell). unfold draws. f_equal. apply bool_decide_ext.
  specialize (Hcell (sensorType config) (partId config)).
  destruct (cell data1 _ _), (cell data _ _); simpl in Hcell; try discriminate;
    split; intros [x Hx]; try discriminate; eauto.
Qed.

Lemma advance_same_shape data data1 rng config :
  same_shape data data1 -> advance data1 rng config = advance data rng config.
Proof. intros H. unfold advance. now rewrite (draws_same_shape _ _ _ H). Qed.

Lemma foldl_advance_same_shape data data1 configs : forall rng,
  same_shape data data1 ->
  foldl (advance data1) rng configs = foldl (advance data) rng configs.
Proof.
  induction configs as [|config configs IH]; intros rng H; [reflexivity|].
  cbn [foldl]. rewrite (advance_same_shape _ _ _ _ H). now apply IH.
Qed.

Lemma apply_configs_rng configs : forall data rng data' rng',
  apply_all configs (data, rng) = Some (data', rng') ->
  rng' = foldl (advance data) rng configs.
Proof.
  induction configs as [|config configs IH]; intros data rng data' rng' H;
    cbn [apply_configs] in H.
  - now injection H as <- <-.
  - destruct (apply_one (data, rng) config) as [[data1 rng1]|] eqn:E; [|discriminate].
    cbn [mbind option_bind] in H. cbn [foldl].
    rewrite (IH _ _ _ _ H), (apply_config_rng _ _ _ _ _ E).
    apply foldl_advance_same_shape. exact (apply_config_shape _ _ _ _ _ E).
Qed.

Lemma apply_configs_app l1 : forall l2 st,
  apply_all (l1 ++ l2) st = (st1 ← apply_all l1 st; apply_all l2 st1).
Proof.
  induction l1 as [|config l1 IH]; intros l2 st; [reflexivity|].
  cbn [app apply_configs]. destruct (apply_one st config) as [st1|]; [|reflexivity].
  cbn [mbind option_bind]. apply IH.
Qed.

Lemma covers_length (col col1 : column F) (a b : Z) (k : nat) :
  length col1 = length col -> covers col1 a b k <-> covers col a b k.
Proof. intros H. unfold covers. now rewrite H. Qed.

(** The claim as it is stated, for one scenario directory: the values that
    the faults leave in a column depend on the sensorfault file alone, so
    any two loads of the same measurements with the same sensorfault file
    return the same column for a sensor that both of them monitor. *)
Definition noise_from_fault_file_alone (dir : ScenarioDir F) (lc sf : string) : Prop :=
  forall sc1 sc2 d1 d2 t c col1 col2,
    get_data dir lc sc1 sf = Some (Some d1) ->
    get_data dir lc sc2 sf = Some (Some d2) ->
    cell d1 t c = Some col1 -> cell d2 t c = Some col2 ->
    col1 = col2.

(** C7, as amended.  [Scenario.get] seeds the generator with the hash of
    the text of the sensorfault file, and the loop over the faults hands
    the generator on: only a normal fault on a monitored sensor draws from
    it.  So two loads whose sensorfault files have the same content --
    under whatever names, in whatever directories -- and whose masked
    measurements are the same return the same data.  And for a generator
    whose [normal] returns as many values as asked for, a normal fault on
    a window inside the column of a monitored sensor adds, to the [i]-th
    sample of its window, the [i]-th of the [end - start] values drawn
    with mean 1 and the parameter as deviation from the generator as the
    faults before it in the file have left it, where no other fault of the
    file touches that sample: the values are a function of the content of
    the file and of which sensors are monitored. *)
Theorem normal_faults_deterministic :
  forall (dir1 dir2 : ScenarioDir F) (lc1 lc2 sc1 sc2 sf1 sf2 text : string)
         (faults : list (SensorFault F)) (data : gmap string (frame F)),
    (forall r loc scale size, length (fst (rng_normal r loc scale size)) = size) ->
    sensorfault_files dir1 !! sf1 = Some text ->
    sensorfault_files dir2 !! sf2 = Some text ->
    parse_sensorfaults text = Some faults ->
    load_masked F dir1 lc1 sc1 sf1 = Some (Some data) ->
    load_masked F dir2 lc2 sc2 sf2 = Some (Some data) ->
    get_data dir1 lc1 sc1 sf1 = get_data dir2 lc2 sc2 sf2 /\
    forall data', get_data dir1 lc1 sc1 sf1 = Some (Some data') ->
      forall pre config post p col,
        faults = pre ++ config :: post ->
        faultType config = "normal" -> faultParam config = Some p ->
        cell data (sensorType config) (partId config) = Some col ->
        (0 <= start config <= end_ config)%Z ->
        (end_ config <= Z.of_nat (length col))%Z ->
        exists col',
          cell data' (sensorType config) (partId config) = Some col' /\
          forall (k : nat) x,
            col !! k = Some x ->
            (start config <= Z.of_nat k < end_ config)%Z ->
            (forall other, other ∈ pre ++ post ->
               sensorType other = sensorType config -> partId other = partId config ->
               ~ covers col (start other) (end_ other) k) ->
            exists y,
              fst (rng_normal
                     (foldl (advance data) (default_rng (sha1_int text)) pre)
                     (of_int 1) p (Z.to_nat (end_ config - start config)))
                !! (k - Z.to_nat (start config))%nat = Some y /\
              col' !! k = Some (fadd x y).
Proof.
  intros dir1 dir2 lc1 lc2 sc1 sc2 sf1 sf2 text faults data
         Hdraw Ht1 Ht2 Hp Hl1 Hl2.
  split.
  { now rewrite (get_unfold _ _ _ _ _ _ _ Hl1 Ht1 Hp),
                (get_unfold _ _ _ _ _ _ _ Hl2 Ht2 Hp). }
  intros data' Hget pre config post p col -> Hty Hparam Hcol Hab Hb.
  rewrite (get_unfold _ _ _ _ _ _ _ Hl1 Ht1 Hp) in Hget.
  destruct (apply_all (pre ++ config :: post) _) as [[data3 rng3]|] eqn:E;
    [|discriminate].
  cbn [mbind option_bind fst] in Hget. injection Hget as <-.
  rewrite apply_configs_app in E.
  destruct (apply_all pre _) as [[data1 rng1]|] eqn:Epre; [|discriminate].
  cbn [mbind option_bind apply_configs] in E.
  destruct (apply_one (data1, rng1) config) as [[data2 rng2]|] eqn:Eone;
    [|discriminate].
  cbn [mbind option_bind] in E.
  pose proof (apply_configs_rng _ _ _ _ _ Epre) as Hrng1.
  destruct (apply_configs_effect _ _ _ _ _ Epre _ _ _ Hcol)
    as (col1 & Hcol1 & Hlen1 & Hout1).
  (* the fault itself *)
  assert (Hstep : exists col2, cell data2 (sensorType config) (partId config) = Some col2 /\
            length col2 = length col1 /\
            forall (k : nat) x, col1 !! k = Some x ->
              (start config <= Z.of_nat k < end_ config)%Z ->
              exists y,
                fst (rng_normal rng1 (of_int 1) p
                       (Z.to_nat (end_ config - start config)))
                  !! (k - Z.to_nat (start config))%nat = Some y /\
                col2 !! k = Some (fadd x y)).
  { destruct (apply_normal_window col1 (start config) (end_ config) p rng1 Hdraw Hab)
      as (col2 & Happ & Hlen2 & Hin); [now rewrite Hlen1|].
    exists col2. split; [|split; [exact Hlen2|exact Hin]].
    revert Eone. unfold apply_config. unfold cell in Hcol1.
    destruct (data1 !! sensorType config) as [table1|] eqn:Etab; [|discriminate].
    cbn [mbind option_bind] in *. rewrite Hcol1, Hparam, Hty, Happ.
    cbn [mbind option_bind]. intros H. injection H as <- _.
    rewrite (cell_insert _ _ _ _ _ _ _ Etab). now rewrite decide_True by auto. }
  destruct Hstep as (col2 & Hcol2 & Hlen2 & Hin2).
  destruct (apply_configs_effect _ _ _ _ _ E _ _ _ Hcol2)
    as (col3 & Hcol3 & Hlen3 & Hout3).
  exists col3. split; [exact Hcol3|].
  intros k x Hx Hk Hothers.
  assert (Hx1 : col1 !! k = Some x).
  { rewrite Hout1; [exact Hx|]. intros other Hin Ht Hc.
    apply Hothers; [apply elem_of_app; now left|exact Ht|exact Hc]. }
  destruct (Hin2 k x Hx1 Hk) as (y & Hy & Hk2).
  exists y. split; [now rewrite <- Hrng1|].
  rewrite Hout3; [exact Hk2|]. intros other Hin Ht Hc.
  rewrite (covers_length col col2) by congruence.
  apply Hothers; [apply elem_of_app; now right|exact Ht|exact Hc].
Qed.

(** *** Windows that run past the end of the column *)

Lemma slice_bounds_clip (n : nat) (a b : Z) :
  (0 <= a)%Z -> (Z.of_nat n <= b)%Z ->
  slice_bounds n a b = slice_bounds n a (Z.of_nat n).
Proof.
  intros Ha Hb. unfold slice_bounds, slice_index.
  destruct (Z.ltb_spec a 0); [lia|].
  destruct (Z.ltb_spec b 0), (Z.ltb_spec (Z.of_nat n) 0); try lia;
    f_equal; lia.
Qed.

Lemma short_slice_raises (op : F -> F -> F) (df v : column F) (a b : Z) :
  (0 <= a)%Z -> (a < Z.of_nat (length df) < b)%Z ->
  length v = Z.to_nat (b - a) ->
  update_slice F op df a b v = None.
Proof.
  intros Ha Hb Hv. unfold update_slice, get_slice.
  rewrite (slice_bounds_clip _ _ _ Ha) by lia.
  rewrite slice_bounds_in by lia.
  assert (Hslice : length (take (Z.to_nat (Z.of_nat (length df)) - Z.to_nat a)
                             (drop (Z.to_nat a) df))
                   = (length df - Z.to_nat a)%nat).
  { rewrite length_take, length_drop. lia. }
  unfold elementwise. rewrite Hslice.
  destruct (Nat.eqb_spec (length v) (length df - Z.to_nat a)) as [Heq|_]; [lia|].
  destruct v as [|y [|z v]]; [reflexivity| |reflexivity].
  simpl in Hv. lia.
Qed.

(** A window that starts inside the column and ends past its end
    ([0 <= start < len < end]): constant, percentage, shift and stuckzero
    faults are applied up to the end of the column, as for the window
    [start, len); drift and normal faults raise, since the slice is shorter
    than the [end - start] steps or draws that are added to it. *)
Theorem window_past_the_end :
  forall (df : column F) (a b : Z) (param : option F) (p : F) (rng : Rng),
    (forall r loc scale size, length (fst (rng_normal r loc scale size)) = size) ->
    (0 <= a)%Z -> (a < Z.of_nat (length df) < b)%Z ->
    (forall ty, ty ∈ ["constant"; "percentage"; "shift"; "stuckzero"] ->
       apply_fault df a b ty param rng
       = apply_fault df a (Z.of_nat (length df)) ty param rng) /\
    apply_fault df a b "drift" (Some p) rng = None /\
    apply_fault df a b "normal" (Some p) rng = None.
Proof.
  intros df a b param p rng Hdraw Ha Hb.
  pose proof (slice_bounds_clip (length df) a b Ha ltac:(lia)) as Hclip.
  split; [|split].
  - intros ty Hty. rewrite !elem_of_cons, elem_of_nil in Hty.
    unfold _apply_sensorfault, set_slice_scalar, map_slice. rewrite Hclip.
    destruct Hty as [->|[->|[->|[->|[]]]]]; reflexivity.
  - unfold _apply_sensorfault. cbn [String.eqb Ascii.eqb Bool.eqb mbind option_bind].
    rewrite short_slice_raises; [reflexivity|exact Ha|exact Hb|].
    unfold steps. now rewrite !length_map, length_seq.
  - unfold _apply_sensorfault. cbn [String.eqb Ascii.eqb Bool.eqb mbind option_bind].
    destruct (Z.ltb_spec (b - a) 0); [reflexivity|].
    pose proof (Hdraw rng (of_int 1) p (Z.to_nat (b - a))) as Hd.
    destruct (rng_normal rng (of_int 1) p (Z.to_nat (b - a))) as [draws rng'].
    cbn [fst] in Hd. now rewrite short_slice_raises.
Qed.

(** *** What [get] does with names it does not know *)



End LoaderFacts.

(** *** The names that [list_configs] returns *)

Lemma substring_prefix (n s : string) :
  String.substring 0 (String.length n) (n +:+ s) = n.
Proof.
  induction n as [|ch n IH].
  - rewrite Selection.app_nil_l_str. destruct s; reflexivity.
  - rewrite Selection.app_cons_str. simpl. now rewrite IH.
Qed.

Lemma substring_none (x : string) : String.substring 0 0 x = "".
Proof. destruct x; reflexivity. Qed.

(** [list_configs] cuts the last four characters off every file name of
    the [sensors] and [sensorfaults] directories, whatever they are: the
    file [<name>.xml] that the generator writes is listed as [<name>], a
    file with any other four-character ending is listed under the same
    name, and a file name of at most four characters is listed as the
    empty name.  The directories of [measurements] are listed as they
    are. *)
Theorem list_configs_cuts_four_characters :
  forall (measurements sensors sensorfaults : list string),
    (forall name ext, String.length ext = 4%nat ->
       name +:+ ext ∈ sensors ->
       name ∈ snd (fst (list_configs measurements sensors sensorfaults))) /\
    (forall name ext, String.length ext = 4%nat ->
       name +:+ ext ∈ sensorfaults ->
       name ∈ snd (list_configs measurements sensors sensorfaults)) /\
    (forall x, (String.length x <= 4)%nat -> x ∈ sensors ->
       "" ∈ snd (fst (list_configs measurements sensors sensorfaults))) /\
    fst (fst (list_configs measurements sensors sensorfaults)) = measurements /\
    length (snd (fst (list_configs measurements sensors sensorfaults))) = length sensors /\
    length (snd (list_configs measurements sensors sensorfaults)) = length sensorfaults.
Proof.
  intros measurements sensors sensorfaults.
  assert (Hcut : forall name ext, String.length ext = 4%nat -> strip4 (name +:+ ext) = name).
  { intros name ext Hext. unfold strip4.
    rewrite LeakModel.length_append, Hext.
    replace (String.length name + 4 - 4)%nat with (String.length name) by lia.
    apply substring_prefix. }
  cbn [list_configs fst snd]. split; [|split; [|split; [|split; [|split]]]].
  - intros name ext Hext Hin. rewrite <- (Hcut name ext Hext).
    now apply list_elem_of_fmap_2.
  - intros name ext Hext Hin. rewrite <- (Hcut name ext Hext).
    now apply list_elem_of_fmap_2.
  - intros x Hx Hin.
    replace "" with (strip4 x); [now apply list_elem_of_fmap_2|].
    unfold strip4. replace (String.length x - 4)%nat with 0%nat by lia.
    apply substring_none.
  - reflexivity.
  - apply length_map.
  - apply length_map.
Qed.



(** *** The loader facts on the sample directory *)

Definition sample_masked : gmap string (gmap string (list Z)) :=
  match load_masked Z (sample_dir []) "L1" "S1" "F1" with
  | Some (Some data) => data
  | _ => ∅
  end.

Definition sample_result : gmap string (gmap string (list Z)) :=
  match sample_get (sample_dir []) with
  | Some (Some data) => data
  | _ => ∅
  end.

Definition sample_mask : gmap string (list string) :=
  <["DemandSensors" := []]> (<["FlowSensors" := []]> {["PressureSensors" := ["n1"]]}).

(** The sample directory holds a normal fault on the samples 1 and 2 of
    the pressure sensor [n1]. *)
Lemma faults_change_their_windows_only_witness :
  exists col', cell Z sample_result "pressure" "n1" = Some col' /\
    length col' = 4%nat /\ col' !! 0%nat = Some 5%Z /\ col' !! 3%nat = Some 5%Z.
Proof.
  destruct (faults_change_their_windows_only Z Z.add Z.mul (fun z => z) 0%Z Z
              (fun seed => seed) sample_normal sample_parse
              (fun text => Z.of_nat (String.length text))
              (sample_dir []) "L1" "S1" "F1" sample_masked sample_result
              "<SensorfaultConfig name='F1'/>"
              [{| partId := "n1"; sensorType := "pressure"; start := 1; end_ := 3;
                  faultType := "normal"; faultParam := Some 2%Z |}])
    as (_ & Hcols).
  - vm_compute. exact eq_refl.
  - vm_compute. exact eq_refl.
  - reflexivity.
  - vm_compute. exact eq_refl.
  - destruct (Hcols "pressure" "n1" [5; 5; 5; 5]%Z) as (col' & Hc & Hlen & Hout).
    + vm_compute. exact eq_refl.
    + exists col'. split; [exact Hc|]. split; [exact Hlen|].
      split; apply Hout; intros config Hin _ _;
        apply list_elem_of_singleton in Hin; subst config;
        unfold covers; cbn; lia.
Defined.

(** The pressure table of the sample directory stores [n1] and [n2]; the
    sensor config lists [n1]. *)
Lemma get_returns_the_masked_sensors_witness :
  is_Some (cell Z sample_result "pressure" "n1") /\
  ~ is_Some (cell Z sample_result "pressure" "n2").
Proof.
  destruct (get_returns_the_masked_sensors Z Z.add Z.mul (fun z => z) 0%Z Z
              (fun seed => seed) sample_normal sample_parse
              (fun text => Z.of_nat (String.length text))
              (sample_dir []) "L1" "S1" "F1" sample_result)
    as (_ & _ & mask & Hm & d & f & p & _ & _ & Hp & _ & _ & _ & Hcp).
  - vm_compute. exact eq_refl.
  - assert (Hmask : sensor_files (sample_dir []) !! "S1" = Some sample_mask)
      by (vm_compute; exact eq_refl).
    assert (Hids : sample_mask !! "PressureSensors" = Some ["n1"])
      by (vm_compute; exact eq_refl).
    assert (mask = sample_mask) by congruence. subst mask.
    assert (p = ["n1"]) by congruence. subst p.
    split.
    + apply Hcp. apply list_elem_of_here.
    + intros H. apply Hcp in H. apply list_elem_of_singleton in H. discriminate H.
Defined.

(** Two scenario directories that differ in what else they hold: the
    loads agree, and the second sample of [n1], the first of the window,
    is the stored 5 plus the first draw, [1 + 2 * 30]. *)
Lemma normal_faults_deterministic_witness :
  sample_get (sample_dir []) = sample_get (sample_dir ["L2"; "L3"]) /\
  exists col', cell Z sample_result "pressure" "n1" = Some col' /\
               col' !! 1%nat = Some 66%Z.
Proof.
  destruct (normal_faults_deterministic Z Z.add Z.mul (fun z => z) 0%Z Z
              (fun seed => seed) sample_normal sample_parse
              (fun text => Z.of_nat (String.length text))
              (sample_dir []) (sample_dir ["L2"; "L3"]) "L1" "L1" "S1" "S1" "F1" "F1"
              "<SensorfaultConfig name='F1'/>"
              [{| partId := "n1"; sensorType := "pressure"; start := 1; end_ := 3;
                  faultType := "normal"; faultParam := Some 2%Z |}]
              sample_masked) as (Hsame & Hnoise).
  - intros r loc scale size. apply length_replicate.
  - vm_compute. exact eq_refl.
  - vm_compute. exact eq_refl.
  - reflexivity.
  - vm_compute. exact eq_refl.
  - vm_compute. exact eq_refl.
  - split; [exact Hsame|].
    destruct (Hnoise sample_result) with
      (pre := @nil (SensorFault Z)) (post := @nil (SensorFault Z)) (p := 2%Z)
      (col := [5; 5; 5; 5]%Z)
      (config := {| partId := "n1"; sensorType := "pressure"; start := 1; end_ := 3;
                    faultType := "normal"; faultParam := Some 2%Z |})
      as (col' & Hcol & Hin).
    + vm_compute. exact eq_refl.
    + reflexivity.
    + reflexivity.
    + reflexivity.
    + vm_compute. exact eq_refl.
    + cbn. lia.
    + cbn. lia.
    + exists col'. split; [exact Hcol|].
      destruct (Hin 1%nat 5%Z eq_refl) as (y & Hy & Hk).
      * cbn. lia.
      * intros other Hother. inversion Hother.
      * injection Hy as <-. exact Hk.
Defined.

(** *** The same sensorfault file under two sensor configs *)

(** A sensorfault file with a normal fault on [n1] and then one on [n2]. *)
Definition two_faults_parse (text : string) : option (list (SensorFault Z)) :=
  Some [{| partId := "n1"; sensorType := "pressure"; start := 0; end_ := 2;
           faultType := "normal"; faultParam := Some 2%Z |};
        {| partId := "n2"; sensorType := "pressure"; start := 0; end_ := 2;
           faultType := "normal"; faultParam := Some 2%Z |}].

(** A scenario whose sensor config [S1] monitors the pressure at [n1] and
    [n2], and whose sensor config [S2] monitors it at [n2] only. *)
Definition two_configs_dir : ScenarioDir Z :=
  {| measurement_dirs := ["L1"];
     sensor_listing := ["S1.xml"; "S2.xml"];
     sensorfault_listing := ["F1.xml"];
     sensor_files :=
       {["S1" := <["DemandSensors" := []]> (<["FlowSensors" := []]>
                   {["PressureSensors" := ["n1"; "n2"]]});
         "S2" := <["DemandSensors" := []]> (<["FlowSensors" := []]>
                   {["PressureSensors" := ["n2"]]})]};
     sensorfault_files := {["F1" := "<SensorfaultConfig name='F1'/>"]};
     tables :=
       {["L1" := <["demand" := ∅]> (<["flow" := ∅]>
                   {["pressure" := {["n1" := [5; 5; 5; 5]%Z; "n2" := [1; 1; 1; 1]%Z]}]})]} |}.

Definition two_configs_get (sc : string) : gmap string (gmap string (list Z)) :=
  match get Z Z.add Z.mul (fun z => z) 0%Z Z (fun seed => seed) sample_normal
          two_faults_parse (fun text => Z.of_nat (String.length text))
          two_configs_dir "L1" sc "F1" with
  | Some (Some data) => data
  | _ => ∅
  end.

(** Under [S1] the fault on [n2] gets the second batch of draws, under
    [S2], where the fault on [n1] is passed over, the first: the same
    file and the same measurements give [n2] other values. *)
Lemma same_file_other_noise :
  ~ noise_from_fault_file_alone Z Z.add Z.mul (fun z => z) 0%Z Z (fun seed => seed)
      sample_normal two_faults_parse (fun text => Z.of_nat (String.length text))
      two_configs_dir "L1" "F1".
Proof.
  intros H.
  specialize (H "S1" "S2" (two_configs_get "S1") (two_configs_get "S2")
                "pressure" "n2" [64; 64; 1; 1]%Z [62; 62; 1; 1]%Z).
  assert (Heq : [64; 64; 1; 1]%Z = [62; 62; 1; 1]%Z).
  { apply H; vm_compute; exact eq_refl. }
  discriminate Heq.
Qed.


(** A window that ends before it starts. *)
Lemma empty_window_changes_nothing_witness :
  sample_apply [10; 20; 30]%Z 2 1 "drift" (Some 3%Z) 7%Z = Some ([10; 20; 30]%Z, 7%Z) /\
  sample_apply [10; 20; 30]%Z 2 1 "normal" (Some 3%Z) 7%Z = None.
Proof.
  destruct (empty_window_changes_nothing Z Z.add Z.mul (fun z => z) 0%Z Z sample_normal
              [10; 20; 30]%Z 2 1 "drift" 3%Z 7%Z) as (H1 & _ & H3).
  - lia.
  - split; [apply H1; discriminate|apply H3; lia].
Defined.

(** The sample generator returns [size] copies of [loc + scale * state]. *)
Lemma normal_fault_adds_its_draws_witness :
  exists df', sample_apply [10; 20; 30; 40; 50]%Z 1 4 "normal" (Some 3%Z) 7%Z
              = Some (df', 8%Z) /\
    length df' = 5%nat /\ df' !! 0%nat = Some 10%Z /\ df' !! 2%nat = Some 52%Z.
Proof.
  destruct (normal_fault_adds_its_draws Z Z.add Z.mul (fun z => z) 0%Z Z sample_normal
              [10; 20; 30; 40; 50]%Z 1 4 3%Z 7%Z) as (df' & H & Hlen & Hin).
  - intros r loc scale size. apply length_replicate.
  - lia.
  - simpl. lia.
  - exists df'. split; [exact H|]. split; [exact Hlen|]. split.
    + apply (Hin 0%nat 10%Z eq_refl). lia.
    + destruct (Hin 2%nat 30%Z eq_refl) as (_ & Hdraw).
      destruct Hdraw as (y & Hy & Hk); [lia|].
      injection Hy as <-. exact Hk.
Defined.

(** A window of eight samples that starts at the second of five. *)
Lemma window_past_the_end_witness :
  sample_apply [10; 20; 30; 40; 50]%Z 1 9 "drift" (Some 3%Z) 7%Z = None /\
  sample_apply [10; 20; 30; 40; 50]%Z 1 9 "shift" (Some 3%Z) 7%Z
  = sample_apply [10; 20; 30; 40; 50]%Z 1 5 "shift" (Some 3%Z) 7%Z.
Proof.
  destruct (window_past_the_end Z Z.add Z.mul (fun z => z) 0%Z Z sample_normal
              [10; 20; 30; 40; 50]%Z 1 9 (Some 3%Z) 3%Z 7%Z) as (H1 & H2 & _).
  - intros r loc scale size. apply length_replicate.
  - lia.
  - simpl. lia.
  - split; [exact H2|]. apply (H1 "shift").
    apply list_elem_of_further, list_elem_of_further, list_elem_of_here.
Defined.

End LoaderFacts.
